(** * TlsTransport (src/impl/tlstransport.cpp): a shallow embedding

    The TLS link of the transport chain, in its three build variants
    (GnuTLS, MbedTLS, OpenSSL).  Member functions become state
    transformers over a record of the instance's fields; C++ exceptions
    are an explicit [Throw] outcome; the native TLS engines, the lower
    transport and the helpers of tls.cpp are interfaces (type classes),
    since only their use is part of this file. *)

From Stdlib Require Import ZArith List Bool String Lia RelationClasses.
From Stdlib Require Import Strings.Byte.
Import ListNotations.
Open Scope list_scope.
Open Scope Z_scope.

Set Implicit Arguments.

(** ** Messages and connection states *)

(** [binary]: the bytes of a message. *)
Definition binary : Type := list byte.

(** [message_ptr]: a shared pointer to a message; [None] is [nullptr],
    the end-of-stream sentinel of the transport chain. *)
Definition message_ptr : Type := option binary.

(** [message->size()]. *)
Definition size (m : binary) : Z := Z.of_nat (List.length m).

(** [make_message(b, b + n)]: the first [n] bytes of the buffer at [b]. *)
Definition make_message (b : binary) (n : Z) : binary := firstn (Z.to_nat n) b.

(** [Transport::State], the values this file uses. *)
Inductive State : Type := Disconnected | Connecting | Connected | Failed.

Definition State_eq_dec (a b : State) : {a = b} + {a <> b}.
Proof. decide equality. Defined.

Definition State_eqb (a b : State) : bool :=
  if State_eq_dec a b then true else false.

(** ** Outcomes, and the monad of member functions

    A call either returns ([Ok]) or leaves by a C++ exception ([Throw],
    carrying [what()]).  Fields written before a throw stay written.
    [None] is a loop that ran out of fuel: the loops of this file are
    driven by the engine's return codes and have no bound of their own. *)

Inductive outcome (A : Type) : Type :=
| Ok (a : A)
| Throw (what : string).
Arguments Throw {A} what.

Definition M (S A : Type) : Type := S -> option (outcome A * S).

Definition ret {S A : Type} (a : A) : M S A := fun s => Some (Ok a, s).

Definition throw {S A : Type} (what : string) : M S A :=
  fun s => Some (Throw what, s).

Definition out_of_fuel {S A : Type} : M S A := fun _ => None.

Definition bind {S A B : Type} (m : M S A) (k : A -> M S B) : M S B :=
  fun s =>
    match m s with
    | None => None
    | Some (Ok a, s') => k a s'
    | Some (Throw e, s') => Some (Throw e, s')
    end.

(** [try { m } catch (const std::exception &e) { h e }]. *)
Definition try_catch {S A : Type} (m : M S A) (h : string -> M S A) : M S A :=
  fun s =>
    match m s with
    | Some (Throw e, s') => h e s'
    | r => r
    end.

Definition gets {S A : Type} (f : S -> A) : M S A := fun s => Some (Ok (f s), s).

Definition modify {S : Type} (f : S -> S) : M S unit :=
  fun s => Some (Ok tt, f s).

(** A call into code that cannot throw nor loop. *)
Definition lift {S A : Type} (f : S -> A * S) : M S A :=
  fun s => let (a, s') := f s in Some (Ok a, s').

Declare Scope tls_scope.
Delimit Scope tls_scope with tls.
Notation "x <- m ;; k" := (bind m (fun x => k))
  (at level 61, m at next level, right associativity) : tls_scope.
Notation "m ;; k" := (bind m (fun _ => k))
  (at level 61, right associativity) : tls_scope.
Open Scope tls_scope.

(** How a block of [doRecv] was left: by a [return] statement, or by
    running (or breaking) to its end. *)
Inductive flow : Type := Returned | Fell.

(** ** The lower transport

    [Transport::outgoing] hands a message to the lower transport's
    [send], which answers with a boolean or throws (a TCP transport that
    is not open throws). *)
Class LowerTransport (L : Type) : Type :=
  lower_send : L -> message_ptr -> outcome bool * L.

(** ** The incoming queue *)

(** Modelled from the spec: [Queue<message_ptr>] (queue.hpp is not among
    the sources).  An ordered sequence of buffers and a stop flag; once
    stopped no push is accepted, the buffers already queued are still
    delivered, and the consumer observes closure when they are drained.
    A producer blocked at the size limit is a producer whose push has not
    happened yet, so the limit does not show in a sequential run. *)
Record Queue : Type := mkQueue {
  items : list binary;
  stopped : bool
}.

Definition Queue_push (m : binary) (q : Queue) : Queue :=
  if stopped q then q else mkQueue (items q ++ [m]) (stopped q).

Definition Queue_pop (q : Queue) : option binary * Queue :=
  match items q with
  | [] => (None, q)
  | m :: rest => (Some m, mkQueue rest (stopped q))
  end.

Definition Queue_stop (q : Queue) : Queue := mkQueue (items q) true.

Definition Queue_empty (q : Queue) : bool :=
  match items q with [] => true | _ => false end.

Definition Queue_running (q : Queue) : bool :=
  negb (Queue_empty q) || negb (stopped q).

(** ** Fixed-width conversions *)

(** [ssize_t(n)] of a [size_t] value, 64-bit. *)
Definition to_ssize_t (n : Z) : Z :=
  if n <? 2 ^ 63 then n else n - 2 ^ 64.

(** [int(n)] of a [size_t] value, 32-bit. *)
Definition to_int (n : Z) : Z :=
  (n + 2 ^ 31) mod 2 ^ 32 - 2 ^ 31.

(** ** The instance

    The fields of [Transport] (the base class) and of [TlsTransport],
    with [E] the fields of the build variant's engine.  What leaves the
    instance is kept as three logs: the notifications of the state
    observer, the deliveries to the upper layer, and the messages handed
    to the lower transport.  [pool] counts the [doRecv] tasks of this
    instance that [ThreadPool] holds; [owned] says whether
    [weak_from_this().lock()] finds an owner. *)
Record TlsTransport (L E : Type) : Type := mkTls {
  mLower : L;
  mState : State;
  notified : list State;
  delivered : list message_ptr;
  pushed : list message_ptr;
  registered : bool;
  owned : bool;
  pool : nat;
  mPendingRecvCount : Z;
  mIncomingQueue : Queue;
  mIncomingMessage : message_ptr;
  mIncomingMessagePosition : Z;
  mOutgoingResult : bool;
  mEngine : E
}.

Section Fields.
Context {L E : Type}.
Local Abbreviation T := (TlsTransport L E).

Definition set_mLower (x : L) (t : T) : T :=
  mkTls x (mState t) (notified t) (delivered t) (pushed t) (registered t)
    (owned t) (pool t) (mPendingRecvCount t) (mIncomingQueue t)
    (mIncomingMessage t) (mIncomingMessagePosition t) (mOutgoingResult t)
    (mEngine t).

Definition set_mState (x : State) (t : T) : T :=
  mkTls (mLower t) x (notified t) (delivered t) (pushed t) (registered t)
    (owned t) (pool t) (mPendingRecvCount t) (mIncomingQueue t)
    (mIncomingMessage t) (mIncomingMessagePosition t) (mOutgoingResult t)
    (mEngine t).

Definition set_notified (x : list State) (t : T) : T :=
  mkTls (mLower t) (mState t) x (delivered t) (pushed t) (registered t)
    (owned t) (pool t) (mPendingRecvCount t) (mIncomingQueue t)
    (mIncomingMessage t) (mIncomingMessagePosition t) (mOutgoingResult t)
    (mEngine t).

Definition set_delivered (x : list message_ptr) (t : T) : T :=
  mkTls (mLower t) (mState t) (notified t) x (pushed t) (registered t)
    (owned t) (pool t) (mPendingRecvCount t) (mIncomingQueue t)
    (mIncomingMessage t) (mIncomingMessagePosition t) (mOutgoingResult t)
    (mEngine t).

Definition set_pushed (x : list message_ptr) (t : T) : T :=
  mkTls (mLower t) (mState t) (notified t) (delivered t) x (registered t)
    (owned t) (pool t) (mPendingRecvCount t) (mIncomingQueue t)
    (mIncomingMessage t) (mIncomingMessagePosition t) (mOutgoingResult t)
    (mEngine t).

Definition set_registered (x : bool) (t : T) : T :=
  mkTls (mLower t) (mState t) (notified t) (delivered t) (pushed t) x
    (owned t) (pool t) (mPendingRecvCount t) (mIncomingQueue t)
    (mIncomingMessage t) (mIncomingMessagePosition t) (mOutgoingResult t)
    (mEngine t).

Definition set_pool (x : nat) (t : T) : T :=
  mkTls (mLower t) (mState t) (notified t) (delivered t) (pushed t)
    (registered t) (owned t) x (mPendingRecvCount t) (mIncomingQueue t)
    (mIncomingMessage t) (mIncomingMessagePosition t) (mOutgoingResult t)
    (mEngine t).

Definition set_mPendingRecvCount (x : Z) (t : T) : T :=
  mkTls (mLower t) (mState t) (notified t) (delivered t) (pushed t)
    (registered t) (owned t) (pool t) x (mIncomingQueue t)
    (mIncomingMessage t) (mIncomingMessagePosition t) (mOutgoingResult t)
    (mEngine t).

Definition set_mIncomingQueue (x : Queue) (t : T) : T :=
  mkTls (mLower t) (mState t) (notified t) (delivered t) (pushed t)
    (registered t) (owned t) (pool t) (mPendingRecvCount t) x
    (mIncomingMessage t) (mIncomingMessagePosition t) (mOutgoingResult t)
    (mEngine t).

Definition set_mIncomingMessage (x : message_ptr) (t : T) : T :=
  mkTls (mLower t) (mState t) (notified t) (delivered t) (pushed t)
    (registered t) (owned t) (pool t) (mPendingRecvCount t)
    (mIncomingQueue t) x (mIncomingMessagePosition t) (mOutgoingResult t)
    (mEngine t).

Definition set_mIncomingMessagePosition (x : Z) (t : T) : T :=
  mkTls (mLower t) (mState t) (notified t) (delivered t) (pushed t)
    (registered t) (owned t) (pool t) (mPendingRecvCount t)
    (mIncomingQueue t) (mIncomingMessage t) x (mOutgoingResult t)
    (mEngine t).

Definition set_mOutgoingResult (x : bool) (t : T) : T :=
  mkTls (mLower t) (mState t) (notified t) (delivered t) (pushed t)
    (registered t) (owned t) (pool t) (mPendingRecvCount t)
    (mIncomingQueue t) (mIncomingMessage t) (mIncomingMessagePosition t) x
    (mEngine t).

Definition set_mEngine (x : E) (t : T) : T :=
  mkTls (mLower t) (mState t) (notified t) (delivered t) (pushed t)
    (registered t) (owned t) (pool t) (mPendingRecvCount t)
    (mIncomingQueue t) (mIncomingMessage t) (mIncomingMessagePosition t)
    (mOutgoingResult t) x.

End Fields.

(** ** The base class and the scheduling request *)

Section Base.
Context {L : Type} {lower : LowerTransport L} {E : Type}.
Local Abbreviation T := (TlsTransport L E).

(** [Transport::state()]. *)
Definition state : M T State := gets (@mState L E).

(** Modelled from the spec: [Transport::changeState] (transport.cpp is
    not among the sources).  A transition stores the new state and fires
    one observer notification; asking for the current state is no
    transition. *)
Definition changeState (s : State) : M T unit :=
  modify (fun t =>
    if State_eqb (mState t) s then t
    else set_notified (notified t ++ [s]) (set_mState s t)).

(** Modelled from the spec: [Transport::recv], the delivery to the upper
    side of the chain; [None] is the end-of-stream signal. *)
Definition recv (m : message_ptr) : M T unit :=
  modify (fun t => set_delivered (delivered t ++ [m]) t).

(** Modelled from the spec: [Transport::outgoing], the hand-off to the
    lower transport's [send]. *)
Definition Transport_outgoing (m : message_ptr) : M T bool :=
  fun t =>
    let (r, l) := lower_send (mLower t) m in
    Some (r, set_mLower l (set_pushed (pushed t ++ [m]) t)).

(** Modelled from the spec: [Transport::registerIncoming] and
    [unregisterIncoming], which attach the instance's [incoming] to the
    lower transport and detach it. *)
Definition registerIncoming : M T unit := modify (set_registered true).
Definition unregisterIncoming : M T unit := modify (set_registered false).

(** [TlsTransport::enqueueRecv] (lines 25-33). *)
Definition enqueueRecv : M T unit :=
  n <- gets (@mPendingRecvCount L E);;
  if n >? 0 then ret tt
  else
    shared_this <- gets (@owned L E);;
    if shared_this then
      modify (fun t => set_mPendingRecvCount (mPendingRecvCount t + 1) t);;
      modify (fun t => set_pool (S (pool t)) t)
    else ret tt.

(** The first two statements of every [doRecv]: the lock guard (it has
    no effect in a sequential run) and [--mPendingRecvCount]. *)
Definition doRecv_enter : M T unit :=
  modify (fun t => set_mPendingRecvCount (mPendingRecvCount t - 1) t).

(** The last statement of every [doRecv] (lines 217-224, 474-481,
    736-743), reached unless the function returned before. *)
Definition doRecv_resolve : M T unit :=
  s <- state;;
  if State_eqb s Connected then
    changeState Disconnected;;
    recv None
  else
    changeState Failed.

(** [TlsTransport::incoming], the same in the three variants (lines
    141-151, 388-398, 664-674). *)
Definition incoming (message : message_ptr) : M T unit :=
  match message with
  | None =>
      modify (fun t => set_mIncomingQueue (Queue_stop (mIncomingQueue t)) t);;
      enqueueRecv
  | Some m =>
      modify (fun t => set_mIncomingQueue (Queue_push m (mIncomingQueue t)) t);;
      enqueueRecv
  end.

(** [TlsTransport::stop], the same in the three variants (lines 114-119,
    366-371, 641-646). *)
Definition stop : M T unit :=
  unregisterIncoming;;
  modify (fun t => set_mIncomingQueue (Queue_stop (mIncomingQueue t)) t);;
  enqueueRecv.

(** [TlsTransport::postHandshake]: "Dummy". *)
Definition postHandshake : M T unit := ret tt.

End Base.

(** ** Engines that call back

    One call into GnuTLS or MbedTLS runs native code that, before it
    returns [r], may call the functions the instance registered with it
    any finite number of times, each time going on from what the callback
    answered.  [C] names the registered callbacks with their arguments,
    [A c] is what callback [c] answers in the engine's convention. *)
Inductive engine (C : Type) (A : C -> Type) (R : Type) : Type :=
| Return (r : R)
| Callback (c : C) (k : A c -> engine A R).
Arguments Return {C A R} r.
Arguments Callback {C A R} c k.

(** [const size_t bufferSize = 4096]. *)
Definition bufferSize : Z := 4096.

(** A helper of tls.cpp ([gnutls::check], [mbedtls::check],
    [openssl::check]) returns a boolean or throws. *)
Definition check_result {S : Type} (c : outcome bool) : M S bool :=
  fun s => Some (c, s).

(** ** The GnuTLS variant (lines 35-302) *)

(** The functions registered at lines 92-94.  A push or pull answers
    with its return value and the errno it set on the session, a pull
    also with the bytes it copied. *)
Inductive gnutls_callback : Type :=
| push_function (data : binary)
| pull_function (maxlen : Z)
| pull_timeout_function (ms : Z).

Definition gnutls_answer (c : gnutls_callback) : Type :=
  match c with
  | push_function _ => (Z * Z)%type
  | pull_function _ => (Z * Z * binary)%type
  | pull_timeout_function _ => Z
  end.

(** What the variant uses of GnuTLS, of <cerrno> and of tls.cpp. *)
Class GnuTLS (S : Type) : Type := {
  GNUTLS_E_AGAIN : Z;
  GNUTLS_E_INTERRUPTED : Z;
  GNUTLS_E_PREMATURE_TERMINATION : Z;
  EAGAIN : Z;
  ECONNRESET : Z;
  gnutls_handshake : S -> engine gnutls_answer (Z * S);
  gnutls_record_recv : Z -> S -> engine gnutls_answer (Z * binary * S);
  gnutls_record_send : binary -> S -> engine gnutls_answer (Z * S);
  gnutls_bye : S -> engine gnutls_answer (Z * S);
  gnutls_check : Z -> outcome bool
}.

Module Gnu.
Section Variant.
Context {L : Type} {lower : LowerTransport L} {Session : Type} {gnutls : GnuTLS Session}.
Local Abbreviation T := (TlsTransport L Session).

(** [TlsTransport::outgoing] (lines 153-157). *)
Definition outgoing (message : message_ptr) : M T bool :=
  result <- Transport_outgoing message;;
  modify (set_mOutgoingResult result);;
  ret result.

(** [TlsTransport::WriteCallback] (lines 227-242). *)
Definition WriteCallback (data : binary) : M T (Z * Z) :=
  try_catch
    ((if size data >? 0 then outgoing (Some data);; ret tt else ret tt);;
     ret (to_ssize_t (size data), 0))
    (fun _ => ret (-1, ECONNRESET)).

(** The loop of lines 255-261; it ends because each turn takes a buffer
    off the queue, so [n] is one more than the queue holds. *)
Fixpoint ReadCallback_next (n : nat) : M T unit :=
  match n with
  | O => out_of_fuel
  | S n' =>
      next <- lift (fun t : T =>
                let (r, q) := Queue_pop (mIncomingQueue t) in
                (r, set_mIncomingQueue q t));;
      match next with
      | None => ret tt
      | Some m =>
          modify (set_mIncomingMessage (Some m));;
          if size m >? 0 then ret tt
          else recv (Some m);; ReadCallback_next n'
      end
  end.

(** [TlsTransport::ReadCallback] (lines 244-285): the answer and the
    bytes copied to the engine's buffer.  [len] is the [ssize_t] of the
    minimum [n]; [memcpy] and [position += len] take it back as a
    [size_t], which is [n] again.  [position] is below the size of a
    message that survived line 250, so the subtraction does not wrap. *)
Definition ReadCallback (maxlen : Z) : M T (Z * Z * binary) :=
  try_catch
    (message <- gets (@mIncomingMessage L Session);;
     position <- gets (@mIncomingMessagePosition L Session);;
     match message with
     | Some m =>
         if position >=? size m then modify (set_mIncomingMessage None)
         else ret tt
     | None => ret tt
     end;;
     message <- gets (@mIncomingMessage L Session);;
     match message with
     | None =>
         modify (set_mIncomingMessagePosition 0);;
         n <- gets (fun t : T => S (List.length (items (mIncomingQueue t))));;
         ReadCallback_next n
     | Some _ => ret tt
     end;;
     message <- gets (@mIncomingMessage L Session);;
     match message with
     | Some m =>
         position <- gets (@mIncomingMessagePosition L Session);;
         let available := size m - position in
         let n := Z.min maxlen available in
         let len := to_ssize_t n in
         let copied := firstn (Z.to_nat n) (skipn (Z.to_nat position) m) in
         modify (set_mIncomingMessagePosition (position + n));;
         ret (len, 0, copied)
     | None =>
         running <- gets (fun t : T => Queue_running (mIncomingQueue t));;
         if running then ret (-1, EAGAIN, [])
         else ret (0, 0, [])
     end)
    (fun _ => ret (-1, ECONNRESET, [])).

(** [TlsTransport::TimeoutCallback] (lines 287-302). *)
Definition TimeoutCallback (ms : Z) : M T Z :=
  try_catch
    (message <- gets (@mIncomingMessage L Session);;
     position <- gets (@mIncomingMessagePosition L Session);;
     let pending :=
       match message with
       | Some m => position <? size m
       | None => false
       end in
     if pending then ret 1
     else
       empty <- gets (fun t : T => Queue_empty (mIncomingQueue t));;
       ret (if negb empty then 1 else 0))
    (fun _ => ret 1).

(** One call into GnuTLS: the engine runs, calling back as it goes. *)
Definition callback (c : gnutls_callback) : M T (gnutls_answer c) :=
  match c with
  | push_function data => WriteCallback data
  | pull_function maxlen => ReadCallback maxlen
  | pull_timeout_function ms => TimeoutCallback ms
  end.

Fixpoint run {R : Type} (e : engine gnutls_answer R) : M T R :=
  match e with
  | Return r => ret r
  | Callback c k => x <- callback c;; run (k x)
  end.

Definition call {R : Type} (f : Session -> engine gnutls_answer (R * Session))
  : M T R :=
  session <- gets (@mEngine L Session);;
  rs <- run (f session);;
  modify (set_mEngine (snd rs));;
  ret (fst rs).

(** [TlsTransport::start] (lines 107-112). *)
Definition start : M T unit :=
  registerIncoming;;
  changeState Connecting;;
  enqueueRecv.

(** The loop of lines 131-133. *)
Fixpoint send_loop (fuel : nat) (m : binary) : M T Z :=
  match fuel with
  | O => out_of_fuel
  | S fuel' =>
      r <- call (gnutls_record_send m);;
      if (r =? GNUTLS_E_INTERRUPTED) || (r =? GNUTLS_E_AGAIN)
      then send_loop fuel' m
      else ret r
  end.

(** [TlsTransport::send] (lines 121-139). *)
Definition send (fuel : nat) (message : message_ptr) : M T bool :=
  s <- state;;
  if negb (State_eqb s Connected) then throw "TLS is not open"%string
  else
    match message with
    | None => outgoing message
    | Some m =>
        if size m =? 0 then outgoing message
        else
          r <- send_loop fuel m;;
          ok <- check_result (gnutls_check r);;
          if negb ok then throw "TLS send failed"%string
          else gets (@mOutgoingResult L Session)
    end.

(** The handshake loop of lines 174-180. *)
Fixpoint doRecv_handshake (fuel : nat) : M T flow :=
  match fuel with
  | O => out_of_fuel
  | S fuel' =>
      r <- call gnutls_handshake;;
      if r =? GNUTLS_E_AGAIN then ret Returned
      else
        ok <- check_result (gnutls_check r);;
        if negb ok then doRecv_handshake fuel'
        else ret Fell
  end.

(** The record loop of lines 188-209. *)
Fixpoint doRecv_records (fuel : nat) : M T flow :=
  match fuel with
  | O => out_of_fuel
  | S fuel' =>
      rb <- call (gnutls_record_recv bufferSize);;
      let r := fst rb in
      let buffer := snd rb in
      if r =? GNUTLS_E_AGAIN then ret Returned
      else if r =? GNUTLS_E_PREMATURE_TERMINATION then ret Fell
      else
        ok <- check_result (gnutls_check r);;
        if ok then
          if r =? 0 then ret Fell
          else recv (Some (make_message buffer r));; doRecv_records fuel'
        else doRecv_records fuel'
  end.

(** The try block of [doRecv] with its handler (lines 170-213). *)
Definition doRecv_try (fuel : nat) : M T flow :=
  try_catch
    (s <- state;;
     f <- (if State_eqb s Connecting then
             f <- doRecv_handshake fuel;;
             match f with
             | Returned => ret Returned
             | Fell => changeState Connected;; postHandshake;; ret Fell
             end
           else ret Fell);;
     match f with
     | Returned => ret Returned
     | Fell =>
         s <- state;;
         if State_eqb s Connected then doRecv_records fuel else ret Fell
     end)
    (fun _ => ret Fell).

(** [TlsTransport::doRecv] up to line 215: [Returned] when a [return]
    statement ended the function, [Fell] when line 217 is next. *)
Definition doRecv_run (fuel : nat) : M T flow :=
  doRecv_enter;;
  f <- doRecv_try fuel;;
  match f with
  | Returned => ret Returned
  | Fell => call gnutls_bye;; ret Fell
  end.

(** [TlsTransport::doRecv] (lines 163-225). *)
Definition doRecv (fuel : nat) : M T unit :=
  f <- doRecv_run fuel;;
  match f with
  | Returned => ret tt
  | Fell => doRecv_resolve
  end.

End Variant.
End Gnu.

(** ** The default credentials of the GnuTLS variant (lines 39-50)

    [C] is a credentials object, [W] what GnuTLS holds outside any
    session; [gnutls::new_credentials] and [gnutls::check] are helpers
    of tls.cpp and may throw. *)
Class GnuTLSCredentials (C W : Type) : Type := {
  gnutls_new_credentials : W -> outcome C * W;
  gnutls_certificate_set_x509_system_trust : C -> W -> Z * W;
  gnutls_credentials_check : Z -> outcome bool
}.

(** The function's static [creds] (null until set), and the library. *)
Record credentials_store (C W : Type) : Type := mkStore {
  creds : option C;
  library : W
}.

Section Credentials.
Context {C W : Type} {credentials : GnuTLSCredentials C W}.

(** [default_certificate_credentials] (lines 39-50); the lock guard has
    no effect in a sequential run. *)
Definition default_certificate_credentials : M (credentials_store C W) C :=
  c <- gets (@creds C W);;
  match c with
  | None =>
      c <- (fun s => let (r, w) := gnutls_new_credentials (library s) in
                     Some (r, mkStore (creds s) w));;
      modify (fun s => mkStore (Some c) (library s));;
      r <- lift (fun s =>
             let (r, w) :=
               gnutls_certificate_set_x509_system_trust c (library s) in
             (r, mkStore (creds s) w));;
      check_result (gnutls_credentials_check r);;
      ret c
  | Some c => ret c
  end.

End Credentials.

(** ** The MbedTLS variant (lines 304-528) *)

(** The functions registered at line 346 ([mbedtls_ssl_set_bio]; no
    timeout function).  Each answers with its [int]; the receive function
    also with the bytes it copied. *)
Inductive mbedtls_callback : Type :=
| f_send (buf : binary)
| f_recv (len : Z).

Definition mbedtls_answer (c : mbedtls_callback) : Type :=
  match c with
  | f_send _ => Z
  | f_recv _ => (Z * binary)%type
  end.

(** What the variant uses of MbedTLS and of tls.cpp. *)
Class MbedTLS (S : Type) : Type := {
  MBEDTLS_ERR_SSL_WANT_READ : Z;
  MBEDTLS_ERR_SSL_WANT_WRITE : Z;
  MBEDTLS_ERR_SSL_ASYNC_IN_PROGRESS : Z;
  MBEDTLS_ERR_SSL_CRYPTO_IN_PROGRESS : Z;
  MBEDTLS_ERR_SSL_PEER_CLOSE_NOTIFY : Z;
  MBEDTLS_ERR_SSL_CONN_EOF : Z;
  MBEDTLS_ERR_SSL_INTERNAL_ERROR : Z;
  mbedtls_ssl_handshake : S -> engine mbedtls_answer (Z * S);
  mbedtls_ssl_read : Z -> S -> engine mbedtls_answer (Z * binary * S);
  mbedtls_ssl_write : binary -> Z -> S -> engine mbedtls_answer (Z * S);
  mbedtls_check : Z -> outcome bool
}.

Module Mbed.
Section Variant.
Context {L : Type} {lower : LowerTransport L} {Ssl : Type} {mbedtls : MbedTLS Ssl}.
Local Abbreviation T := (TlsTransport L Ssl).

(** [TlsTransport::outgoing] (lines 400-404). *)
Definition outgoing (message : message_ptr) : M T bool :=
  result <- Transport_outgoing message;;
  modify (set_mOutgoingResult result);;
  ret result.

(** [TlsTransport::WriteCallback] (lines 484-490). *)
Definition WriteCallback (buf : binary) : M T Z :=
  outgoing (Some buf);;
  ret (to_int (size buf)).

(** The loop of lines 503-509. *)
Fixpoint ReadCallback_next (n : nat) : M T unit :=
  match n with
  | O => out_of_fuel
  | S n' =>
      next <- lift (fun t : T =>
                let (r, q) := Queue_pop (mIncomingQueue t) in
                (r, set_mIncomingQueue q t));;
      match next with
      | None => ret tt
      | Some m =>
          modify (set_mIncomingMessage (Some m));;
          if size m >? 0 then ret tt
          else recv (Some m);; ReadCallback_next n'
      end
  end.

(** [TlsTransport::ReadCallback] (lines 492-528). *)
Definition ReadCallback (len : Z) : M T (Z * binary) :=
  try_catch
    (message <- gets (@mIncomingMessage L Ssl);;
     position <- gets (@mIncomingMessagePosition L Ssl);;
     match message with
     | Some m =>
         if position >=? size m then modify (set_mIncomingMessage None)
         else ret tt
     | None => ret tt
     end;;
     message <- gets (@mIncomingMessage L Ssl);;
     match message with
     | None =>
         modify (set_mIncomingMessagePosition 0);;
         n <- gets (fun t : T => S (List.length (items (mIncomingQueue t))));;
         ReadCallback_next n
     | Some _ => ret tt
     end;;
     message <- gets (@mIncomingMessage L Ssl);;
     match message with
     | Some m =>
         position <- gets (@mIncomingMessagePosition L Ssl);;
         let available := size m - position in
         let writeLen := Z.min len available in
         let copied :=
           firstn (Z.to_nat writeLen) (skipn (Z.to_nat position) m) in
         modify (set_mIncomingMessagePosition (position + writeLen));;
         ret (to_int writeLen, copied)
     | None =>
         running <- gets (fun t : T => Queue_running (mIncomingQueue t));;
         if running then ret (MBEDTLS_ERR_SSL_WANT_READ, [])
         else ret (MBEDTLS_ERR_SSL_CONN_EOF, [])
     end)
    (fun _ => ret (MBEDTLS_ERR_SSL_INTERNAL_ERROR, [])).

(** One call into MbedTLS.  An exception that leaves a callback unwinds
    through the engine to the caller; the engine's state is then the one
    before the call. *)
Definition callback (c : mbedtls_callback) : M T (mbedtls_answer c) :=
  match c with
  | f_send buf => WriteCallback buf
  | f_recv len => ReadCallback len
  end.

Fixpoint run {R : Type} (e : engine mbedtls_answer R) : M T R :=
  match e with
  | Return r => ret r
  | Callback c k => x <- callback c;; run (k x)
  end.

Definition call {R : Type} (f : Ssl -> engine mbedtls_answer (R * Ssl))
  : M T R :=
  ssl <- gets (@mEngine L Ssl);;
  rs <- run (f ssl);;
  modify (set_mEngine (snd rs));;
  ret (fst rs).

(** [TlsTransport::start] (lines 359-364). *)
Definition start : M T unit :=
  registerIncoming;;
  changeState Connecting;;
  enqueueRecv.

(** [TlsTransport::send] (lines 373-386). *)
Definition send (message : message_ptr) : M T bool :=
  s <- state;;
  if negb (State_eqb s Connected) then throw "TLS is not open"%string
  else
    match message with
    | None => outgoing message
    | Some m =>
        if size m =? 0 then outgoing message
        else
          r <- call (mbedtls_ssl_write m (to_int (size m)));;
          check_result (mbedtls_check r);;
          gets (@mOutgoingResult L Ssl)
    end.

(** The handshake loop of lines 423-441. *)
Fixpoint doRecv_handshake (fuel : nat) : M T flow :=
  match fuel with
  | O => out_of_fuel
  | S fuel' =>
      r <- call mbedtls_ssl_handshake;;
      if (r =? MBEDTLS_ERR_SSL_WANT_READ) || (r =? MBEDTLS_ERR_SSL_WANT_WRITE)
      then ret Returned
      else if (r =? MBEDTLS_ERR_SSL_ASYNC_IN_PROGRESS)
              || (r =? MBEDTLS_ERR_SSL_CRYPTO_IN_PROGRESS)
      then doRecv_handshake fuel'
      else
        check_result (mbedtls_check r);;
        changeState Connected;;
        postHandshake;;
        ret Fell
  end.

(** The record loop of lines 445-468. *)
Fixpoint doRecv_records (fuel : nat) : M T flow :=
  match fuel with
  | O => out_of_fuel
  | S fuel' =>
      rb <- call (mbedtls_ssl_read bufferSize);;
      let r := fst rb in
      let buffer := snd rb in
      if (r =? MBEDTLS_ERR_SSL_WANT_READ) || (r =? MBEDTLS_ERR_SSL_WANT_WRITE)
      then ret Returned
      else if (r =? MBEDTLS_ERR_SSL_ASYNC_IN_PROGRESS)
              || (r =? MBEDTLS_ERR_SSL_CRYPTO_IN_PROGRESS)
      then doRecv_records fuel'
      else if (r =? 0) || (r =? MBEDTLS_ERR_SSL_PEER_CLOSE_NOTIFY)
      then ret Fell
      else
        check_result (mbedtls_check r);;
        recv (Some (make_message buffer r));;
        doRecv_records fuel'
  end.

(** The try block of [doRecv] with its handler (lines 417-472). *)
Definition doRecv_try (fuel : nat) : M T flow :=
  try_catch
    (s <- state;;
     f <- (if State_eqb s Connecting then doRecv_handshake fuel
           else ret Fell);;
     match f with
     | Returned => ret Returned
     | Fell =>
         s <- state;;
         if State_eqb s Connected then doRecv_records fuel else ret Fell
     end)
    (fun _ => ret Fell).

(** [TlsTransport::doRecv] up to line 472: [Returned] when a [return]
    statement ended the function, [Fell] when line 474 is next. *)
Definition doRecv_run (fuel : nat) : M T flow :=
  doRecv_enter;;
  s <- state;;
  if negb (State_eqb s Connecting) && negb (State_eqb s Connected)
  then ret Returned
  else doRecv_try fuel.

(** [TlsTransport::doRecv] (lines 410-482). *)
Definition doRecv (fuel : nat) : M T unit :=
  f <- doRecv_run fuel;;
  match f with
  | Returned => ret tt
  | Fell => doRecv_resolve
  end.

End Variant.
End Mbed.

(** ** The OpenSSL variant (lines 530-767) *)

(** What one call into OpenSSL leaves behind: its return value, the
    engine's new state, what is left in the input BIO, what it appended
    to the output BIO, the bytes it wrote to the caller's buffer, and the
    [(where, ret)] arguments of the calls it made to the info callback. *)
Record ssl_effect (S : Type) : Type := mkEffect {
  ssl_ret : Z;
  ssl_next : S;
  ssl_in : binary;
  ssl_out : binary;
  ssl_buffer : binary;
  ssl_info : list (Z * Z)
}.

(** What the variant uses of OpenSSL and of tls.cpp.  The engine reads
    and writes the two memory BIOs of lines 607-612. *)
Class OpenSSL (S : Type) : Type := {
  SSL_CB_ALERT : Z;
  SSL_do_handshake : S -> binary -> ssl_effect S;
  SSL_read : Z -> S -> binary -> ssl_effect S;
  SSL_write : binary -> Z -> S -> binary -> ssl_effect S;
  SSL_shutdown : S -> binary -> ssl_effect S;
  SSL_is_init_finished : S -> bool;
  openssl_check : S -> Z -> outcome bool
}.

(** The engine's fields: [mSsl] and the two BIOs. *)
Record ssl_fields (S : Type) : Type := mkSsl {
  mSsl : S;
  mInBio : binary;
  mOutBio : binary
}.

(** [BIO_write(bio, data, len)] on a memory BIO. *)
Definition BIO_write (bio data : binary) (len : Z) : binary :=
  if len <=? 0 then bio else bio ++ firstn (Z.to_nat len) data.

Module Ossl.
Section Variant.
Context {L : Type} {lower : LowerTransport L} {Ssl : Type} {openssl : OpenSSL Ssl}.
Local Abbreviation T := (TlsTransport L (ssl_fields Ssl)).

(** [TlsTransport::outgoing] (line 676). *)
Definition outgoing (message : message_ptr) : M T bool :=
  Transport_outgoing message.

(** [TlsTransport::InfoCallback] (lines 757-767). *)
Definition InfoCallback (where_ret : Z * Z) : M T unit :=
  if negb (Z.land (fst where_ret) SSL_CB_ALERT =? 0) then
    modify (fun t : T => set_mIncomingQueue (Queue_stop (mIncomingQueue t)) t)
  else ret tt.

Fixpoint InfoCallbacks (l : list (Z * Z)) : M T unit :=
  match l with
  | [] => ret tt
  | c :: l' => InfoCallback c;; InfoCallbacks l'
  end.

(** One call into OpenSSL; it answers with the return value and the
    caller's buffer. *)
Definition call (f : Ssl -> binary -> ssl_effect Ssl) : M T (Z * binary) :=
  e <- gets (@mEngine L (ssl_fields Ssl));;
  let r := f (mSsl e) (mInBio e) in
  modify (set_mEngine (mkSsl (ssl_next r) (ssl_in r) (mOutBio e ++ ssl_out r)));;
  InfoCallbacks (ssl_info r);;
  ret (ssl_ret r, ssl_buffer r).

(** [openssl::check(mSsl, ret)]. *)
Definition check (r : Z) : M T bool :=
  e <- gets (@mEngine L (ssl_fields Ssl));;
  check_result (openssl_check (mSsl e) r).

(** The loop of [flushOutput] (lines 751-752): [BIO_read] takes up to
    [bufferSize] bytes off the output BIO, and nothing once it is empty,
    so [n] is one more than the BIO holds. *)
Fixpoint flushOutput_loop (n : nat) (result : bool) : M T bool :=
  match n with
  | O => out_of_fuel
  | S n' =>
      e <- gets (@mEngine L (ssl_fields Ssl));;
      match mOutBio e with
      | [] => ret result
      | _ =>
          let buffer := firstn (Z.to_nat bufferSize) (mOutBio e) in
          modify (set_mEngine
                    (mkSsl (mSsl e) (mInBio e)
                       (skipn (Z.to_nat bufferSize) (mOutBio e))));;
          result' <- outgoing (Some buffer);;
          flushOutput_loop n' result'
      end
  end.

(** [TlsTransport::flushOutput] (lines 746-755). *)
Definition flushOutput : M T bool :=
  n <- gets (fun t : T => S (List.length (mOutBio (mEngine t))));;
  flushOutput_loop n true.

(** [TlsTransport::start] (lines 629-639). *)
Definition start : M T unit :=
  registerIncoming;;
  changeState Connecting;;
  rb <- call SSL_do_handshake;;
  check (fst rb);;
  flushOutput;;
  ret tt.

(** [TlsTransport::send] (lines 648-662). *)
Definition send (message : message_ptr) : M T bool :=
  s <- state;;
  if negb (State_eqb s Connected) then throw "TLS is not open"%string
  else
    match message with
    | None => outgoing message
    | Some m =>
        if size m =? 0 then outgoing message
        else
          rb <- call (SSL_write m (to_int (size m)));;
          ok <- check (fst rb);;
          if negb ok then throw "TLS send failed"%string
          else flushOutput
    end.

(** Lines 699-703: where a buffer taken off the queue goes. *)
Definition doRecv_input (message : binary) : M T unit :=
  if size message >? 0 then
    modify (fun t : T =>
      let e := mEngine t in
      set_mEngine
        (mkSsl (mSsl e) (BIO_write (mInBio e) message (to_int (size message)))
           (mOutBio e)) t)
  else recv (Some message).

(** The read loop of lines 722-723; it answers with the last return
    value. *)
Fixpoint doRecv_read (fuel : nat) : M T Z :=
  match fuel with
  | O => out_of_fuel
  | S fuel' =>
      rb <- call (SSL_read bufferSize);;
      if fst rb >? 0 then
        recv (Some (make_message (snd rb) (fst rb)));;
        doRecv_read fuel'
      else ret (fst rb)
  end.

(** The loop of lines 694-728. *)
Fixpoint doRecv_loop (fuel : nat) : M T flow :=
  match fuel with
  | O => out_of_fuel
  | S fuel' =>
      running <- gets (fun t : T => Queue_running (mIncomingQueue t));;
      if negb running then ret Fell
      else
        next <- lift (fun t : T =>
                  let (r, q) := Queue_pop (mIncomingQueue t) in
                  (r, set_mIncomingQueue q t));;
        match next with
        | None => ret Returned
        | Some message =>
            doRecv_input message;;
            s <- state;;
            broke <- (if State_eqb s Connecting then
                        rb <- call SSL_do_handshake;;
                        ok <- check (fst rb);;
                        if negb ok then ret true
                        else
                          flushOutput;;
                          finished <- gets (fun t : T =>
                                        SSL_is_init_finished (mSsl (mEngine t)));;
                          (if finished then
                             changeState Connected;; postHandshake
                           else ret tt);;
                          ret false
                      else ret false);;
            if broke then ret Fell
            else
              s <- state;;
              broke <- (if State_eqb s Connected then
                          r <- doRecv_read fuel;;
                          ok <- check r;;
                          ret (negb ok)
                        else ret false);;
              if broke then ret Fell else doRecv_loop fuel'
        end
  end.

(** The try block of [doRecv] with its handler (lines 689-732). *)
Definition doRecv_try (fuel : nat) : M T flow :=
  try_catch (doRecv_loop fuel) (fun _ => ret Fell).

(** [TlsTransport::doRecv] up to line 734: [Returned] when a [return]
    statement ended the function, [Fell] when line 736 is next. *)
Definition doRecv_run (fuel : nat) : M T flow :=
  doRecv_enter;;
  s <- state;;
  if negb (State_eqb s Connecting) && negb (State_eqb s Connected)
  then ret Returned
  else
    f <- doRecv_try fuel;;
    match f with
    | Returned => ret Returned
    | Fell => call SSL_shutdown;; ret Fell
    end.

(** [TlsTransport::doRecv] (lines 682-744). *)
Definition doRecv (fuel : nat) : M T unit :=
  f <- doRecv_run fuel;;
  match f with
  | Returned => ret tt
  | Fell => doRecv_resolve
  end.

End Variant.
End Ossl.

(** ** The statics of the OpenSSL variant (lines 532-544)

    [W] is what OpenSSL holds outside any connection; [openssl::init]
    is a helper of tls.cpp and may throw; [SSL_get_ex_new_index]
    answers the new index, or [-1]. *)
Class OpenSSLLibrary (W : Type) : Type := {
  openssl_init : W -> outcome unit * W;
  SSL_get_ex_new_index : W -> Z * W
}.

(** [TlsTransport::TransportExIndex] and the library. *)
Record ssl_statics (W : Type) : Type := mkStatics {
  TransportExIndex : Z;
  ssl_library : W
}.

(** [int TlsTransport::TransportExIndex = -1] (line 532). *)
Definition initial_statics {W : Type} (w : W) : ssl_statics W :=
  mkStatics (-1) w.

Section Statics.
Context {W : Type} {library_ops : OpenSSLLibrary W}.

(** [TlsTransport::Init] (lines 534-540). *)
Definition Init : M (ssl_statics W) unit :=
  (fun s => let (r, w) := openssl_init (ssl_library s) in
            Some (r, mkStatics (TransportExIndex s) w));;
  index <- gets (@TransportExIndex W);;
  if index <? 0 then
    modify (fun s => let (i, w) := SSL_get_ex_new_index (ssl_library s) in
                     mkStatics i w)
  else ret tt.

(** [TlsTransport::Cleanup] (lines 542-544): "Nothing to do". *)
Definition Cleanup : M (ssl_statics W) unit := ret tt.

End Statics.

(** [n] calls of [m] in a row; an exception goes to the caller and the
    next call finds what the throwing one left. *)
Fixpoint calls {S : Type} (m : M S unit) (n : nat) (s : S) : option S :=
  match n with
  | O => Some s
  | Datatypes.S n' =>
      match m s with
      | None => None
      | Some (_, s') => calls m n' s'
      end
  end.

(** ** An instance's life

    The entry points other threads and the pool call on one instance,
    one call at a time: the owner's [start], [stop] and [send], the
    lower transport's [incoming], and the pool running a queued [doRecv]
    task. *)
Inductive op : Type :=
| Start
| Stop
| Send (message : message_ptr)
| Incoming (message : message_ptr)
| RunTask.

(** A newly constructed instance (the member initialisers of the class
    and of its base). *)
Definition fresh {L E : Type} (l : L) (e : E) : TlsTransport L E :=
  mkTls l Disconnected [] [] [] false true O 0 (mkQueue [] false) None 0 true e.

(** The pool takes a task off its queue and runs it; with no task queued
    it has nothing to do. *)
Definition run_task {L E : Type} (doRecv : M (TlsTransport L E) unit)
  : M (TlsTransport L E) unit :=
  fun t =>
    match pool t with
    | O => Some (Ok tt, t)
    | S n => doRecv (set_pool n t)
    end.

(** A sequence of calls; an exception goes to the caller, the fields
    stay as the throwing call left them. *)
Fixpoint life {S : Type} (step : op -> M S unit) (ops : list op) (s : S)
  : option S :=
  match ops with
  | [] => Some s
  | o :: ops' =>
      match step o s with
      | None => None
      | Some (_, s') => life step ops' s'
      end
  end.

Definition Gnu_step {L : Type} {lower : LowerTransport L} {Session : Type}
  {gnutls : GnuTLS Session} (fuel : nat) (o : op)
  : M (TlsTransport L Session) unit :=
  match o with
  | Start => Gnu.start
  | Stop => stop
  | Send m => Gnu.send fuel m;; ret tt
  | Incoming m => incoming m
  | RunTask => run_task (Gnu.doRecv fuel)
  end.

Definition Mbed_step {L : Type} {lower : LowerTransport L} {Ssl : Type}
  {mbedtls : MbedTLS Ssl} (fuel : nat) (o : op)
  : M (TlsTransport L Ssl) unit :=
  match o with
  | Start => Mbed.start
  | Stop => stop
  | Send m => Mbed.send m;; ret tt
  | Incoming m => incoming m
  | RunTask => run_task (Mbed.doRecv fuel)
  end.

Definition Ossl_step {L : Type} {lower : LowerTransport L} {Ssl : Type}
  {openssl : OpenSSL Ssl} (fuel : nat) (o : op)
  : M (TlsTransport L (ssl_fields Ssl)) unit :=
  match o with
  | Start => Ossl.start
  | Stop => stop
  | Send m => Ossl.send m;; ret tt
  | Incoming m => incoming m
  | RunTask => run_task (Ossl.doRecv fuel)
  end.

(** The end-of-stream signals among the deliveries to the upper layer. *)
Definition eos_count (l : list message_ptr) : nat :=
  List.length (filter (fun m => match m with None => true | Some _ => false end) l).

(** * Descriptions the statements use *)

(** ** Runs *)

(** [keeps R m]: every run of [m] relates the state before to the state
    after, however it ends. *)
Definition keeps {S A : Type} (R : S -> S -> Prop) (m : M S A) : Prop :=
  forall s r s', m s = Some (r, s') -> R s s'.

(** [nothrow m]: no run of [m] ends in an exception. *)
Definition nothrow {S A : Type} (m : M S A) : Prop :=
  forall s r s', m s = Some (r, s') -> exists a, r = Ok a.

(** [total m]: every run of [m] returns. *)
Definition total {S A : Type} (m : M S A) : Prop :=
  forall s, exists a s', m s = Some (Ok a, s').

(** ** What a run leaves alone *)

(** The scheduling fields are as before. *)
Definition sched_eq {L E : Type} (t t' : TlsTransport L E) : Prop :=
  mPendingRecvCount t' = mPendingRecvCount t /\ pool t' = pool t /\
  owned t' = owned t.

(** The connection state is as before, and the observer heard nothing. *)
Definition state_eq {L E : Type} (t t' : TlsTransport L E) : Prop :=
  mState t' = mState t /\ notified t' = notified t.

(** The upper layer got messages only, no end-of-stream signal. *)
Definition no_eos {L E : Type} (t t' : TlsTransport L E) : Prop :=
  exists l, delivered t' = delivered t ++ map Some l.

(** The lower transport was handed more messages or none, and with none
    the stored result is as before. *)
Definition push_frame {L E : Type} (t t' : TlsTransport L E) : Prop :=
  (exists l, pushed t' = pushed t ++ l) /\
  (pushed t' = pushed t -> mOutgoingResult t' = mOutgoingResult t).

(** While connected, the state stays and the observer hears nothing. *)
Definition while_connected {L E : Type} (t t' : TlsTransport L E) : Prop :=
  mState t = Connected -> state_eq t t'.

(** A relation every callback and every engine call keeps: it ignores
    the queue, the cursor and the engine's fields, admits deliveries of
    messages, and admits hand-offs to the lower transport with the result
    they store. *)
Class CallbackFrame {L E : Type}
  (R : TlsTransport L E -> TlsTransport L E -> Prop) : Prop := {
  cf_preorder :: PreOrder R;
  cf_queue : forall q t, R t (set_mIncomingQueue q t);
  cf_message : forall m t, R t (set_mIncomingMessage m t);
  cf_position : forall p t, R t (set_mIncomingMessagePosition p t);
  cf_engine : forall e t, R t (set_mEngine e t);
  cf_recv : forall m t, R t (set_delivered (delivered t ++ [Some m]) t);
  cf_push : forall m l t, R t (set_mLower l (set_pushed (pushed t ++ [m]) t));
  cf_result : forall m l b t,
    R t (set_mOutgoingResult b (set_mLower l (set_pushed (pushed t ++ [m]) t)))
}.

(** ** Scheduling *)

(** The counter equals the number of queued tasks, which is at most
    one. *)
Definition coalesced {L E : Type} (t : TlsTransport L E) : Prop :=
  mPendingRecvCount t = Z.of_nat (pool t) /\ (pool t <= 1)%nat.

Definition coalescing {L E : Type} (t t' : TlsTransport L E) : Prop :=
  coalesced t -> coalesced t'.

(** One task less on the counter, the pool's queue untouched. *)
Definition sched_dec {L E : Type} (t t' : TlsTransport L E) : Prop :=
  mPendingRecvCount t' = mPendingRecvCount t - 1 /\ pool t' = pool t /\
  owned t' = owned t.

(** The instance [stop] leaves when it schedules a task. *)
Definition stopped_and_scheduled {L E : Type} (t : TlsTransport L E)
  : TlsTransport L E :=
  set_pool (S (pool t))
    (set_mPendingRecvCount 1
       (set_mIncomingQueue (Queue_stop (mIncomingQueue t))
          (set_registered false t))).

(** ** The end of [doRecv] *)

(** The instance right after the first two statements of [doRecv]. *)
Definition entered {L E : Type} (t : TlsTransport L E) : TlsTransport L E :=
  set_mPendingRecvCount (mPendingRecvCount t - 1) t.

(** What the last statement did, with [t] the instance when [doRecv]
    was called, [t1] the instance when the statement was reached and
    [t'] the instance it left. *)
Definition resolved {L E : Type} (t t1 t' : TlsTransport L E) : Prop :=
  (mState t1 = Connected ->
     mState t' = Disconnected /\
     notified t' = notified t1 ++ [Disconnected] /\
     delivered t' = delivered t1 ++ [None] /\
     eos_count (delivered t') = S (eos_count (delivered t))) /\
  (mState t1 <> Connected ->
     mState t' = Failed /\
     delivered t' = delivered t1 /\
     eos_count (delivered t') = eos_count (delivered t)).

(** Whenever [run] (the function up to its last statement) gets to the
    last statement, [doRecv] returns and has resolved. *)
Definition terminal_resolution {L E : Type} (run : M (TlsTransport L E) flow)
  (doRecv : M (TlsTransport L E) unit) : Prop :=
  forall t t1, run t = Some (Ok Fell, t1) ->
    exists t', doRecv t = Some (Ok tt, t') /\ resolved t t1 t'.

(** [doRecv] returns with the session closed: the state went from
    [Connected] to [Disconnected], and the upper layer got one
    end-of-stream signal more. *)
Definition closes_session {L E : Type} (doRecv : M (TlsTransport L E) unit)
  (t : TlsTransport L E) : Prop :=
  exists t', doRecv t = Some (Ok tt, t') /\
    mState t' = Disconnected /\
    notified t' = notified t ++ [Disconnected] /\
    eos_count (delivered t') = S (eos_count (delivered t)).

(** ** The pull loop, as a function of the queue

    What the loop of lines 255-261 (and 503-509) does to the queue, the
    cursor's message and the deliveries. *)
Fixpoint next_buffer (q : list binary) (message : message_ptr)
  (up : list message_ptr) : list binary * message_ptr * list message_ptr :=
  match q with
  | [] => ([], message, up)
  | m :: q' =>
      if size m >? 0 then (q', Some m, up)
      else next_buffer q' (Some m) (up ++ [Some m])
  end.

Definition after_next {L E : Type} (t : TlsTransport L E) : TlsTransport L E :=
  let r := next_buffer (items (mIncomingQueue t)) (mIncomingMessage t)
             (delivered t) in
  set_delivered (snd r)
    (set_mIncomingMessage (snd (fst r))
       (set_mIncomingQueue (mkQueue (fst (fst r)) (stopped (mIncomingQueue t))) t)).

(** Line 250-251: a message read to its end is dropped. *)
Definition drop_exhausted {L E : Type} (t : TlsTransport L E) : TlsTransport L E :=
  match mIncomingMessage t with
  | Some m =>
      if mIncomingMessagePosition t >=? size m then set_mIncomingMessage None t
      else t
  | None => t
  end.

(** Lines 253-262: with no message at hand, the next one is taken. *)
Definition refill {L E : Type} (t : TlsTransport L E) : TlsTransport L E :=
  match mIncomingMessage t with
  | None => after_next (set_mIncomingMessagePosition 0 t)
  | Some _ => t
  end.

(** The GnuTLS pull function as a function of the instance: its answer,
    the bytes it copies, and the instance afterwards. *)
Definition Gnu_pull {L Session : Type} {gnutls : GnuTLS Session} (maxlen : Z)
  (t : TlsTransport L Session) : (Z * Z * binary) * TlsTransport L Session :=
  let t2 := refill (drop_exhausted t) in
  match mIncomingMessage t2 with
  | Some m =>
      let position := mIncomingMessagePosition t2 in
      let n := Z.min maxlen (size m - position) in
      ((to_ssize_t n, 0, firstn (Z.to_nat n) (skipn (Z.to_nat position) m)),
       set_mIncomingMessagePosition (position + n) t2)
  | None =>
      (if Queue_running (mIncomingQueue t2) then (-1, EAGAIN, [])
       else (0, 0, []), t2)
  end.

(** The MbedTLS receive function, likewise. *)
Definition Mbed_pull {L Ssl : Type} {mbedtls : MbedTLS Ssl} (len : Z)
  (t : TlsTransport L Ssl) : (Z * binary) * TlsTransport L Ssl :=
  let t2 := refill (drop_exhausted t) in
  match mIncomingMessage t2 with
  | Some m =>
      let position := mIncomingMessagePosition t2 in
      let writeLen := Z.min len (size m - position) in
      ((to_int writeLen,
        firstn (Z.to_nat writeLen) (skipn (Z.to_nat position) m)),
       set_mIncomingMessagePosition (position + writeLen) t2)
  | None =>
      (if Queue_running (mIncomingQueue t2) then (MBEDTLS_ERR_SSL_WANT_READ, [])
       else (MBEDTLS_ERR_SSL_CONN_EOF, []), t2)
  end.

(** ** The bytes an engine has yet to be served *)

(** What the pull function has not copied yet: the current message past
    the cursor, then the queued buffers in order. *)
Definition unread {L E : Type} (t : TlsTransport L E) : binary :=
  match mIncomingMessage t with
  | Some m => skipn (Z.to_nat (mIncomingMessagePosition t)) m
  | None => []
  end ++ List.concat (items (mIncomingQueue t)).

(** ** The moves of the state

    What [doRecv] may do to the state up to its last statement: nothing
    while [Connected]; from [Connecting] nothing, or the one move to
    [Connected] with its notification. *)
Definition handshake_only {L E : Type} (t t' : TlsTransport L E) : Prop :=
  (mState t = Connected -> state_eq t t') /\
  (mState t = Connecting ->
     state_eq t t' \/
     (mState t' = Connected /\ notified t' = notified t ++ [Connected])).

(** The state and the notifications after a whole [doRecv], by the
    state it found. *)
Definition doRecv_moves {L E : Type} (t t' : TlsTransport L E) : Prop :=
  (mState t = Connected ->
     state_eq t t' \/
     (mState t' = Disconnected /\
      notified t' = notified t ++ [Disconnected])) /\
  (mState t = Connecting ->
     state_eq t t' \/
     (mState t' = Connected /\ notified t' = notified t ++ [Connected]) \/
     (mState t' = Failed /\ notified t' = notified t ++ [Failed]) \/
     (mState t' = Disconnected /\
      notified t' = notified t ++ [Connected; Disconnected])).

(** ** End-of-stream signals still to come *)

(** A session that is being set up or is open can still end with an
    end-of-stream signal; one that is not cannot. *)
Definition open_sessions (s : State) : nat :=
  match s with
  | Connecting | Connected => 1
  | Disconnected | Failed => 0
  end.

(** The signals delivered and the one that may still come do not add up
    to more than before. *)
Definition eos_budget {L E : Type} (t t' : TlsTransport L E) : Prop :=
  (eos_count (delivered t') + open_sessions (mState t')
   <= eos_count (delivered t) + open_sessions (mState t))%nat.

(** From [Disconnected] or [Failed], the state stays and the observer
    hears nothing. *)
Definition terminal_stays {L E : Type} (t t' : TlsTransport L E) : Prop :=
  mState t = Disconnected \/ mState t = Failed -> state_eq t t'.

(** ** What flushing leaves alone *)

(** Between [t] and [t'] only the engine's fields, the lower transport
    and the log of what it was handed may differ. *)
Definition output_only {L E : Type} (t t' : TlsTransport L E) : Prop :=
  state_eq t t' /\ sched_eq t t' /\
  registered t' = registered t /\ delivered t' = delivered t /\
  mIncomingQueue t' = mIncomingQueue t /\
  mIncomingMessage t' = mIncomingMessage t /\
  mIncomingMessagePosition t' = mIncomingMessagePosition t /\
  mOutgoingResult t' = mOutgoingResult t.

(** ** Scripted collaborators

    Concrete lower transports and engines on which the functions above
    can be run: each answers from a script, in order. *)
Module Sample.

(** A lower transport that answers [send] from a list, then with
    [true]. *)
#[export] Instance lower : LowerTransport (list (outcome bool)) :=
  fun l _ =>
    match l with
    | [] => (Ok true, [])
    | r :: l' => (r, l')
    end.

Fixpoint engine_map {C : Type} {A : C -> Type} {R R' : Type} (f : R -> R')
  (e : engine A R) : engine A R' :=
  match e with
  | Return r => Return (f r)
  | Callback c k => Callback c (fun x => engine_map f (k x))
  end.

(** An engine whose calls are scripted: each call plays the next entry,
    which ends with a return value and the caller's buffer; a call
    beyond the script answers [dflt] at once. *)
Definition script (C : Type) (A : C -> Type) : Type :=
  list (engine A (Z * binary)).

Definition play {C : Type} {A : C -> Type} (dflt : Z) (s : script A)
  : engine A (Z * binary * script A) :=
  match s with
  | [] => Return (dflt, [], [])
  | e :: s' => engine_map (fun rb => (rb, s')) e
  end.

Definition play_ret {C : Type} {A : C -> Type} (dflt : Z) (s : script A)
  : engine A (Z * script A) :=
  engine_map (fun rbs => (fst (fst rbs), snd rbs)) (play dflt s).

(** GnuTLS, with the values of gnutls.h and of Linux's errno.h;
    [gnutls::check] throws on the negative codes
    [gnutls_error_is_fatal] reports, here all but [GNUTLS_E_AGAIN],
    [GNUTLS_E_INTERRUPTED], [GNUTLS_E_WARNING_ALERT_RECEIVED] and
    [GNUTLS_E_REHANDSHAKE]. *)
#[export] Instance gnutls : GnuTLS (script gnutls_answer) := {|
  GNUTLS_E_AGAIN := -28;
  GNUTLS_E_INTERRUPTED := -52;
  GNUTLS_E_PREMATURE_TERMINATION := -110;
  EAGAIN := 11;
  ECONNRESET := 104;
  gnutls_handshake := play_ret (-28);
  gnutls_record_recv := fun _ => play (-28);
  gnutls_record_send := fun _ => play_ret (-28);
  gnutls_bye := play_ret 0;
  gnutls_check := fun r =>
    if r >=? 0 then Ok true
    else if (r =? -28) || (r =? -52) || (r =? -16) || (r =? -37)
    then Ok false
    else Throw "GnuTLS error"%string
|}.

(** MbedTLS, with the values of ssl.h; [mbedtls::check] throws on the
    negative codes that are not one of the retry or close codes. *)
#[export] Instance mbedtls : MbedTLS (script mbedtls_answer) := {|
  MBEDTLS_ERR_SSL_WANT_READ := -26880;
  MBEDTLS_ERR_SSL_WANT_WRITE := -26752;
  MBEDTLS_ERR_SSL_ASYNC_IN_PROGRESS := -25856;
  MBEDTLS_ERR_SSL_CRYPTO_IN_PROGRESS := -28672;
  MBEDTLS_ERR_SSL_PEER_CLOSE_NOTIFY := -30848;
  MBEDTLS_ERR_SSL_CONN_EOF := -29312;
  MBEDTLS_ERR_SSL_INTERNAL_ERROR := -27648;
  mbedtls_ssl_handshake := play_ret (-26880);
  mbedtls_ssl_read := fun _ => play (-26880);
  mbedtls_ssl_write := fun _ _ => play_ret (-26880);
  mbedtls_check := fun r =>
    if r >=? 0 then Ok true
    else if (r =? -26880) || (r =? -26752) || (r =? -25856)
            || (r =? -28672) || (r =? -30848)
    then Ok false
    else Throw "MbedTLS error"%string
|}.

(** OpenSSL: a call takes the whole input BIO and plays the next entry
    of the script: return value, bytes for the output BIO, the caller's
    buffer, info callbacks, and whether the handshake is finished
    afterwards.  [openssl::check] is [true] on success and on a wanted
    read ([-1] here), [false] on a clean close ([0]), and throws
    otherwise. *)
Record reply : Type := mkReply {
  r_ret : Z;
  r_out : binary;
  r_buffer : binary;
  r_info : list (Z * Z);
  r_finished : bool
}.

Definition ssl_script : Type := (bool * list reply)%type.

Definition ssl_play (s : ssl_script) (_ : binary) : ssl_effect ssl_script :=
  match snd s with
  | [] => mkEffect (-1) s [] [] [] []
  | r :: rest =>
      mkEffect (r_ret r) (r_finished r, rest) [] (r_out r) (r_buffer r)
        (r_info r)
  end.

#[export] Instance openssl : OpenSSL ssl_script := {|
  SSL_CB_ALERT := 16384;
  SSL_do_handshake := ssl_play;
  SSL_read := fun _ => ssl_play;
  SSL_write := fun _ _ => ssl_play;
  SSL_shutdown := ssl_play;
  SSL_is_init_finished := fst;
  openssl_check := fun _ r =>
    if (r >? 0) || (r =? -1) then Ok true
    else if r =? 0 then Ok false
    else Throw "OpenSSL error"%string
|}.

End Sample.
Import Sample.

(** ** Scripted instances *)

(** A scripted GnuTLS handshake step: it pulls up to five bytes; with
    bytes at hand it pushes them back and is done, with none yet it asks
    to be called again, and at the end of the stream it fails. *)
Definition handshake_step : engine gnutls_answer (Z * binary) :=
  Callback (pull_function 5) (fun x =>
    if fst (fst x) >? 0 then
      Callback (push_function (snd x)) (fun _ => Return (0, []))
    else if snd (fst x) =? 11 then Return (-28, [])
    else Return (-110, [])).

(** A scripted GnuTLS record read: the bytes pulled are the record. *)
Definition record_step : engine gnutls_answer (Z * binary) :=
  Callback (pull_function 4096) (fun x =>
    if fst (fst x) >? 0 then Return (fst (fst x), snd x)
    else if snd (fst x) =? 11 then Return (-28, [])
    else Return (-110, [])).

Definition scripted_gnutls : TlsTransport (list (outcome bool)) (script gnutls_answer) :=
  fresh [] [handshake_step; handshake_step; record_step; record_step;
            record_step; record_step].

(** A session from [start] to the peer's close, and then [stop]. *)
Definition closed_session : list op :=
  [Start; RunTask; Incoming (Some [x16; x03; x01]); RunTask;
   Incoming (Some [x17; x03; x03]); RunTask; Incoming None; RunTask].

(** The instance after that session and [stop]. *)
Definition closed_and_stopped : TlsTransport (list (outcome bool)) (script gnutls_answer) :=
  mkTls [] Disconnected [Connecting; Connected; Disconnected]
    [Some [x17; x03; x03]; None] [Some [x16; x03; x01]] false true 1%nat 1
    (mkQueue [] true) None 0 true [].

(** A connected GnuTLS instance whose engine reports a fatal decryption
    failure ([GNUTLS_E_DECRYPTION_FAILED], -24) on the next record. *)
Definition failing_gnutls : TlsTransport (list (outcome bool)) (script gnutls_answer) :=
  set_mPendingRecvCount 1 (set_pool 1
    (set_mState Connected (fresh [] [Return (-24, [])]))).

(** A GnuTLS instance still connecting whose handshake fails
    ([GNUTLS_E_FATAL_ALERT_RECEIVED], -12). *)
Definition rejected_gnutls : TlsTransport (list (outcome bool)) (script gnutls_answer) :=
  set_mPendingRecvCount 1 (set_pool 1
    (set_mState Connecting (fresh [] [Return (-12, [])]))).

(** A connected GnuTLS instance whose lower transport answers [false]
    to the next push; its engine flushes one record on the first write
    and buffers the second. *)
Definition corked_gnutls : TlsTransport (list (outcome bool)) (script gnutls_answer) :=
  set_mState Connected
    (fresh [Ok false]
       [Callback (push_function [x17; x03; x03]) (fun _ => Return (1, []));
        Return (1, [])]).

Definition corked_mbedtls : TlsTransport (list (outcome bool)) (script mbedtls_answer) :=
  set_mState Connected
    (fresh [Ok false]
       [Callback (f_send [x17; x03; x03]) (fun _ => Return (1, []));
        Return (1, [])]).

(** An MbedTLS instance still connecting, with a task pending, whose
    handshake writes a record while the lower transport's [send]
    throws. *)
Definition unplugged_mbedtls : TlsTransport (list (outcome bool)) (script mbedtls_answer) :=
  set_mPendingRecvCount 1 (set_pool 1
    (set_mState Connecting
       (fresh [Throw "Connection is not open"%string]
          [Callback (f_send [x16; x03; x01]) (fun _ => Return (0, []))]))).

(** An MbedTLS instance still connecting, with a task pending, whose
    handshake returns [MBEDTLS_ERR_SSL_PEER_CLOSE_NOTIFY] (-30848): the
    peer closed before the handshake was done. *)
Definition close_notified_mbedtls : TlsTransport (list (outcome bool)) (script mbedtls_answer) :=
  set_mPendingRecvCount 1 (set_pool 1
    (set_mState Connecting (fresh [] [Return (-30848, [])]))).

(** A GnuTLS library that counts the calls made to it, hands out the
    count as the credentials object, and cannot load the system trust
    ([GNUTLS_E_FILE_ERROR], -64). *)
#[export] Instance untrusting : GnuTLSCredentials nat nat := {|
  gnutls_new_credentials := fun w => (Ok w, S w);
  gnutls_certificate_set_x509_system_trust := fun _ w => (-64, S w);
  gnutls_credentials_check := fun r =>
    if r >=? 0 then Ok true else Throw "GnuTLS error"%string
|}.

(** An OpenSSL library that counts the indices it has handed out;
    [openssl::init] succeeds. *)
#[export] Instance counting_library : OpenSSLLibrary Z := {|
  openssl_init := fun w => (Ok tt, w);
  SSL_get_ex_new_index := fun w => (w, w + 1)
|}.

(** The scripted GnuTLS instance after [start]. *)
Definition started_gnutls : TlsTransport (list (outcome bool)) (script gnutls_answer) :=
  set_pool 1 (set_mPendingRecvCount 1
    (set_notified [Connecting]
       (set_mState Connecting (set_registered true scripted_gnutls)))).

(** A connected GnuTLS instance whose engine reads records as
    [record_step] does, and its OpenSSL counterpart with nothing
    scripted. *)
Definition reading_gnutls : TlsTransport (list (outcome bool)) (script gnutls_answer) :=
  set_registered true
    (set_mState Connected (fresh [] [record_step; record_step])).

Definition reading_openssl : TlsTransport (list (outcome bool)) (ssl_fields ssl_script) :=
  set_registered true
    (set_mState Connected (fresh [] (mkSsl (true, []) [] []))).

(** * Properties *)

(** ** Reasoning about runs *)

Section Runs.
Context {S : Type}.

Lemma bind_Some (A B : Type) (m : M S A) (k : A -> M S B) s r s' :
  bind m k s = Some (r, s') ->
  (exists a s1, m s = Some (Ok a, s1) /\ k a s1 = Some (r, s')) \/
  (exists e, m s = Some (Throw e, s') /\ r = Throw e).
Proof.
  unfold bind. destruct (m s) as [[[a|e] s1]|]; intro H.
  - left. eauto.
  - right. inversion H; subst. eauto.
  - discriminate.
Qed.

Lemma bind_Ok (A B : Type) (m : M S A) (k : A -> M S B) s a s1 :
  m s = Some (Ok a, s1) -> bind m k s = k a s1.
Proof. unfold bind. intros ->. reflexivity. Qed.

Lemma bind_Throw (A B : Type) (m : M S A) (k : A -> M S B) s e s1 :
  m s = Some (Throw e, s1) -> bind m k s = Some (Throw e, s1).
Proof. unfold bind. intros ->. reflexivity. Qed.

Section Keeps.
Context (R : S -> S -> Prop) {R_preorder : PreOrder R}.

Lemma R_refl s : R s s.
Proof. reflexivity. Qed.

Lemma R_trans s1 s2 s3 : R s1 s2 -> R s2 s3 -> R s1 s3.
Proof. intros. etransitivity; eassumption. Qed.

Lemma keeps_ret (A : Type) (a : A) : keeps R (ret a).
Proof. intros s r s' H. inversion H; subst. apply R_refl. Qed.

Lemma keeps_throw (A : Type) (e : string) : keeps R (@throw S A e).
Proof. intros s r s' H. inversion H; subst. apply R_refl. Qed.

Lemma keeps_out_of_fuel (A : Type) : keeps R (@out_of_fuel S A).
Proof. intros s r s' H. discriminate. Qed.

Lemma keeps_gets (A : Type) (f : S -> A) : keeps R (gets f).
Proof. intros s r s' H. inversion H; subst. apply R_refl. Qed.

Lemma keeps_check_result (c : outcome bool) : keeps R (check_result c).
Proof. intros s r s' H. inversion H; subst. apply R_refl. Qed.

Lemma keeps_modify (f : S -> S) : (forall s, R s (f s)) -> keeps R (modify f).
Proof. intros Hf s r s' H. inversion H; subst. apply Hf. Qed.

Lemma keeps_lift (A : Type) (f : S -> A * S) :
  (forall s, R s (snd (f s))) -> keeps R (lift f).
Proof.
  intros Hf s r s' H. unfold lift in H. specialize (Hf s).
  destruct (f s) as [a s1]. inversion H; subst. exact Hf.
Qed.

Lemma keeps_bind (A B : Type) (m : M S A) (k : A -> M S B) :
  keeps R m -> (forall a, keeps R (k a)) -> keeps R (bind m k).
Proof.
  intros Hm Hk s r s' H. apply bind_Some in H.
  destruct H as [(a & s1 & H1 & H2)|(e & H1 & _)].
  - eapply R_trans; [eapply Hm|eapply Hk]; eassumption.
  - eapply Hm; eassumption.
Qed.

Lemma keeps_try_catch (A : Type) (m : M S A) (h : string -> M S A) :
  keeps R m -> (forall e, keeps R (h e)) -> keeps R (try_catch m h).
Proof.
  intros Hm Hh s r s' H. unfold try_catch in H.
  destruct (m s) as [[[a|e] s1]|] eqn:Em.
  - inversion H; subst. eapply Hm; eassumption.
  - eapply R_trans; [eapply Hm|eapply Hh]; eassumption.
  - discriminate.
Qed.

End Keeps.

Lemma nothrow_ret (A : Type) (a : A) : nothrow (@ret S A a).
Proof. intros s r s' H. inversion H; subst. eauto. Qed.

Lemma nothrow_gets (A : Type) (f : S -> A) : nothrow (gets f).
Proof. intros s r s' H. inversion H; subst. eauto. Qed.

Lemma nothrow_modify (f : S -> S) : nothrow (modify f).
Proof. intros s r s' H. inversion H; subst. eauto. Qed.

Lemma nothrow_lift (A : Type) (f : S -> A * S) : nothrow (lift f).
Proof.
  intros s r s' H. unfold lift in H. destruct (f s). inversion H; subst. eauto.
Qed.

Lemma nothrow_out_of_fuel (A : Type) : nothrow (@out_of_fuel S A).
Proof. intros s r s' H. discriminate. Qed.

Lemma nothrow_bind (A B : Type) (m : M S A) (k : A -> M S B) :
  nothrow m -> (forall a, nothrow (k a)) -> nothrow (bind m k).
Proof.
  intros Hm Hk s r s' H. apply bind_Some in H.
  destruct H as [(a & s1 & H1 & H2)|(e & H1 & _)].
  - eapply Hk; eassumption.
  - apply Hm in H1. destruct H1 as [a Ha]. discriminate.
Qed.

Lemma nothrow_try_catch (A : Type) (m : M S A) (h : string -> M S A) :
  (forall e, nothrow (h e)) -> nothrow (try_catch m h).
Proof.
  intros Hh s r s' H. unfold try_catch in H.
  destruct (m s) as [[[a|e] s1]|] eqn:Em.
  - inversion H; subst. eauto.
  - eapply Hh; eassumption.
  - discriminate.
Qed.

End Runs.

Create HintDb keeps.
#[export] Hint Resolve keeps_ret keeps_throw keeps_out_of_fuel keeps_gets
  keeps_check_result keeps_bind keeps_try_catch : keeps.
Create HintDb nothrow.
#[export] Hint Resolve nothrow_ret nothrow_gets nothrow_modify nothrow_lift
  nothrow_out_of_fuel nothrow_bind nothrow_try_catch : nothrow.

(** ** What a run leaves alone *)

Section Frames.
Context {L E : Type}.
Local Abbreviation T := (TlsTransport L E).

#[export] Instance sched_eq_preorder : PreOrder (@sched_eq L E).
Proof.
  split.
  - intro t. repeat split.
  - intros a b c (H1 & H2 & H3) (H4 & H5 & H6). repeat split; congruence.
Qed.

#[export] Instance state_eq_preorder : PreOrder (@state_eq L E).
Proof.
  split.
  - intro t. split; reflexivity.
  - intros a b c (H1 & H2) (H3 & H4). split; congruence.
Qed.

#[export] Instance no_eos_preorder : PreOrder (@no_eos L E).
Proof.
  split.
  - intro t. exists []. simpl. now rewrite app_nil_r.
  - intros a b c [l1 H1] [l2 H2]. exists (l1 ++ l2).
    rewrite H2, H1, map_app, app_assoc. reflexivity.
Qed.

Lemma app_same_nil (A : Type) (l k : list A) : l ++ k = l -> k = [].
Proof.
  intro H. apply (f_equal (@List.length A)) in H.
  rewrite length_app in H. destruct k; [reflexivity|simpl in H; lia].
Qed.

#[export] Instance push_frame_preorder : PreOrder (@push_frame L E).
Proof.
  split.
  - intro t. split; [exists []; now rewrite app_nil_r|reflexivity].
  - intros a b c [[l1 H1] K1] [[l2 H2] K2]. split.
    + exists (l1 ++ l2). rewrite H2, H1, app_assoc. reflexivity.
    + intro H. rewrite H2, H1, <- app_assoc in H.
      apply app_same_nil in H. apply app_eq_nil in H. destruct H; subst.
      rewrite app_nil_r in H1, H2. rewrite K2, K1; auto.
Qed.

End Frames.

(** Unfolds the monad's operations and reduces what they expose. *)
Ltac run_red :=
  cbv beta iota delta
    [bind try_catch gets modify ret throw lift check_result out_of_fuel].

(** Splits a goal [keeps R m] along the structure of [m]; [solve_rel]
    closes the goals [R s (f s)] of field updates. *)
Ltac keeps_with solve_rel :=
  repeat first
    [ assumption
    | solve [ auto with keeps ]
    | apply keeps_ret; typeclasses eauto
    | apply keeps_throw; typeclasses eauto
    | apply keeps_out_of_fuel
    | apply keeps_gets; typeclasses eauto
    | apply keeps_check_result; typeclasses eauto
    | apply keeps_bind; [ typeclasses eauto | | intros ]
    | apply keeps_try_catch; [ typeclasses eauto | | intros ]
    | apply keeps_modify; intros; solve_rel
    | apply keeps_lift; intros; solve_rel
    | match goal with
      | |- keeps _ (match ?x with _ => _ end) => destruct x
      end ].

Ltac nothrow_tac :=
  repeat first
    [ assumption
    | apply nothrow_ret | apply nothrow_out_of_fuel | apply nothrow_gets
    | apply nothrow_modify | apply nothrow_lift
    | apply nothrow_try_catch; intros
    | apply nothrow_bind; [ | intros ]
    | solve [ auto with nothrow ]
    | match goal with
      | |- nothrow (match ?x with _ => _ end) => destruct x
      end ].

Ltac solve_sched_eq :=
  try match goal with |- context [Queue_pop ?q] => destruct (Queue_pop q) end;
  try match goal with |- context [if ?b then _ else _] => destruct b end;
  unfold sched_eq; simpl; auto.

Ltac solve_state_eq :=
  try match goal with |- context [Queue_pop ?q] => destruct (Queue_pop q) end;
  try match goal with |- context [if ?b then _ else _] => destruct b end;
  unfold state_eq; simpl; auto.

Ltac solve_no_eos :=
  try match goal with |- context [Queue_pop ?q] => destruct (Queue_pop q) end;
  try match goal with |- context [if ?b then _ else _] => destruct b end;
  unfold no_eos; simpl;
  first [ exists []; simpl; now rewrite app_nil_r
        | match goal with
          | |- exists l, _ ++ [Some ?m] = _ ++ map Some l =>
              exists [m]; reflexivity
          end ].

Ltac solve_push_frame :=
  try match goal with |- context [Queue_pop ?q] => destruct (Queue_pop q) end;
  try match goal with |- context [if ?b then _ else _] => destruct b end;
  unfold push_frame; simpl;
  (split; [ exists []; now rewrite app_nil_r | intros; reflexivity ]).

Section BaseFrames.
Context {L : Type} {lower : LowerTransport L} {E : Type}.
Local Abbreviation T := (TlsTransport L E).

Lemma recv_sched_eq m : keeps sched_eq (recv (L:=L) (E:=E) m).
Proof. unfold recv. keeps_with solve_sched_eq. Qed.

Lemma recv_state_eq m : keeps state_eq (recv (L:=L) (E:=E) m).
Proof. unfold recv. keeps_with solve_state_eq. Qed.

Lemma recv_no_eos m : keeps no_eos (recv (L:=L) (E:=E) (Some m)).
Proof. unfold recv. keeps_with solve_no_eos. Qed.

Lemma recv_push_frame m : keeps push_frame (recv (L:=L) (E:=E) m).
Proof. unfold recv. keeps_with solve_push_frame. Qed.

Lemma changeState_sched_eq s : keeps sched_eq (changeState (L:=L) (E:=E) s).
Proof. unfold changeState. keeps_with solve_sched_eq. Qed.

Lemma changeState_no_eos s : keeps no_eos (changeState (L:=L) (E:=E) s).
Proof. unfold changeState. keeps_with solve_no_eos. Qed.

Lemma changeState_push_frame s : keeps push_frame (changeState (L:=L) (E:=E) s).
Proof. unfold changeState. keeps_with solve_push_frame. Qed.

Lemma Transport_outgoing_sched_eq m :
  keeps sched_eq (Transport_outgoing (E:=E) m).
Proof.
  intros t r t' H. unfold Transport_outgoing in H.
  destruct (lower_send (mLower t) m). inversion H; subst.
  unfold sched_eq; simpl; auto.
Qed.

Lemma Transport_outgoing_state_eq m :
  keeps state_eq (Transport_outgoing (E:=E) m).
Proof.
  intros t r t' H. unfold Transport_outgoing in H.
  destruct (lower_send (mLower t) m). inversion H; subst.
  unfold state_eq; simpl; auto.
Qed.

Lemma Transport_outgoing_no_eos m :
  keeps no_eos (Transport_outgoing (E:=E) m).
Proof.
  intros t r t' H. unfold Transport_outgoing in H.
  destruct (lower_send (mLower t) m). inversion H; subst.
  exists []. simpl. now rewrite app_nil_r.
Qed.

Lemma state_nothrow : nothrow (state (L:=L) (E:=E)).
Proof. unfold state. nothrow_tac. Qed.

Lemma recv_nothrow m : nothrow (recv (L:=L) (E:=E) m).
Proof. unfold recv. nothrow_tac. Qed.

Lemma changeState_nothrow s : nothrow (changeState (L:=L) (E:=E) s).
Proof. unfold changeState. nothrow_tac. Qed.

Lemma state_keeps (R : T -> T -> Prop) `{!PreOrder R} : keeps R state.
Proof. unfold state. now apply keeps_gets. Qed.

Lemma postHandshake_keeps (R : T -> T -> Prop) `{!PreOrder R} :
  keeps R postHandshake.
Proof. unfold postHandshake. now apply keeps_ret. Qed.

End BaseFrames.

#[export] Hint Resolve recv_sched_eq recv_state_eq recv_no_eos recv_push_frame
  changeState_sched_eq changeState_no_eos changeState_push_frame
  Transport_outgoing_sched_eq Transport_outgoing_state_eq
  Transport_outgoing_no_eos state_keeps postHandshake_keeps : keeps.
#[export] Hint Resolve state_nothrow recv_nothrow changeState_nothrow : nothrow.
#[export] Hint Resolve sched_eq_preorder state_eq_preorder no_eos_preorder
  push_frame_preorder : keeps.

Lemma size_gtb_false (m : binary) : (size m >? 0) = false -> m = [].
Proof.
  destruct m; [reflexivity|]. unfold size. simpl List.length.
  rewrite Nat2Z.inj_succ, Z.gtb_ltb, Z.ltb_ge. lia.
Qed.

Lemma size_gtb_true (m : binary) : (size m >? 0) = true -> m <> [].
Proof. intros H ->. discriminate. Qed.

Section FrameInstances.
Context {L E : Type}.

#[export] Instance sched_eq_frame : CallbackFrame (@sched_eq L E).
Proof. split; try typeclasses eauto; intros; unfold sched_eq; simpl; auto. Qed.

#[export] Instance state_eq_frame : CallbackFrame (@state_eq L E).
Proof. split; try typeclasses eauto; intros; unfold state_eq; simpl; auto. Qed.

#[export] Instance no_eos_frame : CallbackFrame (@no_eos L E).
Proof.
  split; try typeclasses eauto; intros; unfold no_eos; simpl;
    try (exists []; simpl; now rewrite app_nil_r).
  exists [m]. reflexivity.
Qed.

#[export] Instance push_frame_frame : CallbackFrame (@push_frame L E).
Proof.
  split; try typeclasses eauto; intros; unfold push_frame; simpl;
    try (split; [exists []; now rewrite app_nil_r|intros; reflexivity]);
    (split; [exists [m]; reflexivity|]); intro K;
    apply app_same_nil in K; discriminate.
Qed.

End FrameInstances.

(** Closes the goals [R s (f s)] of field updates from the fields of a
    [CallbackFrame]. *)
Ltac solve_frame :=
  intros;
  try match goal with |- context [Queue_pop ?q] => destruct (Queue_pop q) end;
  cbn [snd fst];
  first [ reflexivity | apply cf_queue | apply cf_message | apply cf_position
        | apply cf_engine | apply cf_recv | apply cf_push | apply cf_result ].

Section SharedFrames.
Context {L : Type} {lower : LowerTransport L} {E : Type}.
Context (R : TlsTransport L E -> TlsTransport L E -> Prop) {frame : CallbackFrame R}.

Lemma recv_keeps m : keeps R (recv (Some m)).
Proof. unfold recv. keeps_with solve_frame. Qed.

Lemma Transport_outgoing_keeps m : keeps R (Transport_outgoing m).
Proof.
  intros t r t' H. unfold Transport_outgoing in H.
  destruct (lower_send (mLower t) m). inversion H; subst. apply cf_push.
Qed.

End SharedFrames.

#[export] Hint Resolve recv_keeps Transport_outgoing_keeps : keeps.

(** ** The GnuTLS variant: callbacks and engine calls *)

Section GnuFacts.
Context {L : Type} {lower : LowerTransport L} {Session : Type}
  {gnutls : GnuTLS Session}.
Local Abbreviation T := (TlsTransport L Session).

Lemma Gnu_ReadCallback_next_eq n (t : T) :
  (List.length (items (mIncomingQueue t)) < n)%nat ->
  Gnu.ReadCallback_next n t = Some (Ok tt, after_next t).
Proof.
  revert t. induction n as [|n IH]; intros t Hn; [lia|].
  destruct t as [l st nt dl ps rg ow pl ct [q stp] msg pos ores e].
  simpl in Hn. destruct q as [|m q].
  - reflexivity.
  - cbn [Gnu.ReadCallback_next]. unfold bind, lift, modify, recv, ret, after_next.
    cbn. destruct (size m >? 0) eqn:Hm.
    + reflexivity.
    + rewrite IH by (simpl in *; lia). reflexivity.
Qed.

Lemma Gnu_ReadCallback_eq maxlen (t : T) :
  Gnu.ReadCallback maxlen t =
  Some (Ok (fst (Gnu_pull maxlen t)), snd (Gnu_pull maxlen t)).
Proof.
  unfold Gnu.ReadCallback, Gnu_pull, try_catch, refill, drop_exhausted.
  unfold bind at 1. unfold gets at 1. unfold bind at 1. unfold gets at 1.
  unfold bind at 1.
  destruct (mIncomingMessage t) as [m|] eqn:Em.
  - destruct (mIncomingMessagePosition t >=? size m) eqn:Ep.
    + unfold modify at 1. unfold bind at 1. unfold gets at 1.
      cbn [mIncomingMessage set_mIncomingMessage].
      unfold bind at 1. unfold bind at 1. unfold modify at 1.
      unfold bind at 1. unfold gets at 1.
      rewrite Gnu_ReadCallback_next_eq by (simpl; lia).
      unfold bind, gets, modify, ret.
      destruct (mIncomingMessage (after_next _)); [reflexivity|].
      destruct (Queue_running _); reflexivity.
    + unfold ret at 1. unfold bind at 1. unfold gets at 1. rewrite Em.
      unfold bind, gets, modify, ret. rewrite Em. reflexivity.
  - unfold ret at 1. unfold bind at 1. unfold gets at 1. rewrite Em.
    unfold bind at 1. unfold bind at 1. unfold modify at 1.
    unfold bind at 1. unfold gets at 1.
    rewrite Gnu_ReadCallback_next_eq by (simpl; lia).
    unfold bind, gets, modify, ret.
    destruct (mIncomingMessage (after_next _)); [reflexivity|].
    destruct (Queue_running _); reflexivity.
Qed.

Lemma Gnu_WriteCallback_total data : total (Gnu.WriteCallback data).
Proof.
  intro t. unfold Gnu.WriteCallback, Gnu.outgoing, Transport_outgoing.
  run_red.
  destruct (size data >? 0); [|do 2 eexists; reflexivity].
  destruct (lower_send (mLower t) (Some data)) as [[b|e] l];
    do 2 eexists; reflexivity.
Qed.

Lemma Gnu_TimeoutCallback_total ms :
  total (Gnu.TimeoutCallback (L:=L) (Session:=Session) ms).
Proof.
  intro t. unfold Gnu.TimeoutCallback, try_catch, bind, gets, ret.
  destruct (mIncomingMessage t) as [m|];
    [destruct (mIncomingMessagePosition t <? size m)|];
    do 2 eexists; reflexivity.
Qed.

Lemma Gnu_callback_total c : total (Gnu.callback c).
Proof.
  destruct c; simpl.
  - apply Gnu_WriteCallback_total.
  - intro t. rewrite Gnu_ReadCallback_eq. do 2 eexists; reflexivity.
  - apply Gnu_TimeoutCallback_total.
Qed.

Lemma Gnu_run_total (A : Type) (e : engine gnutls_answer A) : total (Gnu.run e).
Proof.
  induction e as [r|c k IH]; intro t; cbn [Gnu.run].
  - unfold ret. do 2 eexists; reflexivity.
  - destruct (Gnu_callback_total c t) as (x & t1 & Hc).
    erewrite bind_Ok by exact Hc. apply IH.
Qed.

Lemma Gnu_call_total (A : Type)
  (f : Session -> engine gnutls_answer (A * Session)) : total (Gnu.call f).
Proof.
  intro t. unfold Gnu.call. unfold bind at 1. unfold gets at 1.
  destruct (Gnu_run_total (f (mEngine t)) t) as (x & t1 & Hr).
  erewrite bind_Ok by exact Hr. unfold bind, modify, ret.
  do 2 eexists; reflexivity.
Qed.

Section Frame.
Context (R : T -> T -> Prop) {frame : CallbackFrame R}.

Lemma Gnu_outgoing_keeps m : keeps R (Gnu.outgoing m).
Proof.
  intros t r t' H. unfold Gnu.outgoing, Transport_outgoing, bind, modify, ret in H.
  destruct (lower_send (mLower t) m) as [[b|e] l]; inversion H; subst.
  - apply cf_result.
  - apply cf_push.
Qed.

Lemma Gnu_WriteCallback_keeps data : keeps R (Gnu.WriteCallback data).
Proof.
  pose proof Gnu_outgoing_keeps.
  unfold Gnu.WriteCallback. keeps_with solve_frame.
Qed.

Lemma Gnu_ReadCallback_next_keeps n : keeps R (Gnu.ReadCallback_next n).
Proof.
  induction n as [|n IH]; cbn [Gnu.ReadCallback_next];
    keeps_with solve_frame.
Qed.

Lemma Gnu_ReadCallback_keeps maxlen : keeps R (Gnu.ReadCallback maxlen).
Proof.
  pose proof Gnu_ReadCallback_next_keeps.
  unfold Gnu.ReadCallback. keeps_with solve_frame.
Qed.

Lemma Gnu_TimeoutCallback_keeps ms : keeps R (Gnu.TimeoutCallback ms).
Proof. unfold Gnu.TimeoutCallback. keeps_with solve_frame. Qed.

Lemma Gnu_callback_keeps c : keeps R (Gnu.callback c).
Proof.
  destruct c; simpl;
    auto using Gnu_WriteCallback_keeps, Gnu_ReadCallback_keeps,
      Gnu_TimeoutCallback_keeps.
Qed.

Lemma Gnu_run_keeps (A : Type) (e : engine gnutls_answer A) :
  keeps R (Gnu.run e).
Proof.
  pose proof Gnu_callback_keeps.
  induction e as [r|c k IH]; cbn [Gnu.run]; keeps_with solve_frame.
Qed.

Lemma Gnu_call_keeps (A : Type) (f : Session -> engine gnutls_answer (A * Session)) :
  keeps R (Gnu.call f).
Proof.
  pose proof Gnu_run_keeps.
  unfold Gnu.call. keeps_with solve_frame.
Qed.

Lemma Gnu_send_loop_keeps fuel m : keeps R (Gnu.send_loop fuel m).
Proof.
  pose proof Gnu_call_keeps.
  induction fuel as [|fuel IH]; cbn [Gnu.send_loop]; keeps_with solve_frame.
Qed.

Lemma Gnu_doRecv_handshake_keeps fuel : keeps R (Gnu.doRecv_handshake fuel).
Proof.
  pose proof Gnu_call_keeps.
  induction fuel as [|fuel IH]; cbn [Gnu.doRecv_handshake];
    keeps_with solve_frame.
Qed.

Lemma Gnu_doRecv_records_keeps fuel : keeps R (Gnu.doRecv_records fuel).
Proof.
  pose proof Gnu_call_keeps.
  induction fuel as [|fuel IH]; cbn [Gnu.doRecv_records];
    keeps_with solve_frame.
Qed.

Lemma Gnu_doRecv_try_keeps fuel :
  keeps R (changeState Connected) -> keeps R (Gnu.doRecv_try fuel).
Proof.
  intro Hc.
  pose proof Gnu_doRecv_handshake_keeps. pose proof Gnu_doRecv_records_keeps.
  unfold Gnu.doRecv_try. keeps_with solve_frame.
Qed.

Lemma Gnu_send_keeps fuel m : keeps R (Gnu.send fuel m).
Proof.
  pose proof Gnu_send_loop_keeps. pose proof Gnu_outgoing_keeps.
  unfold Gnu.send. keeps_with solve_frame.
Qed.

End Frame.
End GnuFacts.

(** ** The MbedTLS variant: callbacks and engine calls *)

Section MbedFacts.
Context {L : Type} {lower : LowerTransport L} {Ssl : Type}
  {mbedtls : MbedTLS Ssl}.
Local Abbreviation T := (TlsTransport L Ssl).

Lemma Mbed_ReadCallback_next_eq n (t : T) :
  (List.length (items (mIncomingQueue t)) < n)%nat ->
  Mbed.ReadCallback_next n t = Some (Ok tt, after_next t).
Proof.
  revert t. induction n as [|n IH]; intros t Hn; [lia|].
  destruct t as [l st nt dl ps rg ow pl ct [q stp] msg pos ores e].
  simpl in Hn. destruct q as [|m q].
  - reflexivity.
  - cbn [Mbed.ReadCallback_next]. unfold bind, lift, modify, recv, ret, after_next.
    cbn. destruct (size m >? 0) eqn:Hm.
    + reflexivity.
    + rewrite IH by (simpl in *; lia). reflexivity.
Qed.

Lemma Mbed_ReadCallback_eq len (t : T) :
  Mbed.ReadCallback len t =
  Some (Ok (fst (Mbed_pull len t)), snd (Mbed_pull len t)).
Proof.
  unfold Mbed.ReadCallback, Mbed_pull, try_catch, refill, drop_exhausted.
  unfold bind at 1. unfold gets at 1. unfold bind at 1. unfold gets at 1.
  unfold bind at 1.
  destruct (mIncomingMessage t) as [m|] eqn:Em.
  - destruct (mIncomingMessagePosition t >=? size m) eqn:Ep.
    + unfold modify at 1. unfold bind at 1. unfold gets at 1.
      cbn [mIncomingMessage set_mIncomingMessage].
      unfold bind at 1. unfold bind at 1. unfold modify at 1.
      unfold bind at 1. unfold gets at 1.
      rewrite Mbed_ReadCallback_next_eq by (simpl; lia).
      unfold bind, gets, modify, ret.
      destruct (mIncomingMessage (after_next _)); [reflexivity|].
      destruct (Queue_running _); reflexivity.
    + unfold ret at 1. unfold bind at 1. unfold gets at 1. rewrite Em.
      unfold bind, gets, modify, ret. rewrite Em. reflexivity.
  - unfold ret at 1. unfold bind at 1. unfold gets at 1. rewrite Em.
    unfold bind at 1. unfold bind at 1. unfold modify at 1.
    unfold bind at 1. unfold gets at 1.
    rewrite Mbed_ReadCallback_next_eq by (simpl; lia).
    unfold bind, gets, modify, ret.
    destruct (mIncomingMessage (after_next _)); [reflexivity|].
    destruct (Queue_running _); reflexivity.
Qed.

Section Frame.
Context (R : T -> T -> Prop) {frame : CallbackFrame R}.

Lemma Mbed_outgoing_keeps m : keeps R (Mbed.outgoing m).
Proof.
  intros t r t' H. unfold Mbed.outgoing, Transport_outgoing, bind, modify, ret in H.
  destruct (lower_send (mLower t) m) as [[b|e] l]; inversion H; subst.
  - apply cf_result.
  - apply cf_push.
Qed.

Lemma Mbed_WriteCallback_keeps buf : keeps R (Mbed.WriteCallback buf).
Proof.
  pose proof Mbed_outgoing_keeps.
  unfold Mbed.WriteCallback. keeps_with solve_frame.
Qed.

Lemma Mbed_ReadCallback_next_keeps n : keeps R (Mbed.ReadCallback_next n).
Proof.
  induction n as [|n IH]; cbn [Mbed.ReadCallback_next];
    keeps_with solve_frame.
Qed.

Lemma Mbed_ReadCallback_keeps len : keeps R (Mbed.ReadCallback len).
Proof.
  pose proof Mbed_ReadCallback_next_keeps.
  unfold Mbed.ReadCallback. keeps_with solve_frame.
Qed.

Lemma Mbed_callback_keeps c : keeps R (Mbed.callback c).
Proof.
  destruct c; simpl;
    auto using Mbed_WriteCallback_keeps, Mbed_ReadCallback_keeps.
Qed.

Lemma Mbed_run_keeps (A : Type) (e : engine mbedtls_answer A) :
  keeps R (Mbed.run e).
Proof.
  pose proof Mbed_callback_keeps.
  induction e as [r|c k IH]; cbn [Mbed.run]; keeps_with solve_frame.
Qed.

Lemma Mbed_call_keeps (A : Type) (f : Ssl -> engine mbedtls_answer (A * Ssl)) :
  keeps R (Mbed.call f).
Proof.
  pose proof Mbed_run_keeps.
  unfold Mbed.call. keeps_with solve_frame.
Qed.

Lemma Mbed_doRecv_handshake_keeps fuel :
  keeps R (changeState Connected) -> keeps R (Mbed.doRecv_handshake fuel).
Proof.
  intro Hc. pose proof Mbed_call_keeps.
  induction fuel as [|fuel IH]; cbn [Mbed.doRecv_handshake];
    keeps_with solve_frame.
Qed.

Lemma Mbed_doRecv_records_keeps fuel : keeps R (Mbed.doRecv_records fuel).
Proof.
  pose proof Mbed_call_keeps.
  induction fuel as [|fuel IH]; cbn [Mbed.doRecv_records];
    keeps_with solve_frame.
Qed.

Lemma Mbed_doRecv_try_keeps fuel :
  keeps R (changeState Connected) -> keeps R (Mbed.doRecv_try fuel).
Proof.
  intro Hc.
  pose proof (Mbed_doRecv_handshake_keeps fuel Hc).
  pose proof Mbed_doRecv_records_keeps.
  unfold Mbed.doRecv_try. keeps_with solve_frame.
Qed.

Lemma Mbed_send_keeps m : keeps R (Mbed.send m).
Proof.
  pose proof Mbed_call_keeps. pose proof Mbed_outgoing_keeps.
  unfold Mbed.send. keeps_with solve_frame.
Qed.

End Frame.
End MbedFacts.

(** ** The OpenSSL variant: engine calls *)

Section OsslFacts.
Context {L : Type} {lower : LowerTransport L} {Ssl : Type}
  {openssl : OpenSSL Ssl}.
Local Abbreviation T := (TlsTransport L (ssl_fields Ssl)).

Section Frame.
Context (R : T -> T -> Prop) {frame : CallbackFrame R}.

Lemma Ossl_InfoCallbacks_keeps l : keeps R (Ossl.InfoCallbacks l).
Proof.
  induction l as [|c l IH]; cbn [Ossl.InfoCallbacks]; unfold Ossl.InfoCallback;
    keeps_with solve_frame.
Qed.

Lemma Ossl_call_keeps f : keeps R (Ossl.call f).
Proof.
  pose proof Ossl_InfoCallbacks_keeps.
  unfold Ossl.call. keeps_with solve_frame.
Qed.

Lemma Ossl_check_keeps r : keeps R (Ossl.check r).
Proof. unfold Ossl.check. keeps_with solve_frame. Qed.

Lemma Ossl_flushOutput_loop_keeps n result :
  keeps R (Ossl.flushOutput_loop n result).
Proof.
  revert result. induction n as [|n IH]; intro result;
    cbn [Ossl.flushOutput_loop]; unfold Ossl.outgoing; keeps_with solve_frame.
Qed.

Lemma Ossl_flushOutput_keeps : keeps R Ossl.flushOutput.
Proof.
  pose proof Ossl_flushOutput_loop_keeps.
  unfold Ossl.flushOutput. keeps_with solve_frame.
Qed.

Lemma Ossl_doRecv_input_keeps message : keeps R (Ossl.doRecv_input message).
Proof. unfold Ossl.doRecv_input. keeps_with solve_frame. Qed.

Lemma Ossl_doRecv_read_keeps fuel : keeps R (Ossl.doRecv_read fuel).
Proof.
  pose proof Ossl_call_keeps.
  induction fuel as [|fuel IH]; cbn [Ossl.doRecv_read]; keeps_with solve_frame.
Qed.

Lemma Ossl_doRecv_loop_keeps fuel :
  keeps R (changeState Connected) -> keeps R (Ossl.doRecv_loop fuel).
Proof.
  intro Hc.
  pose proof Ossl_call_keeps. pose proof Ossl_check_keeps.
  pose proof Ossl_flushOutput_keeps. pose proof Ossl_doRecv_input_keeps.
  pose proof Ossl_doRecv_read_keeps.
  induction fuel as [|fuel IH]; cbn [Ossl.doRecv_loop]; keeps_with solve_frame.
Qed.

Lemma Ossl_doRecv_try_keeps fuel :
  keeps R (changeState Connected) -> keeps R (Ossl.doRecv_try fuel).
Proof.
  intro Hc. pose proof (Ossl_doRecv_loop_keeps fuel Hc).
  unfold Ossl.doRecv_try. keeps_with solve_frame.
Qed.

Lemma Ossl_send_keeps m : keeps R (Ossl.send m).
Proof.
  pose proof Ossl_call_keeps. pose proof Ossl_check_keeps.
  pose proof Ossl_flushOutput_keeps.
  unfold Ossl.send, Ossl.outgoing. keeps_with solve_frame.
Qed.

End Frame.
End OsslFacts.

(** ** Sending *)

Lemma State_eqb_refl s : State_eqb s s = true.
Proof. unfold State_eqb. destruct (State_eq_dec s s); congruence. Qed.

Lemma State_eqb_neq s s' : s <> s' -> State_eqb s s' = false.
Proof. unfold State_eqb. destruct (State_eq_dec s s'); congruence. Qed.

Lemma State_eqb_eq s s' : State_eqb s s' = true -> s = s'.
Proof. unfold State_eqb. destruct (State_eq_dec s s'); congruence. Qed.

(** C3.  In each of the three variants, [send] called in a state other
    than [Connected] throws "TLS is not open" whatever the message, and
    leaves every field of the instance as it was: the engine is not
    called and nothing is handed to the lower transport. *)
Theorem send_outside_Connected_throws :
  (forall (L : Type) (lower : LowerTransport L) (Session : Type)
          (gnutls : GnuTLS Session) (fuel : nat) (message : message_ptr)
          (t : TlsTransport L Session),
      mState t <> Connected ->
      Gnu.send fuel message t = Some (Throw "TLS is not open"%string, t)) /\
  (forall (L : Type) (lower : LowerTransport L) (Ssl : Type)
          (mbedtls : MbedTLS Ssl) (message : message_ptr)
          (t : TlsTransport L Ssl),
      mState t <> Connected ->
      Mbed.send message t = Some (Throw "TLS is not open"%string, t)) /\
  (forall (L : Type) (lower : LowerTransport L) (Ssl : Type)
          (openssl : OpenSSL Ssl) (message : message_ptr)
          (t : TlsTransport L (ssl_fields Ssl)),
      mState t <> Connected ->
      Ossl.send message t = Some (Throw "TLS is not open"%string, t)).
Proof.
  repeat split; intros.
  - unfold Gnu.send, state. run_red.
    now rewrite State_eqb_neq.
  - unfold Mbed.send, state. run_red.
    now rewrite State_eqb_neq.
  - unfold Ossl.send, state. run_red.
    now rewrite State_eqb_neq.
Qed.

Lemma send_outside_Connected_throws_witness :
  let g : TlsTransport (list (outcome bool)) (Sample.script gnutls_answer) :=
    set_mState Connecting (fresh [] []) in
  let m : TlsTransport (list (outcome bool)) (Sample.script mbedtls_answer) :=
    set_mState Failed (fresh [] []) in
  let o : TlsTransport (list (outcome bool)) (ssl_fields Sample.ssl_script) :=
    fresh [] (mkSsl (false, []) [] []) in
  Gnu.send 3 (Some [x01; x02]) g = Some (Throw "TLS is not open"%string, g) /\
  Mbed.send (Some [x01; x02]) m = Some (Throw "TLS is not open"%string, m) /\
  Ossl.send None o = Some (Throw "TLS is not open"%string, o).
Proof.
  intros g m o.
  destruct send_outside_Connected_throws as (G & B & O).
  split; [|split]; [apply G|apply B|apply O]; simpl; discriminate.
Defined.

Lemma size_eqb_false (m : binary) : m <> [] -> (size m =? 0) = false.
Proof.
  intro H. destruct m; [congruence|]. unfold size. simpl List.length.
  rewrite Nat2Z.inj_succ. apply Z.eqb_neq. lia.
Qed.

Lemma Gnu_send_result (L : Type) (lower : LowerTransport L) (Session : Type)
  (gnutls : GnuTLS Session) (fuel : nat) (m : binary)
  (t : TlsTransport L Session) (b : bool) (t' : TlsTransport L Session) :
  mState t = Connected -> m <> [] ->
  Gnu.send fuel (Some m) t = Some (Ok b, t') ->
  b = mOutgoingResult t' /\ (pushed t' = pushed t -> b = mOutgoingResult t).
Proof.
  intros Hs Hm H. unfold Gnu.send in H.
  unfold state in H. unfold bind at 1 in H. unfold gets at 1 in H.
  rewrite Hs, State_eqb_refl in H. cbn [negb] in H.
  rewrite (size_eqb_false Hm) in H.
  apply bind_Some in H.
  destruct H as [(r & t1 & H1 & H)|(e & _ & ?)]; [|discriminate].
  apply bind_Some in H.
  destruct H as [(ok & t2 & H2 & H)|(e & _ & ?)]; [|discriminate].
  unfold check_result in H2.
  destruct ok; cbn [negb] in H; [|discriminate].
  unfold gets in H. inversion H; subst. inversion H2; subst.
  split; [reflexivity|].
  assert (F : push_frame t t')
    by (eapply Gnu_send_loop_keeps; [typeclasses eauto|exact H1]).
  destruct F as [_ K]. auto.
Qed.

Lemma Mbed_send_result (L : Type) (lower : LowerTransport L) (Ssl : Type)
  (mbedtls : MbedTLS Ssl) (m : binary)
  (t : TlsTransport L Ssl) (b : bool) (t' : TlsTransport L Ssl) :
  mState t = Connected -> m <> [] ->
  Mbed.send (Some m) t = Some (Ok b, t') ->
  b = mOutgoingResult t' /\ (pushed t' = pushed t -> b = mOutgoingResult t).
Proof.
  intros Hs Hm H. unfold Mbed.send in H.
  unfold state in H. unfold bind at 1 in H. unfold gets at 1 in H.
  rewrite Hs, State_eqb_refl in H. cbn [negb] in H.
  rewrite (size_eqb_false Hm) in H.
  apply bind_Some in H.
  destruct H as [(r & t1 & H1 & H)|(e & _ & ?)]; [|discriminate].
  apply bind_Some in H.
  destruct H as [(ok & t2 & H2 & H)|(e & _ & ?)]; [|discriminate].
  unfold check_result in H2.
  unfold gets in H. inversion H; subst. inversion H2; subst.
  split; [reflexivity|].
  assert (F : push_frame t t')
    by (eapply Mbed_call_keeps; [typeclasses eauto|exact H1]).
  destruct F as [_ K]. auto.
Qed.

(** C10.  In the GnuTLS and MbedTLS variants, a [send] of a non-empty
    message in state [Connected] that returns (the record write did not
    fail) returns the stored [mOutgoingResult]; that field is written by
    [outgoing] alone, with the boolean of the push it makes; and when
    the engine pushed nothing during this [send], the value returned is
    the one stored before the call, by an earlier push. *)
Theorem send_returns_stored_result :
  (forall (L : Type) (lower : LowerTransport L) (Session : Type)
          (gnutls : GnuTLS Session) (fuel : nat) (m : binary)
          (t : TlsTransport L Session) (b : bool) (t' : TlsTransport L Session),
      mState t = Connected -> m <> [] ->
      Gnu.send fuel (Some m) t = Some (Ok b, t') ->
      b = mOutgoingResult t' /\
      (pushed t' = pushed t -> b = mOutgoingResult t)) /\
  (forall (L : Type) (lower : LowerTransport L) (Ssl : Type)
          (mbedtls : MbedTLS Ssl) (m : binary)
          (t : TlsTransport L Ssl) (b : bool) (t' : TlsTransport L Ssl),
      mState t = Connected -> m <> [] ->
      Mbed.send (Some m) t = Some (Ok b, t') ->
      b = mOutgoingResult t' /\
      (pushed t' = pushed t -> b = mOutgoingResult t)) /\
  (forall (L : Type) (lower : LowerTransport L) (Session : Type)
          (message : message_ptr) (t : TlsTransport L Session) (r : bool)
          (t' : TlsTransport L Session),
      Gnu.outgoing message t = Some (Ok r, t') ->
      mOutgoingResult t' = r /\ pushed t' = pushed t ++ [message]) /\
  (forall (L : Type) (lower : LowerTransport L) (Ssl : Type)
          (message : message_ptr) (t : TlsTransport L Ssl) (r : bool)
          (t' : TlsTransport L Ssl),
      Mbed.outgoing message t = Some (Ok r, t') ->
      mOutgoingResult t' = r /\ pushed t' = pushed t ++ [message]).
Proof.
  split; [|split; [|split]].
  - intros. eapply Gnu_send_result; eassumption.
  - intros. eapply Mbed_send_result; eassumption.
  - intros L lower Session message t r t' H.
    unfold Gnu.outgoing, Transport_outgoing in H. revert H. run_red.
    destruct (lower_send (mLower t) message) as [[b|e] l]; intro H;
      inversion H; subst; split; reflexivity.
  - intros L lower Ssl message t r t' H.
    unfold Mbed.outgoing, Transport_outgoing in H. revert H. run_red.
    destruct (lower_send (mLower t) message) as [[b|e] l]; intro H;
      inversion H; subst; split; reflexivity.
Qed.

Lemma send_returns_stored_result_witness :
  exists t1 t2,
    Gnu.send 2 (Some [x01]) corked_gnutls = Some (Ok false, t1) /\
    Gnu.send 2 (Some [x02]) t1 = Some (Ok false, t2) /\
    pushed t2 = pushed t1 /\
    false = mOutgoingResult t1 /\
    lower_send (mLower t1) (Some [x02]) = (Ok true, []).
Proof.
  destruct send_returns_stored_result as (G & _).
  do 2 eexists.
  split; [vm_compute; reflexivity|].
  split; [vm_compute; reflexivity|].
  split; [reflexivity|].
  split; [|reflexivity].
  refine (proj2 (G _ _ _ _ 2%nat [x02] _ false _ _ _ _) _);
    [reflexivity|discriminate|vm_compute; reflexivity|reflexivity].
Defined.

(** ** Scheduling *)

Section Scheduling.
Context {L E : Type}.
Local Abbreviation T := (TlsTransport L E).

#[export] Instance coalescing_preorder : PreOrder (@coalescing L E).
Proof. split; unfold coalescing; auto. Qed.

Lemma sched_eq_coalescing (t t' : T) : sched_eq t t' -> coalescing t t'.
Proof.
  intros (H1 & H2 & _) [H3 H4]. unfold coalesced. rewrite H1, H2. auto.
Qed.

Lemma keeps_sched_eq_coalescing (A : Type) (m : M T A) :
  keeps sched_eq m -> keeps coalescing m.
Proof. intros H t r t' Hm. apply sched_eq_coalescing. eapply H; eassumption. Qed.

Lemma enqueueRecv_no_op (t : T) :
  mPendingRecvCount t > 0 -> enqueueRecv t = Some (Ok tt, t).
Proof.
  intro H. unfold enqueueRecv. run_red.
  destruct (mPendingRecvCount t >? 0) eqn:Hg; [reflexivity|].
  rewrite Z.gtb_ltb, Z.ltb_ge in Hg. lia.
Qed.

Lemma enqueueRecv_edge (t : T) :
  mPendingRecvCount t = 0 -> owned t = true ->
  enqueueRecv t = Some (Ok tt, set_pool (S (pool t)) (set_mPendingRecvCount 1 t)).
Proof.
  intros H Ho. unfold enqueueRecv. run_red. rewrite H.
  change (0 >? 0) with false. cbv beta iota. rewrite Ho, H. reflexivity.
Qed.

Lemma enqueueRecv_unowned (t : T) :
  mPendingRecvCount t <= 0 -> owned t = false ->
  enqueueRecv t = Some (Ok tt, t).
Proof.
  intros H Ho. unfold enqueueRecv. run_red.
  destruct (mPendingRecvCount t >? 0); [reflexivity|].
  cbv beta. now rewrite Ho.
Qed.

Lemma enqueueRecv_coalescing : keeps coalescing (enqueueRecv (L:=L) (E:=E)).
Proof.
  intros t r t' H [Hc Hp].
  destruct (Z_gt_le_dec (mPendingRecvCount t) 0) as [G|G].
  - rewrite (enqueueRecv_no_op t G) in H. inversion H; subst. split; assumption.
  - assert (Hz : mPendingRecvCount t = 0) by lia.
    assert (Hq : pool t = O) by lia.
    destruct (owned t) eqn:Ho.
    + rewrite (enqueueRecv_edge t Hz Ho) in H. inversion H; subst.
      unfold coalesced. simpl. rewrite Hq. split; [reflexivity|lia].
    + rewrite (enqueueRecv_unowned t G Ho) in H. inversion H; subst.
      split; assumption.
Qed.

Lemma enqueueRecv_state_eq : keeps state_eq (enqueueRecv (L:=L) (E:=E)).
Proof. unfold enqueueRecv. keeps_with ltac:(unfold state_eq; simpl; auto). Qed.

Lemma enqueueRecv_no_eos : keeps no_eos (enqueueRecv (L:=L) (E:=E)).
Proof.
  unfold enqueueRecv.
  keeps_with ltac:(exists []; simpl; now rewrite app_nil_r).
Qed.

Lemma doRecv_resolve_sched_eq : keeps sched_eq (doRecv_resolve (L:=L) (E:=E)).
Proof. unfold doRecv_resolve. keeps_with solve_frame. Qed.

Lemma entered_sched_dec (A : Type) (X : M T A) (t : T) r t' :
  keeps sched_eq X ->
  (doRecv_enter;; X) t = Some (r, t') -> sched_dec t t'.
Proof.
  intros HX H. unfold doRecv_enter in H. unfold bind at 1 in H.
  unfold modify at 1 in H. apply HX in H. destruct H as (H1 & H2 & H3).
  unfold sched_dec. rewrite H1, H2, H3. simpl. auto.
Qed.

Lemma sched_dec_eq (t t1 t' : T) : sched_dec t t1 -> sched_eq t1 t' -> sched_dec t t'.
Proof.
  intros (H1 & H2 & H3) (H4 & H5 & H6). unfold sched_dec.
  rewrite H4, H5, H6. auto.
Qed.

(** What follows [doRecv_run] in each variant's [doRecv]. *)
Lemma resolve_sched_dec (run : M T flow) (t : T) r t' :
  (forall s r1 s1, run s = Some (r1, s1) -> sched_dec s s1) ->
  (f <- run;; match f with Returned => ret tt | Fell => doRecv_resolve end) t
    = Some (r, t') ->
  sched_dec t t'.
Proof.
  intros Hrun H. apply bind_Some in H.
  destruct H as [(f & t1 & H1 & H)|(e & H1 & _)].
  - eapply sched_dec_eq; [eapply Hrun; eassumption|].
    destruct f.
    + inversion H; subst. reflexivity.
    + eapply doRecv_resolve_sched_eq; eassumption.
  - eapply Hrun; eassumption.
Qed.

Lemma run_task_coalescing (doRecv : M T unit) :
  (forall s r s1, doRecv s = Some (r, s1) -> sched_dec s s1) ->
  keeps coalescing (run_task doRecv).
Proof.
  intros Hd t r t' H [Hc Hp]. unfold run_task in H.
  destruct (pool t) as [|n] eqn:Hn.
  - inversion H; subst. split; [now rewrite Hn|lia].
  - apply Hd in H. destruct H as (H1 & H2 & _). simpl in H1, H2.
    unfold coalesced. rewrite H1, H2, Hc. split; lia.
Qed.

Lemma life_keeps (S : Type) (R : S -> S -> Prop) `{!PreOrder R}
  (step : op -> M S unit) :
  (forall o, keeps R (step o)) ->
  forall ops s s', life step ops s = Some s' -> R s s'.
Proof.
  intros Hstep ops. induction ops as [|o ops IH]; intros s s' H; simpl in H.
  - inversion H; subst. reflexivity.
  - destruct (step o s) as [[r s1]|] eqn:Ho; [|discriminate].
    etransitivity; [eapply Hstep; eassumption|eapply IH; eassumption].
Qed.

Lemma stop_coalescing : keeps coalescing (stop (L:=L) (E:=E)).
Proof.
  pose proof enqueueRecv_coalescing.
  unfold stop, unregisterIncoming.
  keeps_with ltac:(apply sched_eq_coalescing; unfold sched_eq; simpl; auto).
Qed.

Lemma incoming_coalescing m : keeps coalescing (incoming (L:=L) (E:=E) m).
Proof.
  pose proof enqueueRecv_coalescing.
  unfold incoming.
  keeps_with ltac:(apply sched_eq_coalescing; unfold sched_eq; simpl; auto).
Qed.

End Scheduling.

Lemma Gnu_doRecv_sched_dec (L : Type) (lower : LowerTransport L) (Session : Type)
  (gnutls : GnuTLS Session) (fuel : nat) (t : TlsTransport L Session) r t' :
  Gnu.doRecv fuel t = Some (r, t') -> sched_dec t t'.
Proof.
  apply resolve_sched_dec. intros s r1 s1. unfold Gnu.doRecv_run.
  apply entered_sched_dec.
  pose proof (Gnu_doRecv_try_keeps (R:=sched_eq) fuel (changeState_sched_eq (s:=Connected))).
  pose proof (Gnu_call_keeps (R:=sched_eq)).
  keeps_with solve_frame.
Qed.

Lemma Mbed_doRecv_sched_dec (L : Type) (lower : LowerTransport L) (Ssl : Type)
  (mbedtls : MbedTLS Ssl) (fuel : nat) (t : TlsTransport L Ssl) r t' :
  Mbed.doRecv fuel t = Some (r, t') -> sched_dec t t'.
Proof.
  apply resolve_sched_dec. intros s r1 s1. unfold Mbed.doRecv_run.
  apply entered_sched_dec.
  pose proof (Mbed_doRecv_try_keeps (R:=sched_eq) fuel (changeState_sched_eq (s:=Connected))).
  keeps_with solve_frame.
Qed.

Lemma Ossl_doRecv_sched_dec (L : Type) (lower : LowerTransport L) (Ssl : Type)
  (openssl : OpenSSL Ssl) (fuel : nat) (t : TlsTransport L (ssl_fields Ssl))
  r t' :
  Ossl.doRecv fuel t = Some (r, t') -> sched_dec t t'.
Proof.
  apply resolve_sched_dec. intros s r1 s1. unfold Ossl.doRecv_run.
  apply entered_sched_dec.
  pose proof (Ossl_doRecv_try_keeps (R:=sched_eq) fuel (changeState_sched_eq (s:=Connected))).
  pose proof (Ossl_call_keeps (L:=L) (Ssl:=Ssl) (R:=sched_eq)).
  keeps_with solve_frame.
Qed.

Lemma Gnu_step_coalescing (L : Type) (lower : LowerTransport L) (Session : Type)
  (gnutls : GnuTLS Session) (fuel : nat) (o : op) :
  keeps coalescing (Gnu_step (L:=L) (Session:=Session) fuel o).
Proof.
  destruct o as [| |m|m|]; cbn [Gnu_step].
  - pose proof (enqueueRecv_coalescing (L:=L) (E:=Session)).
    unfold Gnu.start, registerIncoming, changeState.
    keeps_with ltac:(apply sched_eq_coalescing; solve_sched_eq).
  - apply stop_coalescing.
  - apply keeps_sched_eq_coalescing.
    pose proof (Gnu_send_keeps (R:=sched_eq) fuel m).
    keeps_with solve_frame.
  - apply incoming_coalescing.
  - apply run_task_coalescing. intros s r s1. apply Gnu_doRecv_sched_dec.
Qed.

Lemma Mbed_step_coalescing (L : Type) (lower : LowerTransport L) (Ssl : Type)
  (mbedtls : MbedTLS Ssl) (fuel : nat) (o : op) :
  keeps coalescing (Mbed_step (L:=L) (Ssl:=Ssl) fuel o).
Proof.
  destruct o as [| |m|m|]; cbn [Mbed_step].
  - pose proof (enqueueRecv_coalescing (L:=L) (E:=Ssl)).
    unfold Mbed.start, registerIncoming, changeState.
    keeps_with ltac:(apply sched_eq_coalescing; solve_sched_eq).
  - apply stop_coalescing.
  - apply keeps_sched_eq_coalescing.
    pose proof (Mbed_send_keeps (R:=sched_eq) m).
    keeps_with solve_frame.
  - apply incoming_coalescing.
  - apply run_task_coalescing. intros s r s1. apply Mbed_doRecv_sched_dec.
Qed.

Lemma Ossl_step_coalescing (L : Type) (lower : LowerTransport L) (Ssl : Type)
  (openssl : OpenSSL Ssl) (fuel : nat) (o : op) :
  keeps coalescing (Ossl_step (L:=L) (Ssl:=Ssl) fuel o).
Proof.
  destruct o as [| |m|m|]; cbn [Ossl_step].
  - apply keeps_sched_eq_coalescing.
    pose proof (Ossl_call_keeps (L:=L) (Ssl:=Ssl) (R:=sched_eq)).
    pose proof (Ossl_check_keeps (L:=L) (Ssl:=Ssl) (R:=sched_eq)).
    pose proof (Ossl_flushOutput_keeps (L:=L) (Ssl:=Ssl) (R:=sched_eq)).
    unfold Ossl.start, registerIncoming.
    keeps_with solve_sched_eq.
  - apply stop_coalescing.
  - apply keeps_sched_eq_coalescing.
    pose proof (Ossl_send_keeps (R:=sched_eq) m).
    keeps_with solve_frame.
  - apply incoming_coalescing.
  - apply run_task_coalescing. intros s r s1. apply Ossl_doRecv_sched_dec.
Qed.

Lemma fresh_coalesced (L E : Type) (l : L) (e : E) : coalesced (fresh l e).
Proof. split; simpl; [reflexivity|lia]. Qed.

Lemma coalesced_bit (L E : Type) (t : TlsTransport L E) :
  coalesced t -> mPendingRecvCount t = 0 \/ mPendingRecvCount t = 1.
Proof. intros [H1 H2]. lia. Qed.

(** C4.  [enqueueRecv] with the counter above zero changes nothing and
    enqueues nothing; with the counter at zero and the instance owned it
    sets the counter to one and enqueues one task; every run of [doRecv],
    in each variant, leaves the counter one lower than it found it; and
    over any sequence of [start], [stop], [send], [incoming] and task
    runs on a new instance the counter is zero or one, and equal to the
    number of tasks the pool holds. *)
Theorem enqueueRecv_coalesces :
  (forall (L E : Type) (t : TlsTransport L E),
      mPendingRecvCount t > 0 -> enqueueRecv t = Some (Ok tt, t)) /\
  (forall (L E : Type) (t : TlsTransport L E),
      mPendingRecvCount t = 0 -> owned t = true ->
      enqueueRecv t =
      Some (Ok tt, set_pool (S (pool t)) (set_mPendingRecvCount 1 t))) /\
  (forall (L : Type) (lower : LowerTransport L) (Session : Type)
          (gnutls : GnuTLS Session) (fuel : nat) (t : TlsTransport L Session)
          r t',
      Gnu.doRecv fuel t = Some (r, t') ->
      mPendingRecvCount t' = mPendingRecvCount t - 1) /\
  (forall (L : Type) (lower : LowerTransport L) (Ssl : Type)
          (mbedtls : MbedTLS Ssl) (fuel : nat) (t : TlsTransport L Ssl) r t',
      Mbed.doRecv fuel t = Some (r, t') ->
      mPendingRecvCount t' = mPendingRecvCount t - 1) /\
  (forall (L : Type) (lower : LowerTransport L) (Ssl : Type)
          (openssl : OpenSSL Ssl) (fuel : nat)
          (t : TlsTransport L (ssl_fields Ssl)) r t',
      Ossl.doRecv fuel t = Some (r, t') ->
      mPendingRecvCount t' = mPendingRecvCount t - 1) /\
  (forall (L : Type) (lower : LowerTransport L) (Session : Type)
          (gnutls : GnuTLS Session) (fuel : nat) (ops : list op) (l : L)
          (e : Session) (t' : TlsTransport L Session),
      life (Gnu_step fuel) ops (fresh l e) = Some t' ->
      (mPendingRecvCount t' = 0 \/ mPendingRecvCount t' = 1) /\
      mPendingRecvCount t' = Z.of_nat (pool t')) /\
  (forall (L : Type) (lower : LowerTransport L) (Ssl : Type)
          (mbedtls : MbedTLS Ssl) (fuel : nat) (ops : list op) (l : L)
          (e : Ssl) (t' : TlsTransport L Ssl),
      life (Mbed_step fuel) ops (fresh l e) = Some t' ->
      (mPendingRecvCount t' = 0 \/ mPendingRecvCount t' = 1) /\
      mPendingRecvCount t' = Z.of_nat (pool t')) /\
  (forall (L : Type) (lower : LowerTransport L) (Ssl : Type)
          (openssl : OpenSSL Ssl) (fuel : nat) (ops : list op) (l : L)
          (e : ssl_fields Ssl) (t' : TlsTransport L (ssl_fields Ssl)),
      life (Ossl_step fuel) ops (fresh l e) = Some t' ->
      (mPendingRecvCount t' = 0 \/ mPendingRecvCount t' = 1) /\
      mPendingRecvCount t' = Z.of_nat (pool t')).
Proof.
  split; [exact (@enqueueRecv_no_op)|].
  split; [exact (@enqueueRecv_edge)|].
  split; [intros * H; apply Gnu_doRecv_sched_dec in H; apply H|].
  split; [intros * H; apply Mbed_doRecv_sched_dec in H; apply H|].
  split; [intros * H; apply Ossl_doRecv_sched_dec in H; apply H|].
  split; [|split].
  - intros L lower Session gnutls fuel ops l e t' H.
    assert (C : coalesced t').
    { eapply (life_keeps (R:=coalescing)) in H;
        [apply H, fresh_coalesced|intro o; apply Gnu_step_coalescing]. }
    split; [now apply coalesced_bit|apply C].
  - intros L lower Ssl mbedtls fuel ops l e t' H.
    assert (C : coalesced t').
    { eapply (life_keeps (R:=coalescing)) in H;
        [apply H, fresh_coalesced|intro o; apply Mbed_step_coalescing]. }
    split; [now apply coalesced_bit|apply C].
  - intros L lower Ssl openssl fuel ops l e t' H.
    assert (C : coalesced t').
    { eapply (life_keeps (R:=coalescing)) in H;
        [apply H, fresh_coalesced|intro o; apply Ossl_step_coalescing]. }
    split; [now apply coalesced_bit|apply C].
Qed.

Lemma enqueueRecv_coalesces_witness :
  exists t1 : TlsTransport (list (outcome bool)) (script gnutls_answer),
    life (Gnu_step 5)
      [Start; Incoming (Some [x16]); Incoming (Some [x03]); Stop] (fresh [] [])
      = Some t1 /\
    pool t1 = 1%nat /\
    enqueueRecv t1 = Some (Ok tt, t1) /\
    ((mPendingRecvCount t1 = 0 \/ mPendingRecvCount t1 = 1) /\
     mPendingRecvCount t1 = Z.of_nat (pool t1)).
Proof.
  destruct enqueueRecv_coalesces as (A & _ & _ & _ & _ & G & _).
  eexists. split; [vm_compute; reflexivity|].
  split; [reflexivity|].
  split.
  - apply A. simpl. lia.
  - refine (G _ _ _ _ 5%nat
              [Start; Incoming (Some [x16]); Incoming (Some [x03]); Stop]
              [] [] _ _).
    vm_compute. reflexivity.
Defined.

(** ** The end of [doRecv] *)

Section Resolution.
Context {L E : Type}.
Local Abbreviation T := (TlsTransport L E).

Lemma eos_count_app (l k : list message_ptr) :
  eos_count (l ++ k) = (eos_count l + eos_count k)%nat.
Proof. unfold eos_count. now rewrite filter_app, length_app. Qed.

Lemma eos_count_messages (l : list binary) : eos_count (map Some l) = O.
Proof. induction l as [|m l IH]; [reflexivity|exact IH]. Qed.

Lemma no_eos_count (t t' : T) :
  no_eos t t' -> eos_count (delivered t') = eos_count (delivered t).
Proof.
  intros [l H]. rewrite H, eos_count_app, eos_count_messages. lia.
Qed.

#[export] Instance while_connected_preorder : PreOrder (@while_connected L E).
Proof.
  split.
  - intros t _. reflexivity.
  - intros a b c H1 H2 Ha. specialize (H1 Ha).
    assert (Hb : mState b = Connected) by (destruct H1; congruence).
    etransitivity; [exact H1|exact (H2 Hb)].
Qed.

#[export] Instance while_connected_frame : CallbackFrame (@while_connected L E).
Proof.
  split; try typeclasses eauto; intros; intros _; unfold state_eq; simpl; auto.
Qed.

Lemma changeState_while_connected :
  keeps while_connected (changeState (L:=L) (E:=E) Connected).
Proof.
  intros t r t' H Hc. unfold changeState, modify in H. inversion H; subst.
  rewrite Hc, State_eqb_refl. split; reflexivity.
Qed.

Lemma doRecv_resolve_spec (t1 : T) :
  exists t', doRecv_resolve t1 = Some (Ok tt, t') /\
    (mState t1 = Connected ->
       mState t' = Disconnected /\
       notified t' = notified t1 ++ [Disconnected] /\
       delivered t' = delivered t1 ++ [None]) /\
    (mState t1 <> Connected ->
       mState t' = Failed /\ delivered t' = delivered t1).
Proof.
  unfold doRecv_resolve, state, changeState, recv. run_red.
  destruct (State_eqb (mState t1) Connected) eqn:Hs.
  - apply State_eqb_eq in Hs. rewrite Hs.
    change (State_eqb Connected Disconnected) with false. cbv iota.
    eexists. split; [reflexivity|]. split; [|congruence].
    intros _. simpl. auto.
  - assert (Hn : mState t1 <> Connected).
    { intro K. rewrite K, State_eqb_refl in Hs. discriminate. }
    destruct (State_eqb (mState t1) Failed) eqn:Hf.
    + apply State_eqb_eq in Hf.
      eexists. split; [reflexivity|]. split; [congruence|]. auto.
    + eexists. split; [reflexivity|]. split; [congruence|]. simpl. auto.
Qed.

Lemma resolution_after (run : M T flow) :
  keeps no_eos run ->
  terminal_resolution run
    (f <- run;; match f with Returned => ret tt | Fell => doRecv_resolve end).
Proof.
  intros Hk t t1 H.
  destruct (doRecv_resolve_spec t1) as (t' & Hr & Hc & Hn).
  exists t'. split.
  - erewrite bind_Ok by exact H. exact Hr.
  - pose proof (no_eos_count (Hk _ _ _ H)) as He. split.
    + intro Hs. destruct (Hc Hs) as (A & B & C). repeat split; auto.
      rewrite C, eos_count_app, He. change (eos_count [None]) with 1%nat. lia.
    + intro Hs. destruct (Hn Hs) as (A & B). repeat split; auto.
      now rewrite B.
Qed.

(** From a run that got to the last statement while connected. *)
Lemma closes_after (run : M T flow) (t t1 : T) :
  keeps no_eos run ->
  run t = Some (Ok Fell, t1) ->
  mState t1 = Connected -> notified t1 = notified t ->
  closes_session
    (f <- run;; match f with Returned => ret tt | Fell => doRecv_resolve end) t.
Proof.
  intros Hk H Hs Hn.
  destruct (resolution_after Hk _ H) as (t' & Hd & Hc & _).
  destruct (Hc Hs) as (A & B & _ & D).
  exists t'. repeat split; auto. now rewrite B, Hn.
Qed.

End Resolution.

Lemma doRecv_enter_no_eos (L E : Type) :
  keeps no_eos (doRecv_enter (L:=L) (E:=E)).
Proof.
  unfold doRecv_enter.
  keeps_with ltac:(exists []; simpl; now rewrite app_nil_r).
Qed.

Section GnuResolution.
Context {L : Type} {lower : LowerTransport L} {Session : Type}
  {gnutls : GnuTLS Session}.
Local Abbreviation T := (TlsTransport L Session).

Lemma Gnu_doRecv_run_no_eos fuel :
  keeps no_eos (Gnu.doRecv_run (L:=L) (Session:=Session) fuel).
Proof.
  pose proof (doRecv_enter_no_eos (L:=L) (E:=Session)).
  pose proof (Gnu_doRecv_try_keeps (R:=no_eos) fuel
                (changeState_no_eos (s:=Connected))).
  pose proof (Gnu_call_keeps (R:=no_eos)).
  unfold Gnu.doRecv_run. keeps_with solve_frame.
Qed.

Lemma Gnu_terminal_resolution fuel :
  terminal_resolution (Gnu.doRecv_run (L:=L) (Session:=Session) fuel)
    (Gnu.doRecv fuel).
Proof. apply resolution_after, Gnu_doRecv_run_no_eos. Qed.

Lemma Gnu_fault_closes fuel (t : T) r t1 :
  mState t = Connected ->
  Gnu.doRecv_records fuel (entered t) = Some (r, t1) ->
  r <> Ok Returned ->
  closes_session (Gnu.doRecv fuel) t.
Proof.
  intros Hs Hr Hne.
  assert (S1 : state_eq (entered t) t1)
    by (eapply Gnu_doRecv_records_keeps; [typeclasses eauto|exact Hr]).
  destruct (Gnu_call_total gnutls_bye t1) as (z & t2 & Hb).
  assert (S2 : state_eq t1 t2)
    by (eapply Gnu_call_keeps; [typeclasses eauto|exact Hb]).
  assert (Hrun : Gnu.doRecv_run fuel t = Some (Ok Fell, t2)).
  { unfold Gnu.doRecv_run, doRecv_enter. unfold bind at 1. unfold modify at 1.
    fold (entered t).
    assert (Ht : Gnu.doRecv_try fuel (entered t) = Some (Ok Fell, t1)).
    { unfold Gnu.doRecv_try, try_catch, state.
      unfold bind at 1. unfold gets at 1.
      change (mState (entered t)) with (mState t). rewrite Hs.
      change (State_eqb Connected Connecting) with false. cbv iota.
      unfold bind at 1. unfold ret at 1. unfold bind at 1. unfold gets at 1.
      change (mState (entered t)) with (mState t). rewrite Hs.
      change (State_eqb Connected Connected) with true. cbv iota.
      rewrite Hr. destruct r as [[|]|e]; try reflexivity. congruence. }
    erewrite bind_Ok by exact Ht. cbv iota.
    erewrite bind_Ok by exact Hb. reflexivity. }
  unfold Gnu.doRecv.
  eapply closes_after; [apply Gnu_doRecv_run_no_eos|exact Hrun| |].
  - destruct S1 as [A _], S2 as [B _]. rewrite B, A. exact Hs.
  - destruct S1 as [_ A], S2 as [_ B]. rewrite B, A. reflexivity.
Qed.

End GnuResolution.

Section MbedResolution.
Context {L : Type} {lower : LowerTransport L} {Ssl : Type}
  {mbedtls : MbedTLS Ssl}.
Local Abbreviation T := (TlsTransport L Ssl).

Lemma Mbed_doRecv_run_no_eos fuel :
  keeps no_eos (Mbed.doRecv_run (L:=L) (Ssl:=Ssl) fuel).
Proof.
  pose proof (doRecv_enter_no_eos (L:=L) (E:=Ssl)).
  pose proof (Mbed_doRecv_try_keeps (R:=no_eos) fuel
                (changeState_no_eos (s:=Connected))).
  unfold Mbed.doRecv_run. keeps_with solve_frame.
Qed.

Lemma Mbed_terminal_resolution fuel :
  terminal_resolution (Mbed.doRecv_run (L:=L) (Ssl:=Ssl) fuel)
    (Mbed.doRecv fuel).
Proof. apply resolution_after, Mbed_doRecv_run_no_eos. Qed.

Lemma Mbed_fault_closes fuel (t : T) r t1 :
  mState t = Connected ->
  Mbed.doRecv_records fuel (entered t) = Some (r, t1) ->
  r <> Ok Returned ->
  closes_session (Mbed.doRecv fuel) t.
Proof.
  intros Hs Hr Hne.
  assert (S1 : state_eq (entered t) t1)
    by (eapply Mbed_doRecv_records_keeps; [typeclasses eauto|exact Hr]).
  assert (Hrun : Mbed.doRecv_run fuel t = Some (Ok Fell, t1)).
  { unfold Mbed.doRecv_run, doRecv_enter. unfold bind at 1. unfold modify at 1.
    fold (entered t). unfold state at 1. unfold bind at 1. unfold gets at 1.
    change (mState (entered t)) with (mState t). rewrite Hs.
    change (negb (State_eqb Connected Connecting)
            && negb (State_eqb Connected Connected)) with false. cbv iota.
    unfold Mbed.doRecv_try, try_catch, state.
    unfold bind at 1. unfold gets at 1.
    change (mState (entered t)) with (mState t). rewrite Hs.
    change (State_eqb Connected Connecting) with false. cbv iota.
    unfold bind at 1. unfold ret at 1. unfold bind at 1. unfold gets at 1.
    change (mState (entered t)) with (mState t). rewrite Hs.
    change (State_eqb Connected Connected) with true. cbv iota.
    rewrite Hr. destruct r as [[|]|e]; try reflexivity. congruence. }
  unfold Mbed.doRecv.
  eapply closes_after; [apply Mbed_doRecv_run_no_eos|exact Hrun| |].
  - destruct S1 as [A _]. rewrite A. exact Hs.
  - destruct S1 as [_ A]. rewrite A. reflexivity.
Qed.

End MbedResolution.

Section OsslResolution.
Context {L : Type} {lower : LowerTransport L} {Ssl : Type}
  {openssl : OpenSSL Ssl}.
Local Abbreviation T := (TlsTransport L (ssl_fields Ssl)).

Lemma Ossl_InfoCallbacks_total l :
  total (Ossl.InfoCallbacks (L:=L) (Ssl:=Ssl) l).
Proof.
  induction l as [|c l IH]; intro t; cbn [Ossl.InfoCallbacks].
  - do 2 eexists; reflexivity.
  - unfold Ossl.InfoCallback. unfold bind at 1.
    destruct (negb (Z.land (fst c) SSL_CB_ALERT =? 0)); apply IH.
Qed.

Lemma Ossl_call_total f : total (Ossl.call (L:=L) (Ssl:=Ssl) f).
Proof.
  intro t. unfold Ossl.call. unfold bind at 1. unfold gets at 1.
  unfold bind at 1. unfold modify at 1.
  match goal with
  | |- context [bind (Ossl.InfoCallbacks ?l) _ ?s] =>
      destruct (Ossl_InfoCallbacks_total l s) as (u & t1 & Hi)
  end.
  erewrite bind_Ok by exact Hi. do 2 eexists; reflexivity.
Qed.

Lemma Ossl_doRecv_run_no_eos fuel :
  keeps no_eos (Ossl.doRecv_run (L:=L) (Ssl:=Ssl) fuel).
Proof.
  pose proof (doRecv_enter_no_eos (L:=L) (E:=ssl_fields Ssl)).
  pose proof (Ossl_doRecv_try_keeps (R:=no_eos) fuel
                (changeState_no_eos (s:=Connected))).
  pose proof (Ossl_call_keeps (L:=L) (Ssl:=Ssl) (R:=no_eos)).
  unfold Ossl.doRecv_run. keeps_with solve_frame.
Qed.

Lemma Ossl_terminal_resolution fuel :
  terminal_resolution (Ossl.doRecv_run (L:=L) (Ssl:=Ssl) fuel)
    (Ossl.doRecv fuel).
Proof. apply resolution_after, Ossl_doRecv_run_no_eos. Qed.

Lemma Ossl_fault_closes fuel (t : T) r t1 :
  mState t = Connected ->
  Ossl.doRecv_loop fuel (entered t) = Some (r, t1) ->
  r <> Ok Returned ->
  closes_session (Ossl.doRecv fuel) t.
Proof.
  intros Hs Hr Hne.
  assert (S1 : state_eq (entered t) t1).
  { eapply (Ossl_doRecv_loop_keeps (R:=while_connected));
      [apply changeState_while_connected|exact Hr|exact Hs]. }
  destruct (Ossl_call_total SSL_shutdown t1) as (z & t2 & Hb).
  assert (S2 : state_eq t1 t2)
    by (eapply Ossl_call_keeps; [typeclasses eauto|exact Hb]).
  assert (Hrun : Ossl.doRecv_run fuel t = Some (Ok Fell, t2)).
  { unfold Ossl.doRecv_run, doRecv_enter. unfold bind at 1. unfold modify at 1.
    fold (entered t). unfold state at 1. unfold bind at 1. unfold gets at 1.
    change (mState (entered t)) with (mState t). rewrite Hs.
    change (negb (State_eqb Connected Connecting)
            && negb (State_eqb Connected Connected)) with false. cbv iota.
    assert (Ht : Ossl.doRecv_try fuel (entered t) = Some (Ok Fell, t1)).
    { unfold Ossl.doRecv_try, try_catch. rewrite Hr.
      destruct r as [[|]|e]; try reflexivity. congruence. }
    erewrite bind_Ok by exact Ht. cbv iota.
    erewrite bind_Ok by exact Hb. reflexivity. }
  unfold Ossl.doRecv.
  eapply closes_after; [apply Ossl_doRecv_run_no_eos|exact Hrun| |].
  - destruct S1 as [A _], S2 as [B _]. rewrite B, A. exact Hs.
  - destruct S1 as [_ A], S2 as [_ B]. rewrite B, A. reflexivity.
Qed.

End OsslResolution.

(** C1.  In each variant, whenever [doRecv] gets to its last statement
    it returns, and: if the state is [Connected] there, the state becomes
    [Disconnected], the observer is told so, and the upper layer has
    received exactly one end-of-stream signal more than before the call
    (it is the last delivery); if the state is anything else, the state
    is [Failed] afterwards and no end-of-stream signal was delivered.
    A record loop started while [Connected] that ends otherwise than by
    a would-block [return] -- the peer closed, or a fatal error threw --
    leads to the first case. *)
Theorem doRecv_terminal_resolution :
  (forall (L : Type) (lower : LowerTransport L) (Session : Type)
          (gnutls : GnuTLS Session) (fuel : nat),
      terminal_resolution (Gnu.doRecv_run (L:=L) (Session:=Session) fuel)
        (Gnu.doRecv fuel)) /\
  (forall (L : Type) (lower : LowerTransport L) (Ssl : Type)
          (mbedtls : MbedTLS Ssl) (fuel : nat),
      terminal_resolution (Mbed.doRecv_run (L:=L) (Ssl:=Ssl) fuel)
        (Mbed.doRecv fuel)) /\
  (forall (L : Type) (lower : LowerTransport L) (Ssl : Type)
          (openssl : OpenSSL Ssl) (fuel : nat),
      terminal_resolution (Ossl.doRecv_run (L:=L) (Ssl:=Ssl) fuel)
        (Ossl.doRecv fuel)) /\
  (forall (L : Type) (lower : LowerTransport L) (Session : Type)
          (gnutls : GnuTLS Session) (fuel : nat) (t : TlsTransport L Session)
          r t1,
      mState t = Connected ->
      Gnu.doRecv_records fuel (entered t) = Some (r, t1) ->
      r <> Ok Returned ->
      closes_session (Gnu.doRecv fuel) t) /\
  (forall (L : Type) (lower : LowerTransport L) (Ssl : Type)
          (mbedtls : MbedTLS Ssl) (fuel : nat) (t : TlsTransport L Ssl) r t1,
      mState t = Connected ->
      Mbed.doRecv_records fuel (entered t) = Some (r, t1) ->
      r <> Ok Returned ->
      closes_session (Mbed.doRecv fuel) t) /\
  (forall (L : Type) (lower : LowerTransport L) (Ssl : Type)
          (openssl : OpenSSL Ssl) (fuel : nat)
          (t : TlsTransport L (ssl_fields Ssl)) r t1,
      mState t = Connected ->
      Ossl.doRecv_loop fuel (entered t) = Some (r, t1) ->
      r <> Ok Returned ->
      closes_session (Ossl.doRecv fuel) t).
Proof.
  split; [intros; apply Gnu_terminal_resolution|].
  split; [intros; apply Mbed_terminal_resolution|].
  split; [intros; apply Ossl_terminal_resolution|].
  split; [intros; eapply Gnu_fault_closes; eassumption|].
  split; [intros; eapply Mbed_fault_closes; eassumption|].
  intros; eapply Ossl_fault_closes; eassumption.
Qed.

Lemma doRecv_terminal_resolution_witness :
  (exists t',
      Gnu.doRecv 3 failing_gnutls = Some (Ok tt, t') /\
      mState t' = Disconnected /\
      notified t' = notified failing_gnutls ++ [Disconnected] /\
      eos_count (delivered t') = S (eos_count (delivered failing_gnutls))) /\
  (exists t1 t',
      Gnu.doRecv_run 3 rejected_gnutls = Some (Ok Fell, t1) /\
      Gnu.doRecv 3 rejected_gnutls = Some (Ok tt, t') /\
      mState t' = Failed /\ delivered t' = []).
Proof.
  destruct doRecv_terminal_resolution as (G & _ & _ & F & _).
  split.
  - refine (F _ _ _ _ 3%nat failing_gnutls (Throw "GnuTLS error"%string) _ _ _ _);
      [reflexivity|vm_compute; reflexivity|discriminate].
  - assert (H : Gnu.doRecv_run 3 rejected_gnutls
                = Some (Ok Fell, set_mEngine [] (entered rejected_gnutls)))
      by (vm_compute; reflexivity).
    destruct (G _ _ _ _ 3%nat _ _ H) as (t' & Hd & _ & Hn).
    exists (set_mEngine [] (entered rejected_gnutls)), t'.
    split; [exact H|]. split; [exact Hd|].
    destruct Hn as (A & B & _); [simpl; discriminate|].
    split; [exact A|exact B].
Defined.

Lemma to_int_small (n : Z) : 0 <= n < 2 ^ 31 -> to_int n = n.
Proof.
  intro H. unfold to_int.
  rewrite Z.mod_small by lia. lia.
Qed.

Lemma size_nonneg (m : binary) : 0 <= size m.
Proof. unfold size. lia. Qed.

(** ** Where the variants part from each other and from the design *)

(** C5 (at the input where the code departs from it).  With no message
    at hand and a queue that holds one zero-length buffer and is not
    stopped, the GnuTLS pull function delivers the buffer to the upper
    layer, keeps it as the current message, and answers [0] with errno
    [0] -- to GnuTLS the end of the stream -- although the queue is
    still running and the would-block answer is [-1] with [EAGAIN]. *)
Theorem pull_after_empty_buffer_answers_zero :
  forall (L : Type) (Session : Type) (gnutls : GnuTLS Session) (maxlen : Z)
         (t : TlsTransport L Session),
    0 <= maxlen ->
    mIncomingMessage t = None ->
    mIncomingQueue t = mkQueue [[]] false ->
    exists t',
      Gnu.ReadCallback maxlen t = Some (Ok (0, 0, []), t') /\
      delivered t' = delivered t ++ [Some []] /\
      mIncomingMessage t' = Some [] /\
      mIncomingQueue t' = mkQueue [] false /\
      Queue_running (mIncomingQueue t') = true.
Proof.
  intros L Session gnutls maxlen t Hmax Hm Hq.
  rewrite Gnu_ReadCallback_eq. unfold Gnu_pull, refill, drop_exhausted.
  rewrite Hm. cbn [mIncomingMessage set_mIncomingMessagePosition].
  rewrite Hm. unfold after_next.
  cbn [mIncomingQueue mIncomingMessage delivered set_mIncomingMessagePosition
       set_delivered set_mIncomingMessage set_mIncomingQueue
       mIncomingMessagePosition].
  rewrite Hq, Hm. cbn.
  replace (Z.min maxlen 0) with 0 by lia.
  eexists. split; [reflexivity|]. cbn. auto.
Qed.

Lemma pull_after_empty_buffer_answers_zero_witness :
  exists t',
    Gnu.ReadCallback 4096
      (set_mIncomingQueue (mkQueue [[]] false)
         (set_mState Connected
            (fresh ([] : list (outcome bool)) ([] : script gnutls_answer))))
    = Some (Ok (0, 0, []), t') /\
    delivered t' = [Some []] /\
    mIncomingMessage t' = Some [] /\
    mIncomingQueue t' = mkQueue [] false /\
    Queue_running (mIncomingQueue t') = true.
Proof.
  apply pull_after_empty_buffer_answers_zero; [lia|reflexivity|reflexivity].
Defined.

(** The loop of lines 255-261 (and 503-509) on a queue that starts with
    the zero-length buffers [zs], followed by [rest]. *)
Lemma next_buffer_split (zs rest : list binary) :
  Forall (fun z => z = []) zs ->
  match rest with m :: _ => m <> [] | [] => True end ->
  forall (message : message_ptr) (up : list message_ptr),
    next_buffer (zs ++ rest) message up =
    (tl rest,
     match rest with
     | m :: _ => Some m
     | [] => match zs with [] => message | _ :: _ => Some [] end
     end,
     up ++ map Some zs).
Proof.
  intros Hz Hr. induction Hz as [|z zs Hz0 Hz IH]; intros message up.
  - cbn [app map]. rewrite app_nil_r. destruct rest as [|m rest].
    + reflexivity.
    + cbn [next_buffer tl]. destruct (size m >? 0) eqn:Hs; [reflexivity|].
      apply size_gtb_false in Hs. congruence.
  - subst z. cbn [app next_buffer]. change (size [] >? 0) with false.
    cbv iota. rewrite IH. cbn [map]. rewrite <- app_assoc. cbn [app].
    destruct rest, zs; reflexivity.
Qed.

Section Trailing.
Context {L E : Type}.
Local Abbreviation T := (TlsTransport L E).

(** Lines 250-262 with no message at hand. *)
Lemma refill_split (t : T) (zs rest : list binary) :
  mIncomingMessage t = None ->
  items (mIncomingQueue t) = zs ++ rest ->
  Forall (fun z => z = []) zs ->
  match rest with m :: _ => m <> [] | [] => True end ->
  let t2 := refill (drop_exhausted t) in
  delivered t2 = delivered t ++ map Some zs /\
  items (mIncomingQueue t2) = tl rest /\
  mIncomingMessagePosition t2 = 0 /\
  mIncomingMessage t2 = match rest with
                        | m :: _ => Some m
                        | [] => match zs with
                                | [] => None
                                | _ :: _ => Some []
                                end
                        end.
Proof.
  intros Hm Hq Hz Hr t2. subst t2.
  destruct t as [l st nt dl ps rg ow pl ct [q stp] msg pos ores e].
  cbn in Hm, Hq. subst msg q.
  unfold drop_exhausted, refill, after_next.
  cbn [mIncomingMessage mIncomingQueue items stopped delivered
       set_mIncomingMessagePosition].
  rewrite (@next_buffer_split zs rest Hz Hr). cbn. auto.
Qed.

End Trailing.

(** C6 (at the input where the code departs from it).  A pull of the
    GnuTLS or MbedTLS variant with no message at hand, on a queue that
    starts with the zero-length buffers [zs] followed by [rest] ([rest]
    empty, or starting with a non-empty buffer): every buffer of [zs]
    is delivered to the upper layer, unchanged and in order, and nothing
    else is; the first buffer of [rest], if there is one, becomes the
    message the engine is served from, the bytes copied are its first
    bytes, and it is not delivered.  But when [rest] is empty and [zs] is
    not, the last zero-length buffer, delivered as it was, is also kept
    as the message at hand and the engine is served from it: the pull
    answers [0] -- a read of no bytes, to the engine the end of the
    stream -- where the buffer should not have reached the engine at
    all.  In the OpenSSL variant (lines 699-703) a zero-length buffer
    taken off the queue is delivered to the upper layer and no field of
    the engine changes, and a non-empty one is not delivered. *)
Theorem trailing_empty_buffer_is_served_to_the_engine :
  (forall (L : Type) (Session : Type) (gnutls : GnuTLS Session) (maxlen : Z)
          (t : TlsTransport L Session) (zs rest : list binary),
      0 <= maxlen ->
      mIncomingMessage t = None ->
      items (mIncomingQueue t) = zs ++ rest ->
      Forall (fun z => z = []) zs ->
      match rest with m :: _ => m <> [] | [] => True end ->
      exists x copied t',
        Gnu.ReadCallback maxlen t = Some (Ok (x, copied), t') /\
        delivered t' = delivered t ++ map Some zs /\
        items (mIncomingQueue t') = tl rest /\
        match rest with
        | m :: _ =>
            mIncomingMessage t' = Some m /\
            copied = firstn (Z.to_nat (Z.min maxlen (size m))) m
        | [] =>
            copied = [] /\
            match zs with
            | [] => mIncomingMessage t' = None
            | _ :: _ => mIncomingMessage t' = Some [] /\ x = (0, 0)
            end
        end) /\
  (forall (L : Type) (Ssl : Type) (mbedtls : MbedTLS Ssl) (len : Z)
          (t : TlsTransport L Ssl) (zs rest : list binary),
      0 <= len ->
      mIncomingMessage t = None ->
      items (mIncomingQueue t) = zs ++ rest ->
      Forall (fun z => z = []) zs ->
      match rest with m :: _ => m <> [] | [] => True end ->
      exists x copied t',
        Mbed.ReadCallback len t = Some (Ok (x, copied), t') /\
        delivered t' = delivered t ++ map Some zs /\
        items (mIncomingQueue t') = tl rest /\
        match rest with
        | m :: _ =>
            mIncomingMessage t' = Some m /\
            copied = firstn (Z.to_nat (Z.min len (size m))) m
        | [] =>
            copied = [] /\
            match zs with
            | [] => mIncomingMessage t' = None
            | _ :: _ => mIncomingMessage t' = Some [] /\ x = 0
            end
        end) /\
  (forall (L : Type) (Ssl : Type) (message : binary)
          (t : TlsTransport L (ssl_fields Ssl)),
      exists t',
        Ossl.doRecv_input message t = Some (Ok tt, t') /\
        mIncomingMessage t' = mIncomingMessage t /\
        (message = [] ->
           delivered t' = delivered t ++ [Some message] /\
           mEngine t' = mEngine t) /\
        (message <> [] -> delivered t' = delivered t)).
Proof.
  split; [|split].
  - intros L Session gnutls maxlen t zs rest Hmax Hm Hq Hz Hr.
    rewrite Gnu_ReadCallback_eq. unfold Gnu_pull.
    destruct (@refill_split _ _ t zs rest Hm Hq Hz Hr) as (A & B & C & D).
    cbv zeta in A, B, C, D.
    set (t2 := refill (drop_exhausted t)) in *. rewrite D, C.
    destruct rest as [|m rest].
    + destruct zs as [|z zs].
      * destruct (Queue_running (mIncomingQueue t2));
          do 3 eexists; (split; [reflexivity|]); cbn [fst snd]; auto.
      * do 3 eexists. split; [reflexivity|]. cbn [fst snd].
        cbn [delivered set_mIncomingMessagePosition mIncomingQueue
             mIncomingMessage].
        replace (Z.min maxlen (size [] - 0)) with 0
          by (change (size []) with 0; lia).
        repeat split; auto.
    + do 3 eexists. split; [reflexivity|]. cbn [fst snd].
      cbn [delivered set_mIncomingMessagePosition mIncomingQueue
           mIncomingMessage].
      rewrite Z.sub_0_r. repeat split; auto.
  - intros L Ssl mbedtls len t zs rest Hmax Hm Hq Hz Hr.
    rewrite Mbed_ReadCallback_eq. unfold Mbed_pull.
    destruct (@refill_split _ _ t zs rest Hm Hq Hz Hr) as (A & B & C & D).
    cbv zeta in A, B, C, D.
    set (t2 := refill (drop_exhausted t)) in *. rewrite D, C.
    destruct rest as [|m rest].
    + destruct zs as [|z zs].
      * destruct (Queue_running (mIncomingQueue t2));
          do 3 eexists; (split; [reflexivity|]); cbn [fst snd]; auto.
      * do 3 eexists. split; [reflexivity|]. cbn [fst snd].
        cbn [delivered set_mIncomingMessagePosition mIncomingQueue
             mIncomingMessage].
        replace (Z.min len (size [] - 0)) with 0
          by (change (size []) with 0; lia).
        repeat split; auto.
    + do 3 eexists. split; [reflexivity|]. cbn [fst snd].
      cbn [delivered set_mIncomingMessagePosition mIncomingQueue
           mIncomingMessage].
      rewrite Z.sub_0_r. repeat split; auto.
  - intros L Ssl message t. unfold Ossl.doRecv_input, recv, modify.
    destruct (size message >? 0) eqn:Hs; eexists; (split; [reflexivity|]).
    + apply size_gtb_true in Hs. cbn. split; [reflexivity|].
      split; [congruence|]. auto.
    + apply size_gtb_false in Hs. cbn. split; [reflexivity|].
      split; [|congruence]. intros _. destruct t; auto.
Qed.

Lemma trailing_empty_buffer_is_served_to_the_engine_witness :
  (exists x copied t',
      Gnu.ReadCallback 4096
        (set_mIncomingQueue (mkQueue [[]] false) reading_gnutls)
      = Some (Ok (x, copied), t') /\
      delivered t' = [] ++ map Some [[]] /\
      items (mIncomingQueue t') = tl [] /\
      copied = [] /\ mIncomingMessage t' = Some [] /\ x = (0, 0)) /\
  (exists t',
      life (Gnu_step 5) [Incoming (Some []); RunTask] reading_gnutls
      = Some t' /\
      mState t' = Disconnected /\ delivered t' = [Some []; None]) /\
  (exists t',
      life (Ossl_step 5) [Incoming (Some []); RunTask] reading_openssl
      = Some t' /\
      mState t' = Connected /\ delivered t' = [Some []]).
Proof.
  destruct trailing_empty_buffer_is_served_to_the_engine as (G & _ & _).
  split; [|split].
  - apply (G _ _ gnutls 4096
             (set_mIncomingQueue (mkQueue [[]] false) reading_gnutls)
             [[]] []);
      [lia|reflexivity|reflexivity|repeat constructor|exact I].
  - eexists. split; [vm_compute; reflexivity|]. split; reflexivity.
  - eexists. split; [vm_compute; reflexivity|]. split; reflexivity.
Defined.

(** C7 (at the input where the code departs from it).  When the lower
    transport's [send] throws, the write callback of the GnuTLS variant
    answers [-1] with errno [ECONNRESET], while the write callback of the
    MbedTLS variant lets the exception out, and with it every engine
    call that pushes. *)
Theorem Mbed_WriteCallback_lets_exceptions_out :
  forall (L : Type) (lower : LowerTransport L) (buf : binary) (e : string)
         (l' : L),
    buf <> [] ->
    (forall (Ssl : Type) (mbedtls : MbedTLS Ssl) (t : TlsTransport L Ssl),
        lower_send (mLower t) (Some buf) = (Throw e, l') ->
        exists t',
          Mbed.WriteCallback buf t = Some (Throw e, t') /\
          forall (R : Type) (k : Z -> engine mbedtls_answer R),
            Mbed.run (Callback (f_send buf) k) t = Some (Throw e, t')) /\
    (forall (Session : Type) (gnutls : GnuTLS Session)
            (t : TlsTransport L Session),
        lower_send (mLower t) (Some buf) = (Throw e, l') ->
        exists t', Gnu.WriteCallback buf t = Some (Ok (-1, ECONNRESET), t')).
Proof.
  intros L lower buf e l' Hb. split.
  - intros Ssl mbedtls t H.
    assert (Hw : Mbed.WriteCallback buf t
                 = Some (Throw e,
                         set_mLower l' (set_pushed (pushed t ++ [Some buf]) t))).
    { unfold Mbed.WriteCallback, Mbed.outgoing, Transport_outgoing. run_red.
      rewrite H. reflexivity. }
    eexists. split; [exact Hw|]. intros R k. cbn [Mbed.run Mbed.callback].
    erewrite bind_Throw by exact Hw. reflexivity.
  - intros Session gnutls t H.
    unfold Gnu.WriteCallback, Gnu.outgoing, Transport_outgoing. run_red.
    destruct (size buf >? 0) eqn:Hs.
    + rewrite H. eexists. reflexivity.
    + apply size_gtb_false in Hs. congruence.
Qed.

Lemma Mbed_WriteCallback_lets_exceptions_out_witness :
  let m : TlsTransport (list (outcome bool)) (script mbedtls_answer) :=
    fresh [Throw "Connection is not open"%string] [] in
  let g : TlsTransport (list (outcome bool)) (script gnutls_answer) :=
    fresh [Throw "Connection is not open"%string] [] in
  (exists t',
      Mbed.WriteCallback [x16; x03] m
      = Some (Throw "Connection is not open"%string, t') /\
      forall (R : Type) (k : Z -> engine mbedtls_answer R),
        Mbed.run (Callback (f_send [x16; x03]) k) m
        = Some (Throw "Connection is not open"%string, t')) /\
  (exists t', Gnu.WriteCallback [x16; x03] g = Some (Ok (-1, 104), t')).
Proof.
  intros m g.
  destruct (@Mbed_WriteCallback_lets_exceptions_out (list (outcome bool)) _
              [x16; x03] "Connection is not open"%string [])
    as [A B]; [discriminate|].
  split; [apply (A _ mbedtls m); reflexivity|apply (B _ gnutls g); reflexivity].
Defined.

Lemma doRecv_resolve_Failed (L E : Type) (t1 : TlsTransport L E) :
  mState t1 <> Connected ->
  doRecv_resolve t1 =
  Some (Ok tt,
        if State_eqb (mState t1) Failed then t1
        else set_notified (notified t1 ++ [Failed]) (set_mState Failed t1)).
Proof.
  intro H. unfold doRecv_resolve, state, changeState. run_red.
  now rewrite (State_eqb_neq H).
Qed.

Lemma Gnu_doRecv_outside_session (L : Type) (lower : LowerTransport L)
  (Session : Type) (gnutls : GnuTLS Session) (fuel : nat)
  (t : TlsTransport L Session) :
  mState t <> Connecting -> mState t <> Connected ->
  exists t1 t',
    Gnu.doRecv_run fuel t = Some (Ok Fell, t1) /\
    state_eq t t1 /\
    Gnu.doRecv fuel t = Some (Ok tt, t') /\
    mState t' = Failed /\
    notified t' = (if State_eqb (mState t) Failed then notified t
                   else notified t ++ [Failed]) /\
    eos_count (delivered t') = eos_count (delivered t).
Proof.
  intros H1 H2.
  destruct (Gnu_call_total gnutls_bye (entered t)) as (z & t1 & Hb).
  assert (S1 : state_eq (entered t) t1)
    by (eapply Gnu_call_keeps; [typeclasses eauto|exact Hb]).
  assert (Hrun : Gnu.doRecv_run fuel t = Some (Ok Fell, t1)).
  { unfold Gnu.doRecv_run, doRecv_enter. unfold bind at 1. unfold modify at 1.
    fold (entered t).
    assert (Ht : Gnu.doRecv_try fuel (entered t) = Some (Ok Fell, entered t)).
    { unfold Gnu.doRecv_try, try_catch, state.
      unfold bind at 1. unfold gets at 1.
      change (mState (entered t)) with (mState t).
      rewrite (State_eqb_neq H1).
      unfold bind at 1. unfold ret at 1. unfold bind at 1. unfold gets at 1.
      change (mState (entered t)) with (mState t).
      rewrite (State_eqb_neq H2). reflexivity. }
    erewrite bind_Ok by exact Ht. cbv iota.
    erewrite bind_Ok by exact Hb. reflexivity. }
  destruct S1 as [A B]. change (mState (entered t)) with (mState t) in A.
  change (notified (entered t)) with (notified t) in B.
  pose proof (no_eos_count (Gnu_doRecv_run_no_eos fuel _ Hrun)) as He.
  assert (Hne : mState t1 <> Connected) by (rewrite A; exact H2).
  destruct (resolution_after (Gnu_doRecv_run_no_eos fuel) _ Hrun)
    as (t' & Hd & _ & Hn).
  destruct (Hn Hne) as (F1 & F2 & F3).
  exists t1, t'. split; [exact Hrun|]. split; [split; assumption|].
  split; [exact Hd|]. split; [exact F1|]. split; [|exact F3].
  unfold Gnu.doRecv in Hd. erewrite bind_Ok in Hd by exact Hrun.
  cbv iota in Hd. rewrite doRecv_resolve_Failed in Hd by exact Hne.
  inversion Hd as [Ht']. rewrite A.
  destruct (State_eqb (mState t) Failed); simpl; congruence.
Qed.

Lemma Mbed_doRecv_outside_session (L : Type) (lower : LowerTransport L)
  (Ssl : Type) (mbedtls : MbedTLS Ssl) (fuel : nat) (t : TlsTransport L Ssl) :
  mState t <> Connecting -> mState t <> Connected ->
  Mbed.doRecv fuel t = Some (Ok tt, entered t).
Proof.
  intros H1 H2. unfold Mbed.doRecv, Mbed.doRecv_run, doRecv_enter, state.
  run_red. cbn [mState set_mPendingRecvCount].
  rewrite (State_eqb_neq H1), (State_eqb_neq H2). reflexivity.
Qed.

Lemma Ossl_doRecv_outside_session (L : Type) (lower : LowerTransport L)
  (Ssl : Type) (openssl : OpenSSL Ssl) (fuel : nat)
  (t : TlsTransport L (ssl_fields Ssl)) :
  mState t <> Connecting -> mState t <> Connected ->
  Ossl.doRecv fuel t = Some (Ok tt, entered t).
Proof.
  intros H1 H2. unfold Ossl.doRecv, Ossl.doRecv_run, doRecv_enter, state.
  run_red. cbn [mState set_mPendingRecvCount].
  rewrite (State_eqb_neq H1), (State_eqb_neq H2). reflexivity.
Qed.

(** C2 (at the input where the code departs from it).  A [doRecv] task
    of the GnuTLS variant that runs when the session is already closed
    (state [Disconnected]) calls [gnutls_bye] and moves the state on to
    [Failed], telling the observer; it delivers no end-of-stream signal.
    The same task in the MbedTLS and OpenSSL variants only takes itself
    off the counter. *)
Theorem Gnu_doRecv_leaves_Disconnected :
  (forall (L : Type) (lower : LowerTransport L) (Session : Type)
          (gnutls : GnuTLS Session) (fuel : nat) (t : TlsTransport L Session),
      mState t = Disconnected ->
      exists t',
        Gnu.doRecv fuel t = Some (Ok tt, t') /\
        mState t' = Failed /\
        notified t' = notified t ++ [Failed] /\
        eos_count (delivered t') = eos_count (delivered t)) /\
  (forall (L : Type) (lower : LowerTransport L) (Ssl : Type)
          (mbedtls : MbedTLS Ssl) (fuel : nat) (t : TlsTransport L Ssl),
      mState t = Disconnected \/ mState t = Failed ->
      Mbed.doRecv fuel t = Some (Ok tt, entered t)) /\
  (forall (L : Type) (lower : LowerTransport L) (Ssl : Type)
          (openssl : OpenSSL Ssl) (fuel : nat)
          (t : TlsTransport L (ssl_fields Ssl)),
      mState t = Disconnected \/ mState t = Failed ->
      Ossl.doRecv fuel t = Some (Ok tt, entered t)).
Proof.
  split; [|split].
  - intros L lower Session gnutls fuel t Hs.
    destruct (@Gnu_doRecv_outside_session _ lower _ gnutls fuel t)
      as (t1 & t' & _ & _ & Hd & Hf & Hn & He); try (rewrite Hs; discriminate).
    exists t'. rewrite Hs in Hn. auto.
  - intros L lower Ssl mbedtls fuel t [Hs|Hs];
      apply Mbed_doRecv_outside_session; rewrite Hs; discriminate.
  - intros L lower Ssl openssl fuel t [Hs|Hs];
      apply Ossl_doRecv_outside_session; rewrite Hs; discriminate.
Qed.

Lemma stop_schedules (L E : Type) (t : TlsTransport L E) :
  mPendingRecvCount t = 0 -> owned t = true ->
  stop t = Some (Ok tt, stopped_and_scheduled t).
Proof.
  intros Hc Ho. unfold stop, unregisterIncoming.
  unfold bind at 1. unfold modify at 1. unfold bind at 1. unfold modify at 1.
  rewrite enqueueRecv_edge by assumption. reflexivity.
Qed.

Lemma stop_then_task (L E : Type) (doRecv : M (TlsTransport L E) unit)
  (step : op -> M (TlsTransport L E) unit) (t : TlsTransport L E) :
  step Stop = stop -> step RunTask = run_task doRecv ->
  mPendingRecvCount t = 0 -> owned t = true ->
  life step [Stop; RunTask] t =
  match doRecv (set_pool (pool t) (stopped_and_scheduled t)) with
  | Some (_, t') => Some t'
  | None => None
  end.
Proof.
  intros Hs Hr Hc Ho. cbn [life]. rewrite Hs, Hr.
  rewrite (stop_schedules t Hc Ho). unfold run_task.
  cbn [pool stopped_and_scheduled set_pool].
  destruct (doRecv _) as [[r t']|]; reflexivity.
Qed.

(** C8 (at the input where the code departs from it).  On an instance
    in state [Disconnected] with no task pending, [stop] followed by the
    task it scheduled takes the GnuTLS variant to [Failed] with a
    notification to the observer, and leaves the MbedTLS and OpenSSL
    variants in [Disconnected] with none. *)
Theorem variants_differ_on_stop_when_Disconnected :
  (forall (L : Type) (lower : LowerTransport L) (Session : Type)
          (gnutls : GnuTLS Session) (fuel : nat) (t : TlsTransport L Session),
      mState t = Disconnected -> mPendingRecvCount t = 0 -> owned t = true ->
      exists t',
        life (Gnu_step fuel) [Stop; RunTask] t = Some t' /\
        mState t' = Failed /\ notified t' = notified t ++ [Failed]) /\
  (forall (L : Type) (lower : LowerTransport L) (Ssl : Type)
          (mbedtls : MbedTLS Ssl) (fuel : nat) (t : TlsTransport L Ssl),
      mState t = Disconnected -> mPendingRecvCount t = 0 -> owned t = true ->
      exists t',
        life (Mbed_step fuel) [Stop; RunTask] t = Some t' /\
        mState t' = Disconnected /\ notified t' = notified t) /\
  (forall (L : Type) (lower : LowerTransport L) (Ssl : Type)
          (openssl : OpenSSL Ssl) (fuel : nat)
          (t : TlsTransport L (ssl_fields Ssl)),
      mState t = Disconnected -> mPendingRecvCount t = 0 -> owned t = true ->
      exists t',
        life (Ossl_step fuel) [Stop; RunTask] t = Some t' /\
        mState t' = Disconnected /\ notified t' = notified t).
Proof.
  split; [|split].
  - intros L lower Session gnutls fuel t Hs Hc Ho.
    rewrite (stop_then_task (doRecv:=Gnu.doRecv fuel) (Gnu_step fuel) t)
      by auto.
    destruct (@Gnu_doRecv_outside_session _ lower _ gnutls fuel
                (set_pool (pool t) (stopped_and_scheduled t)))
      as (t1 & t' & _ & _ & Hd & Hf & Hn & _);
      try (cbn; rewrite Hs; discriminate).
    rewrite Hd. exists t'. split; [reflexivity|]. split; [exact Hf|].
    rewrite Hn. cbn. now rewrite Hs.
  - intros L lower Ssl mbedtls fuel t Hs Hc Ho.
    rewrite (stop_then_task (doRecv:=Mbed.doRecv fuel) (Mbed_step fuel) t)
      by auto.
    rewrite Mbed_doRecv_outside_session
      by (cbn; rewrite Hs; discriminate).
    eexists. split; [reflexivity|]. cbn. auto.
  - intros L lower Ssl openssl fuel t Hs Hc Ho.
    rewrite (stop_then_task (doRecv:=Ossl.doRecv fuel) (Ossl_step fuel) t)
      by auto.
    rewrite Ossl_doRecv_outside_session
      by (cbn; rewrite Hs; discriminate).
    eexists. split; [reflexivity|]. cbn. auto.
Qed.

Lemma Gnu_doRecv_leaves_Disconnected_witness :
  life (Gnu_step 5) (closed_session ++ [Stop]) scripted_gnutls
    = Some closed_and_stopped /\
  exists t',
    run_task (Gnu.doRecv 5) closed_and_stopped = Some (Ok tt, t') /\
    mState t' = Failed /\
    notified t' = [Connecting; Connected; Disconnected; Failed] /\
    eos_count (delivered t') = 1%nat.
Proof.
  destruct Gnu_doRecv_leaves_Disconnected as (G & _).
  split; [vm_compute; reflexivity|].
  destruct (G _ _ _ gnutls 5%nat (set_pool 0 closed_and_stopped) eq_refl)
    as (t' & Hd & Hf & Hn & He).
  exists t'. split; [exact Hd|]. split; [exact Hf|]. split; [exact Hn|exact He].
Defined.

Lemma variants_differ_on_stop_when_Disconnected_witness :
  (exists t' : TlsTransport (list (outcome bool)) (script gnutls_answer),
      life (Gnu_step 5) [Stop; RunTask] (fresh [] []) = Some t' /\
      mState t' = Failed /\ notified t' = [] ++ [Failed]) /\
  (exists t' : TlsTransport (list (outcome bool)) (script mbedtls_answer),
      life (Mbed_step 5) [Stop; RunTask] (fresh [] []) = Some t' /\
      mState t' = Disconnected /\ notified t' = []) /\
  (exists t' : TlsTransport (list (outcome bool)) (ssl_fields ssl_script),
      life (Ossl_step 5) [Stop; RunTask] (fresh [] (mkSsl (false, []) [] []))
      = Some t' /\
      mState t' = Disconnected /\ notified t' = []).
Proof.
  destruct variants_differ_on_stop_when_Disconnected as (G & B & O).
  split; [|split].
  - apply (G _ _ _ gnutls 5%nat (fresh [] [])); reflexivity.
  - apply (B _ _ _ mbedtls 5%nat (fresh [] [])); reflexivity.
  - apply (O _ _ _ openssl 5%nat (fresh [] (mkSsl (false, []) [] [])));
      reflexivity.
Defined.

(** * Further properties of the code *)

(** ** The byte stream served to the engine *)

Lemma next_buffer_unread (q : list binary) (message : message_ptr)
  (up : list message_ptr) :
  match message with Some m => m | None => [] end = [] ->
  match snd (fst (next_buffer q message up)) with
  | Some m => m
  | None => []
  end ++ List.concat (fst (fst (next_buffer q message up))) = List.concat q.
Proof.
  revert message up. induction q as [|m q IH]; intros message up Hm.
  - cbn [next_buffer fst snd List.concat]. rewrite app_nil_r. exact Hm.
  - cbn [next_buffer]. destruct (size m >? 0) eqn:Hs.
    + reflexivity.
    + apply size_gtb_false in Hs. subst m. rewrite IH by reflexivity.
      reflexivity.
Qed.

Lemma next_buffer_finds (q : list binary) (message : message_ptr)
  (up : list message_ptr) :
  List.concat q <> [] ->
  exists m, snd (fst (next_buffer q message up)) = Some m /\ 0 < size m.
Proof.
  revert message up. induction q as [|m q IH]; intros message up Hq.
  - now contradiction Hq.
  - cbn [next_buffer]. destruct (size m >? 0) eqn:Hs.
    + exists m. split; [reflexivity|]. now rewrite Z.gtb_ltb, Z.ltb_lt in Hs.
    + apply size_gtb_false in Hs. subst m. apply IH. exact Hq.
Qed.

Lemma skipn_short (m : binary) (p : Z) :
  size m <= p -> skipn (Z.to_nat p) m = [].
Proof. intro H. apply skipn_all2. unfold size in H. lia. Qed.

Section Stream.
Context {L E : Type}.
Local Abbreviation T := (TlsTransport L E).

(** Lines 250-262 neither lose nor invent a byte, and leave the cursor
    inside the message they settle on. *)
Lemma refill_unread (t : T) :
  0 <= mIncomingMessagePosition t ->
  let t2 := refill (drop_exhausted t) in
  unread t2 = unread t /\
  0 <= mIncomingMessagePosition t2 /\
  (forall m, mIncomingMessage t2 = Some m ->
             mIncomingMessagePosition t2 <= size m) /\
  (unread t <> [] ->
   exists m, mIncomingMessage t2 = Some m /\
             mIncomingMessagePosition t2 < size m).
Proof.
  intros Hp t2. subst t2.
  destruct t as [l st nt dl ps rg ow pl ct [q stp] msg pos ores e].
  cbn in Hp. unfold drop_exhausted. cbn [mIncomingMessage mIncomingMessagePosition].
  assert (Hnone :
    let t0 := mkTls l st nt dl ps rg ow pl ct (mkQueue q stp) None pos ores e in
    unread (refill t0) = List.concat q /\
    0 <= mIncomingMessagePosition (refill t0) /\
    (forall m, mIncomingMessage (refill t0) = Some m ->
               mIncomingMessagePosition (refill t0) <= size m) /\
    (List.concat q <> [] ->
     exists m, mIncomingMessage (refill t0) = Some m /\
               mIncomingMessagePosition (refill t0) < size m)).
  { cbv zeta. unfold refill, after_next, unread. cbn.
    split; [apply next_buffer_unread; reflexivity|].
    split; [lia|]. split.
    - intros m _. apply size_nonneg.
    - apply next_buffer_finds. }
  destruct msg as [m|].
  - destruct (pos >=? size m) eqn:Hge.
    + rewrite Z.geb_le in Hge.
      change (set_mIncomingMessage None _)
        with (mkTls l st nt dl ps rg ow pl ct (mkQueue q stp) None pos ores e).
      destruct Hnone as (A & B & C & D).
      assert (U : unread (mkTls l st nt dl ps rg ow pl ct (mkQueue q stp)
                            (Some m) pos ores e) = List.concat q).
      { unfold unread. cbn [mIncomingMessage mIncomingMessagePosition
                            mIncomingQueue items].
        now rewrite (skipn_short m Hge). }
      rewrite U. auto.
    + rewrite Z.geb_leb, Z.leb_gt in Hge.
      unfold refill. cbn [mIncomingMessage mIncomingMessagePosition].
      split; [reflexivity|]. split; [exact Hp|]. split.
      * intros m0 H. inversion H; subst. lia.
      * intros _. exists m. split; [reflexivity|exact Hge].
  - destruct Hnone as (A & B & C & D).
    assert (U : unread (mkTls l st nt dl ps rg ow pl ct (mkQueue q stp)
                          None pos ores e) = List.concat q) by reflexivity.
    rewrite U. auto.
Qed.

End Stream.

(** Lines 265-268: what is copied and what is left of the message. *)
Lemma copy_splits (m : binary) (p maxlen : Z) :
  0 <= p <= size m -> 0 <= maxlen ->
  let n := Z.min maxlen (size m - p) in
  let copied := firstn (Z.to_nat n) (skipn (Z.to_nat p) m) in
  skipn (Z.to_nat p) m = copied ++ skipn (Z.to_nat (p + n)) m /\
  size copied = n /\
  (0 < maxlen -> p < size m -> copied <> []).
Proof.
  intros Hp Hmax n copied. subst copied.
  assert (Hn : 0 <= n <= size m - p) by (subst n; lia).
  assert (Hlen : size (firstn (Z.to_nat n) (skipn (Z.to_nat p) m)) = n).
  { unfold size in *. rewrite length_firstn, length_skipn. lia. }
  split; [|split].
  - replace (Z.to_nat (p + n)) with (Z.to_nat n + Z.to_nat p)%nat by lia.
    rewrite <- skipn_skipn. now rewrite firstn_skipn.
  - exact Hlen.
  - intros H1 H2 K. rewrite K in Hlen. cbn in Hlen. subst n. lia.
Qed.

(** X1.  GnuTLS [ReadCallback] (lines 244-285), called with a cursor
    that is not negative: it returns, the bytes it copies are the front
    of the unread stream (the current message past the cursor, then the
    queued buffers in order) and the rest of that stream is still to be
    served, so no byte is lost, repeated or reordered; it copies at most
    [maxlen] bytes; when it copies something it answers their number
    with errno [0]; and with [maxlen] positive it copies something
    whenever the stream has a byte left. *)
Theorem Gnu_ReadCallback_serves_the_stream :
  forall (L : Type) (Session : Type) (gnutls : GnuTLS Session) (maxlen : Z)
         (t : TlsTransport L Session),
    0 <= maxlen -> 0 <= mIncomingMessagePosition t ->
    exists x errno copied t',
      Gnu.ReadCallback maxlen t = Some (Ok (x, errno, copied), t') /\
      unread t = copied ++ unread t' /\
      size copied <= maxlen /\
      (copied <> [] -> x = to_ssize_t (size copied) /\ errno = 0) /\
      (0 < maxlen -> unread t <> [] -> copied <> []) /\
      0 <= mIncomingMessagePosition t'.
Proof.
  intros L Session gnutls maxlen t Hmax Hp.
  rewrite Gnu_ReadCallback_eq. unfold Gnu_pull.
  destruct (refill_unread t Hp) as (A & B & C & D). cbv zeta in A, B, C, D.
  set (t2 := refill (drop_exhausted t)) in *.
  destruct (mIncomingMessage t2) as [m|] eqn:Em.
  - specialize (C m eq_refl).
    destruct (@copy_splits m (mIncomingMessagePosition t2) maxlen)
      as (S1 & S2 & S3); [lia|lia|]. cbv zeta in S1, S2, S3.
    do 4 eexists. split; [reflexivity|]. cbn [fst snd].
    split; [|split; [|split; [|split]]].
    + rewrite <- A. unfold unread.
      cbn [mIncomingMessage mIncomingMessagePosition mIncomingQueue
           set_mIncomingMessagePosition].
      rewrite Em. rewrite S1 at 1. now rewrite <- app_assoc.
    + rewrite S2. lia.
    + intros _. now rewrite S2.
    + intros H1 H2. destruct (D H2) as (m0 & E0 & H0).
      inversion E0; subst m0. auto.
    + cbn [mIncomingMessagePosition set_mIncomingMessagePosition]. lia.
  - destruct (Queue_running (mIncomingQueue t2));
      do 4 eexists; (split; [reflexivity|]); cbn [fst snd];
      (split; [now rewrite A|]); (split; [cbn; lia|]);
      (split; [congruence|]);
      (split; [|exact B]);
      intros _ H2; destruct (D H2) as (m0 & E0 & _); discriminate.
Qed.

Lemma Gnu_ReadCallback_serves_the_stream_witness :
  let t : TlsTransport (list (outcome bool)) (script gnutls_answer) :=
    set_mIncomingMessagePosition 1
      (set_mIncomingMessage (Some [x16; x03; x01])
         (set_mIncomingQueue (mkQueue [[]; [x17; x03]] false) (fresh [] []))) in
  exists x errno copied t',
    Gnu.ReadCallback 4 t = Some (Ok (x, errno, copied), t') /\
    unread t = copied ++ unread t' /\
    size copied <= 4 /\
    (copied <> [] -> x = to_ssize_t (size copied) /\ errno = 0) /\
    (0 < 4 -> unread t <> [] -> copied <> []) /\
    0 <= mIncomingMessagePosition t'.
Proof.
  intro t. apply Gnu_ReadCallback_serves_the_stream; cbn; lia.
Defined.

(** X2.  MbedTLS [ReadCallback] (lines 492-528), called with a cursor
    that is not negative: it returns, the bytes it copies are the front
    of the unread stream and the rest of that stream is still to be
    served; it copies at most [len] bytes; when it copies something it
    answers their number as an [int]; and with [len] positive it copies
    something whenever the stream has a byte left. *)
Theorem Mbed_ReadCallback_serves_the_stream :
  forall (L : Type) (Ssl : Type) (mbedtls : MbedTLS Ssl) (len : Z)
         (t : TlsTransport L Ssl),
    0 <= len -> 0 <= mIncomingMessagePosition t ->
    exists x copied t',
      Mbed.ReadCallback len t = Some (Ok (x, copied), t') /\
      unread t = copied ++ unread t' /\
      size copied <= len /\
      (copied <> [] -> x = to_int (size copied)) /\
      (0 < len -> unread t <> [] -> copied <> []) /\
      0 <= mIncomingMessagePosition t'.
Proof.
  intros L Ssl mbedtls len t Hmax Hp.
  rewrite Mbed_ReadCallback_eq. unfold Mbed_pull.
  destruct (refill_unread t Hp) as (A & B & C & D). cbv zeta in A, B, C, D.
  set (t2 := refill (drop_exhausted t)) in *.
  destruct (mIncomingMessage t2) as [m|] eqn:Em.
  - specialize (C m eq_refl).
    destruct (@copy_splits m (mIncomingMessagePosition t2) len)
      as (S1 & S2 & S3); [lia|lia|]. cbv zeta in S1, S2, S3.
    do 3 eexists. split; [reflexivity|]. cbn [fst snd].
    split; [|split; [|split; [|split]]].
    + rewrite <- A. unfold unread.
      cbn [mIncomingMessage mIncomingMessagePosition mIncomingQueue
           set_mIncomingMessagePosition].
      rewrite Em. rewrite S1 at 1. now rewrite <- app_assoc.
    + rewrite S2. lia.
    + intros _. now rewrite S2.
    + intros H1 H2. destruct (D H2) as (m0 & E0 & H0).
      inversion E0; subst m0. auto.
    + cbn [mIncomingMessagePosition set_mIncomingMessagePosition]. lia.
  - destruct (Queue_running (mIncomingQueue t2));
      do 3 eexists; (split; [reflexivity|]); cbn [fst snd];
      (split; [now rewrite A|]); (split; [cbn; lia|]);
      (split; [congruence|]);
      (split; [|exact B]);
      intros _ H2; destruct (D H2) as (m0 & E0 & _); discriminate.
Qed.

Lemma Mbed_ReadCallback_serves_the_stream_witness :
  let t : TlsTransport (list (outcome bool)) (script mbedtls_answer) :=
    set_mIncomingQueue (mkQueue [[]; [x17; x03; x03]; [x01]] false)
      (fresh [] []) in
  exists x copied t',
    Mbed.ReadCallback 2 t = Some (Ok (x, copied), t') /\
    unread t = copied ++ unread t' /\
    size copied <= 2 /\
    (copied <> [] -> x = to_int (size copied)) /\
    (0 < 2 -> unread t <> [] -> copied <> []) /\
    0 <= mIncomingMessagePosition t'.
Proof.
  intro t. apply Mbed_ReadCallback_serves_the_stream; cbn; lia.
Defined.

(** ** The poll function *)

(** X3.  GnuTLS [TimeoutCallback] (lines 287-302) always returns, changes
    no field, and answers [0] or [1]: [1] whenever a byte is unread or a
    buffer is queued.  When it answers [0], the pull function called
    next copies nothing and delivers nothing: it answers would-block
    ([-1] with [EAGAIN]) while the queue is not stopped and end of
    stream ([0]) once it is. *)
Theorem Gnu_TimeoutCallback_agrees_with_pull :
  forall (L : Type) (Session : Type) (gnutls : GnuTLS Session) (ms maxlen : Z)
         (t : TlsTransport L Session),
    exists r,
      Gnu.TimeoutCallback ms t = Some (Ok r, t) /\
      (r = 0 \/ r = 1) /\
      (unread t <> [] -> r = 1) /\
      (items (mIncomingQueue t) <> [] -> r = 1) /\
      (r = 0 ->
       exists t',
         Gnu.ReadCallback maxlen t
         = Some (Ok (if stopped (mIncomingQueue t) then (0, 0, [])
                     else (-1, EAGAIN, [])), t') /\
         delivered t' = delivered t).
Proof.
  intros L Session gnutls ms maxlen t.
  destruct t as [l st nt dl ps rg ow pl ct [q stp] msg pos ores e].
  unfold Gnu.TimeoutCallback, try_catch, bind, gets, ret.
  cbn [mIncomingMessage mIncomingMessagePosition mIncomingQueue Queue_empty
       items stopped delivered].
  assert (Hidle : forall msg0,
    match msg0 with Some m => pos >=? size m | None => true end = true ->
    exists t',
      Gnu.ReadCallback maxlen
        (mkTls l st nt dl ps rg ow pl ct (mkQueue [] stp) msg0 pos ores e)
      = Some (Ok (if stp then (0, 0, []) else (-1, EAGAIN, [])), t') /\
      delivered t' = dl).
  { intros msg0 H0. rewrite Gnu_ReadCallback_eq.
    unfold Gnu_pull, refill, drop_exhausted.
    cbn [mIncomingMessage mIncomingMessagePosition].
    destruct msg0 as [m|]; [rewrite H0|];
      cbn; destruct stp; eexists; split; reflexivity. }
  destruct msg as [m|].
  - destruct (pos <? size m) eqn:Hlt.
    + exists 1. repeat split; auto. discriminate.
    + destruct q as [|b q].
      * exists 0. split; [reflexivity|]. split; [now left|].
        rewrite Z.ltb_ge in Hlt. split; [|split].
        -- unfold unread. cbn [mIncomingMessage mIncomingMessagePosition
                               mIncomingQueue items List.concat].
           rewrite (skipn_short m Hlt). intro K. now contradiction K.
        -- intro K. now contradiction K.
        -- intros _. apply (Hidle (Some m)). now apply Z.geb_le.
      * exists 1. repeat split; auto. discriminate.
  - destruct q as [|b q].
    + exists 0. split; [reflexivity|]. split; [now left|]. split; [|split].
      * intro K. now contradiction K.
      * intro K. now contradiction K.
      * intros _. apply (Hidle None). reflexivity.
    + exists 1. repeat split; auto. discriminate.
Qed.

(** ** Flushing the output BIO *)

Lemma buffer_chunk (bio : binary) :
  bio <> [] ->
  let k := Z.to_nat bufferSize in
  firstn k bio <> [] /\ size (firstn k bio) <= bufferSize /\
  (List.length (skipn k bio) < List.length bio)%nat.
Proof.
  intros Hb k.
  assert (Hk : (0 < k)%nat) by (subst k; unfold bufferSize; lia).
  assert (Hz : Z.of_nat k = bufferSize) by (subst k; unfold bufferSize; lia).
  destruct bio as [|b bio]; [congruence|].
  split; [|split].
  - destruct k; [lia|]. discriminate.
  - unfold size. rewrite length_firstn. lia.
  - rewrite length_skipn. cbn [List.length]. lia.
Qed.

Lemma Ossl_flushOutput_loop_spec (L : Type) (lower : LowerTransport L)
  (Ssl : Type) (n : nat) :
  forall (result : bool) (t : TlsTransport L (ssl_fields Ssl)),
    (List.length (mOutBio (mEngine t)) < n)%nat ->
    exists r t' l,
      Ossl.flushOutput_loop n result t = Some (r, t') /\
      pushed t' = pushed t ++ map Some l /\
      List.concat l ++ mOutBio (mEngine t') = mOutBio (mEngine t) /\
      Forall (fun c => c <> [] /\ size c <= bufferSize) l /\
      mSsl (mEngine t') = mSsl (mEngine t) /\
      mInBio (mEngine t') = mInBio (mEngine t) /\
      (forall b, r = Ok b ->
                 mOutBio (mEngine t') = [] /\ (l = [] -> b = result)) /\
      (forall e, r = Throw e -> l <> []).
Proof.
  induction n as [|n IH]; intros result t Hn; [lia|].
  destruct t as [lw st nt dl ps rg ow pl ct q msg pos ores [ssl inb outb]].
  cbn [mEngine mOutBio] in Hn.
  cbn [Ossl.flushOutput_loop]. unfold bind at 1. unfold gets at 1.
  cbn [mEngine mOutBio mSsl mInBio].
  destruct outb as [|b outb].
  - exists (Ok result), (mkTls lw st nt dl ps rg ow pl ct q msg pos ores
                           (mkSsl ssl inb [])), [].
    split; [reflexivity|]. cbn [map pushed mEngine mOutBio mSsl mInBio].
    rewrite app_nil_r.
    split; [reflexivity|]. split; [reflexivity|]. split; [constructor|].
    split; [reflexivity|]. split; [reflexivity|]. split.
    + intros b0 Hb0. inversion Hb0. auto.
    + discriminate.
  - destruct (@buffer_chunk (b :: outb)) as (C1 & C2 & C3); [discriminate|].
    cbv zeta in C1, C2, C3.
    set (buffer := firstn (Z.to_nat bufferSize) (b :: outb)) in *.
    set (rest := skipn (Z.to_nat bufferSize) (b :: outb)) in *.
    assert (Hsplit : buffer ++ rest = b :: outb) by apply firstn_skipn.
    clearbody buffer rest.
    unfold bind at 1. unfold modify at 1.
    unfold bind at 1. unfold Ossl.outgoing, Transport_outgoing.
    cbn [mLower set_mEngine pushed].
    destruct (lower_send lw (Some buffer)) as [[b'|e] lw'].
    + match goal with
      | |- context [Ossl.flushOutput_loop n b' ?s] =>
          destruct (IH b' s) as (r & t' & l & H1 & H2 & H3 & H4 & H5 & H6 & H7 & H8)
      end.
      { cbn in *. lia. }
      cbn in H2, H3, H5, H6.
      exists r, t', (buffer :: l). split; [exact H1|].
      cbn [pushed mEngine mOutBio mSsl mInBio].
      split; [rewrite H2, <- app_assoc; reflexivity|].
      split; [cbn [List.concat]; rewrite <- app_assoc, H3; exact Hsplit|].
      split; [constructor; auto|].
      split; [exact H5|]. split; [exact H6|]. split.
      * intros b0 Hb0. destruct (H7 b0 Hb0) as [A _]. split; [exact A|].
        discriminate.
      * discriminate.
    + do 2 eexists. exists [buffer]. split; [reflexivity|].
      cbn. rewrite app_nil_r.
      split; [reflexivity|]. split; [exact Hsplit|].
      split; [constructor; auto|].
      split; [reflexivity|]. split; [reflexivity|].
      split; discriminate.
Qed.

Lemma Ossl_flushOutput_spec (L : Type) (lower : LowerTransport L)
  (Ssl : Type) (t : TlsTransport L (ssl_fields Ssl)) :
  exists r t' l,
    Ossl.flushOutput t = Some (r, t') /\
    pushed t' = pushed t ++ map Some l /\
    List.concat l ++ mOutBio (mEngine t') = mOutBio (mEngine t) /\
    Forall (fun c => c <> [] /\ size c <= bufferSize) l /\
    mSsl (mEngine t') = mSsl (mEngine t) /\
    mInBio (mEngine t') = mInBio (mEngine t) /\
    (forall b, r = Ok b ->
               mOutBio (mEngine t') = [] /\ (l = [] -> b = true)) /\
    (forall e, r = Throw e -> l <> []).
Proof.
  unfold Ossl.flushOutput. unfold bind at 1. unfold gets at 1.
  apply Ossl_flushOutput_loop_spec. lia.
Qed.

#[export] Instance output_only_preorder (L E : Type) :
  PreOrder (@output_only L E).
Proof.
  split.
  - intro t. unfold output_only. repeat split; reflexivity.
  - intros a b c (A1 & A2 & A3 & A4 & A5 & A6 & A7 & A8)
                 (B1 & B2 & B3 & B4 & B5 & B6 & B7 & B8).
    unfold output_only.
    split; [etransitivity; eassumption|].
    split; [etransitivity; eassumption|].
    repeat split; congruence.
Qed.

Lemma Ossl_flushOutput_output_only (L : Type) (lower : LowerTransport L)
  (Ssl : Type) :
  keeps output_only (Ossl.flushOutput (L:=L) (Ssl:=Ssl)).
Proof.
  assert (Ho : forall m, keeps output_only
                 (Ossl.outgoing (L:=L) (Ssl:=Ssl) m)).
  { intros m t r t' H. unfold Ossl.outgoing, Transport_outgoing in H.
    destruct (lower_send (mLower t) m). inversion H; subst.
    unfold output_only, state_eq, sched_eq. cbn. repeat split. }
  assert (Hl : forall n result, keeps output_only
                 (Ossl.flushOutput_loop (L:=L) (Ssl:=Ssl) n result)).
  { induction n as [|n IH]; intro result; cbn [Ossl.flushOutput_loop];
      keeps_with ltac:(unfold output_only, state_eq, sched_eq; cbn;
                       repeat split). }
  unfold Ossl.flushOutput.
  keeps_with ltac:(unfold output_only, state_eq, sched_eq; cbn; repeat split).
Qed.

(** X4.  OpenSSL [flushOutput] (lines 746-755) always ends, by
    returning or by the exception of the lower transport.  It hands the
    content of the output BIO to the lower transport from the front, in
    order, in pieces that are not empty and hold at most [bufferSize]
    bytes; what it handed over followed by what is left in the BIO is
    what the BIO held; nothing else of the engine changes, nor any
    other field but the lower transport and the log of what it was
    handed.  When it returns the BIO is empty, and with nothing to hand
    over it answers [true]. *)
Theorem Ossl_flushOutput_drains_the_output_BIO :
  forall (L : Type) (lower : LowerTransport L) (Ssl : Type)
         (t : TlsTransport L (ssl_fields Ssl)),
    exists r t' l,
      Ossl.flushOutput t = Some (r, t') /\
      pushed t' = pushed t ++ map Some l /\
      List.concat l ++ mOutBio (mEngine t') = mOutBio (mEngine t) /\
      Forall (fun c => c <> [] /\ size c <= bufferSize) l /\
      mSsl (mEngine t') = mSsl (mEngine t) /\
      mInBio (mEngine t') = mInBio (mEngine t) /\
      (forall b, r = Ok b ->
                 mOutBio (mEngine t') = [] /\ (l = [] -> b = true)) /\
      (forall e, r = Throw e -> l <> []) /\
      output_only t t'.
Proof.
  intros L lower Ssl t.
  destruct (Ossl_flushOutput_spec lower t)
    as (r & t' & l & H1 & H2 & H3 & H4 & H5 & H6 & H7 & H8).
  exists r, t', l. repeat (split; [assumption|]).
  eapply Ossl_flushOutput_output_only, H1.
Qed.

(** ** Sending without a record *)

(** X5.  In each variant, [send] called in state [Connected] with the
    null message or a zero-length one (lines 125-126, 377-378, 652-653)
    passes that very message to the lower transport and ends as the
    lower transport's [send] ends, with its boolean or its exception.
    The engine is not called: its fields, the queue, the cursor, the
    state and the deliveries are as before.  The GnuTLS and MbedTLS
    variants also store the boolean in [mOutgoingResult]. *)
Theorem send_passes_empty_messages_through :
  (forall (L : Type) (lower : LowerTransport L) (Session : Type)
          (gnutls : GnuTLS Session) (fuel : nat) (message : message_ptr)
          (t : TlsTransport L Session),
      mState t = Connected -> message = None \/ message = Some [] ->
      exists t',
        Gnu.send fuel message t
        = Some (fst (lower_send (mLower t) message), t') /\
        pushed t' = pushed t ++ [message] /\
        mLower t' = snd (lower_send (mLower t) message) /\
        mEngine t' = mEngine t /\ mIncomingQueue t' = mIncomingQueue t /\
        mIncomingMessage t' = mIncomingMessage t /\
        state_eq t t' /\ delivered t' = delivered t /\
        (forall b, fst (lower_send (mLower t) message) = Ok b ->
                   mOutgoingResult t' = b)) /\
  (forall (L : Type) (lower : LowerTransport L) (Ssl : Type)
          (mbedtls : MbedTLS Ssl) (message : message_ptr)
          (t : TlsTransport L Ssl),
      mState t = Connected -> message = None \/ message = Some [] ->
      exists t',
        Mbed.send message t
        = Some (fst (lower_send (mLower t) message), t') /\
        pushed t' = pushed t ++ [message] /\
        mLower t' = snd (lower_send (mLower t) message) /\
        mEngine t' = mEngine t /\ mIncomingQueue t' = mIncomingQueue t /\
        mIncomingMessage t' = mIncomingMessage t /\
        state_eq t t' /\ delivered t' = delivered t /\
        (forall b, fst (lower_send (mLower t) message) = Ok b ->
                   mOutgoingResult t' = b)) /\
  (forall (L : Type) (lower : LowerTransport L) (Ssl : Type)
          (openssl : OpenSSL Ssl) (message : message_ptr)
          (t : TlsTransport L (ssl_fields Ssl)),
      mState t = Connected -> message = None \/ message = Some [] ->
      exists t',
        Ossl.send message t
        = Some (fst (lower_send (mLower t) message), t') /\
        pushed t' = pushed t ++ [message] /\
        mLower t' = snd (lower_send (mLower t) message) /\
        mEngine t' = mEngine t /\ mIncomingQueue t' = mIncomingQueue t /\
        mIncomingMessage t' = mIncomingMessage t /\
        state_eq t t' /\ delivered t' = delivered t /\
        mOutgoingResult t' = mOutgoingResult t).
Proof.
  split; [|split].
  - intros L lower Session gnutls fuel message t Hs Hm.
    unfold Gnu.send, state. unfold bind at 1. unfold gets at 1.
    rewrite Hs, State_eqb_refl. cbn [negb].
    assert (E : match message with
                | None => Gnu.outgoing message
                | Some m => if size m =? 0 then Gnu.outgoing message
                            else (r <- Gnu.send_loop fuel m;;
                                  ok <- check_result (gnutls_check r);;
                                  if negb ok then throw "TLS send failed"%string
                                  else gets (@mOutgoingResult L Session))
                end t = Gnu.outgoing message t)
      by (destruct Hm as [->| ->]; reflexivity).
    rewrite E. unfold Gnu.outgoing, Transport_outgoing. run_red.
    destruct (lower_send (mLower t) message) as [[b|e] l']; eexists;
      (split; [reflexivity|]); cbn; repeat split; auto;
      intros b0 Hb0; congruence.
  - intros L lower Ssl mbedtls message t Hs Hm.
    unfold Mbed.send, state. unfold bind at 1. unfold gets at 1.
    rewrite Hs, State_eqb_refl. cbn [negb].
    assert (E : match message with
                | None => Mbed.outgoing message
                | Some m => if size m =? 0 then Mbed.outgoing message
                            else (r <- Mbed.call
                                         (mbedtls_ssl_write m (to_int (size m)));;
                                  check_result (mbedtls_check r);;
                                  gets (@mOutgoingResult L Ssl))
                end t = Mbed.outgoing message t)
      by (destruct Hm as [->| ->]; reflexivity).
    rewrite E. unfold Mbed.outgoing, Transport_outgoing. run_red.
    destruct (lower_send (mLower t) message) as [[b|e] l']; eexists;
      (split; [reflexivity|]); cbn; repeat split; auto;
      intros b0 Hb0; congruence.
  - intros L lower Ssl openssl message t Hs Hm.
    unfold Ossl.send, state. unfold bind at 1. unfold gets at 1.
    rewrite Hs, State_eqb_refl. cbn [negb].
    assert (E : match message with
                | None => Ossl.outgoing message
                | Some m => if size m =? 0 then Ossl.outgoing message
                            else (rb <- Ossl.call
                                          (SSL_write m (to_int (size m)));;
                                  ok <- Ossl.check (fst rb);;
                                  if negb ok then throw "TLS send failed"%string
                                  else Ossl.flushOutput)
                end t = Ossl.outgoing message t)
      by (destruct Hm as [->| ->]; reflexivity).
    rewrite E. unfold Ossl.outgoing, Transport_outgoing.
    destruct (lower_send (mLower t) message) as [r l']; eexists;
      (split; [reflexivity|]); cbn; repeat split; auto.
Qed.

Lemma send_passes_empty_messages_through_witness :
  let o : TlsTransport (list (outcome bool)) (ssl_fields ssl_script) :=
    set_mState Connected
      (fresh [Throw "Connection is not open"%string] (mkSsl (true, []) [] [x17])) in
  (exists t',
      Gnu.send 2 None corked_gnutls = Some (Ok false, t') /\
      pushed t' = [None] /\ mOutgoingResult t' = false) /\
  (exists t',
      Mbed.send (Some []) corked_mbedtls = Some (Ok false, t') /\
      pushed t' = [Some []] /\ mEngine t' = mEngine corked_mbedtls) /\
  (exists t',
      Ossl.send None o = Some (Throw "Connection is not open"%string, t') /\
      pushed t' = [None] /\ mEngine t' = mEngine o).
Proof.
  intro o. destruct send_passes_empty_messages_through as (G & B & O).
  split; [|split].
  - destruct (G _ _ _ gnutls 2%nat None corked_gnutls eq_refl
                (or_introl eq_refl)) as (t' & H1 & H2 & _ & _ & _ & _ & _ & _ & H3).
    exists t'. split; [exact H1|]. split; [exact H2|]. now apply H3.
  - destruct (B _ _ _ mbedtls (Some []) corked_mbedtls eq_refl
                (or_intror eq_refl)) as (t' & H1 & H2 & _ & H3 & _).
    exists t'. split; [exact H1|]. split; [exact H2|exact H3].
  - destruct (O _ _ _ openssl None o eq_refl (or_introl eq_refl))
      as (t' & H1 & H2 & _ & H3 & _).
    exists t'. split; [exact H1|]. split; [exact H2|exact H3].
Defined.

(** ** Sending a record *)

Lemma set_mEngine_same (L E : Type) (t : TlsTransport L E) :
  set_mEngine (mEngine t) t = t.
Proof. destruct t. reflexivity. Qed.

(** X6.  GnuTLS [send] (lines 130-133) does not hand a would-block back
    to its caller: when [gnutls_record_send] answers [GNUTLS_E_AGAIN] or
    [GNUTLS_E_INTERRUPTED] it is called again at once, so against an
    engine that gives that answer and stays as it is, [send] of a
    non-empty message in state [Connected] does not return, whatever the
    number of turns allowed to the loop. *)
Theorem Gnu_send_retries_without_end :
  forall (L : Type) (lower : LowerTransport L) (Session : Type)
         (gnutls : GnuTLS Session) (m : binary) (t : TlsTransport L Session),
    mState t = Connected -> m <> [] ->
    gnutls_record_send m (mEngine t) = Return (GNUTLS_E_AGAIN, mEngine t) \/
    gnutls_record_send m (mEngine t)
    = Return (GNUTLS_E_INTERRUPTED, mEngine t) ->
    forall fuel, Gnu.send fuel (Some m) t = None.
Proof.
  intros L lower Session gnutls m t Hs Hm He fuel.
  assert (Hloop : Gnu.send_loop fuel m t = None).
  { induction fuel as [|fuel IH]; [reflexivity|].
    cbn [Gnu.send_loop]. unfold Gnu.call.
    unfold bind at 1. unfold bind at 1. unfold gets at 1.
    destruct He as [He|He]; rewrite He; cbn [Gnu.run];
      unfold bind at 1; unfold ret at 1; unfold bind at 1; unfold modify at 1;
      cbn [snd fst]; rewrite set_mEngine_same; unfold ret at 1;
      rewrite !Z.eqb_refl, ?orb_true_r; cbn [orb]; exact IH. }
  unfold Gnu.send, state. unfold bind at 1. unfold gets at 1.
  rewrite Hs, State_eqb_refl. cbn [negb]. rewrite (size_eqb_false Hm).
  unfold bind at 1. now rewrite Hloop.
Qed.

Lemma Gnu_send_retries_without_end_witness :
  Gnu.send 64 (Some [x01; x02])
    (set_mState Connected
       (fresh ([] : list (outcome bool)) ([] : script gnutls_answer)))
  = None.
Proof.
  apply Gnu_send_retries_without_end;
    [reflexivity|discriminate|left; reflexivity].
Defined.

(** X7.  What [send] makes of a record write that the helper of
    tls.cpp reports as not done ([check] answers [false], the code
    being negative and not fatal).  The GnuTLS variant (lines 135-136)
    and the OpenSSL variant (lines 658-659) throw "TLS send failed".
    The MbedTLS variant (lines 382-385) drops the boolean of
    [mbedtls::check]: whether it is [true] or [false], [send] returns
    the stored [mOutgoingResult] as after a write that was done. *)
Theorem send_after_a_write_not_done :
  (forall (L : Type) (lower : LowerTransport L) (Session : Type)
          (gnutls : GnuTLS Session) (fuel : nat) (m : binary) (r : Z)
          (t t1 : TlsTransport L Session),
      mState t = Connected -> m <> [] ->
      Gnu.send_loop fuel m t = Some (Ok r, t1) ->
      gnutls_check r = Ok false ->
      Gnu.send fuel (Some m) t = Some (Throw "TLS send failed"%string, t1)) /\
  (forall (L : Type) (lower : LowerTransport L) (Ssl : Type)
          (mbedtls : MbedTLS Ssl) (m : binary) (r : Z) (b : bool)
          (t t1 : TlsTransport L Ssl),
      mState t = Connected -> m <> [] ->
      Mbed.call (mbedtls_ssl_write m (to_int (size m))) t = Some (Ok r, t1) ->
      mbedtls_check r = Ok b ->
      Mbed.send (Some m) t = Some (Ok (mOutgoingResult t1), t1)) /\
  (forall (L : Type) (lower : LowerTransport L) (Ssl : Type)
          (openssl : OpenSSL Ssl) (m : binary) (rb : Z * binary)
          (t t1 : TlsTransport L (ssl_fields Ssl)),
      mState t = Connected -> m <> [] ->
      Ossl.call (SSL_write m (to_int (size m))) t = Some (Ok rb, t1) ->
      openssl_check (mSsl (mEngine t1)) (fst rb) = Ok false ->
      Ossl.send (Some m) t = Some (Throw "TLS send failed"%string, t1)).
Proof.
  split; [|split].
  - intros L lower Session gnutls fuel m r t t1 Hs Hm Hl Hc.
    unfold Gnu.send, state. unfold bind at 1. unfold gets at 1.
    rewrite Hs, State_eqb_refl. cbn [negb]. rewrite (size_eqb_false Hm).
    erewrite bind_Ok by exact Hl. unfold check_result, bind.
    rewrite Hc. reflexivity.
  - intros L lower Ssl mbedtls m r b t t1 Hs Hm Hl Hc.
    unfold Mbed.send, state. unfold bind at 1. unfold gets at 1.
    rewrite Hs, State_eqb_refl. cbn [negb]. rewrite (size_eqb_false Hm).
    erewrite bind_Ok by exact Hl. unfold check_result, bind, gets.
    rewrite Hc. reflexivity.
  - intros L lower Ssl openssl m rb t t1 Hs Hm Hl Hc.
    unfold Ossl.send, state. unfold bind at 1. unfold gets at 1.
    rewrite Hs, State_eqb_refl. cbn [negb]. rewrite (size_eqb_false Hm).
    erewrite bind_Ok by exact Hl. unfold Ossl.check, check_result, bind, gets.
    rewrite Hc. reflexivity.
Qed.

Lemma send_after_a_write_not_done_witness :
  let g : TlsTransport (list (outcome bool)) (script gnutls_answer) :=
    set_mState Connected (fresh [] [Return (-16, [])]) in
  let m : TlsTransport (list (outcome bool)) (script mbedtls_answer) :=
    set_mState Connected (fresh [] [Return (-26752, [])]) in
  let o : TlsTransport (list (outcome bool)) (ssl_fields ssl_script) :=
    set_mState Connected
      (fresh [] (mkSsl (true, [mkReply 0 [] [] [] true]) [] [])) in
  Gnu.send 2 (Some [x01]) g
  = Some (Throw "TLS send failed"%string, set_mEngine [] g) /\
  Mbed.send (Some [x01]) m = Some (Ok true, set_mEngine [] m) /\
  Ossl.send (Some [x01]) o
  = Some (Throw "TLS send failed"%string,
          set_mEngine (mkSsl (true, []) [] []) o).
Proof.
  intros g m o. destruct send_after_a_write_not_done as (G & B & O).
  split; [|split].
  - apply (G _ _ _ gnutls 2%nat [x01] (-16) g (set_mEngine [] g));
      [reflexivity|discriminate|reflexivity|reflexivity].
  - apply (B _ _ _ mbedtls [x01] (-26752) false m (set_mEngine [] m));
      [reflexivity|discriminate|reflexivity|reflexivity].
  - apply (O _ _ _ openssl [x01] (0, []) o
             (set_mEngine (mkSsl (true, []) [] []) o));
      [reflexivity|discriminate|reflexivity|reflexivity].
Defined.

(** ** The entry points of other threads *)

Lemma enqueueRecv_effect (L E : Type) (t : TlsTransport L E) :
  enqueueRecv t = Some (Ok tt, t) \/
  (mPendingRecvCount t <= 0 /\ owned t = true /\
   enqueueRecv t
   = Some (Ok tt,
           set_pool (S (pool t))
             (set_mPendingRecvCount (mPendingRecvCount t + 1) t))).
Proof.
  unfold enqueueRecv. run_red.
  destruct (mPendingRecvCount t >? 0) eqn:Hg; [now left|].
  rewrite Z.gtb_ltb, Z.ltb_ge in Hg.
  destruct (owned t) eqn:Ho; [right|now left].
  repeat split; auto.
Qed.

(** X8.  [stop] (lines 114-119, 366-371, 641-646) and [incoming]
    (lines 141-151, 388-398, 664-674) do no TLS work on the caller's
    thread.  [stop] and [incoming(nullptr)] always return.  [incoming]
    of a message returns once its push onto the queue is done; a push
    waits while the queue is at its limit, so nothing is said here on
    whether that call returns, only on what holds when it has.  After
    each of them the state, the notifications, the deliveries to the
    upper layer, what was handed to the lower transport, the engine and
    the cursor are as before.  [stop] leaves the incoming path
    unregistered, and [stop] and [incoming(nullptr)] leave the queue
    stopped with its buffers still queued; each call adds at most one
    task to the pool, and none when the instance has no owner left. *)
Theorem stop_and_incoming_leave_the_work_to_the_task :
  forall (L E : Type) (t : TlsTransport L E),
    (exists t',
        stop t = Some (Ok tt, t') /\
        state_eq t t' /\ delivered t' = delivered t /\
        pushed t' = pushed t /\ mLower t' = mLower t /\
        mEngine t' = mEngine t /\
        mIncomingMessage t' = mIncomingMessage t /\
        mIncomingMessagePosition t' = mIncomingMessagePosition t /\
        registered t' = false /\
        stopped (mIncomingQueue t') = true /\
        items (mIncomingQueue t') = items (mIncomingQueue t) /\
        (pool t' = pool t \/ pool t' = S (pool t)) /\
        (owned t = false -> pool t' = pool t)) /\
    (exists t',
        incoming None t = Some (Ok tt, t') /\
        stopped (mIncomingQueue t') = true /\
        items (mIncomingQueue t') = items (mIncomingQueue t)) /\
    (forall message r t',
        incoming message t = Some (r, t') ->
        r = Ok tt /\
        state_eq t t' /\ delivered t' = delivered t /\
        pushed t' = pushed t /\ mLower t' = mLower t /\
        mEngine t' = mEngine t /\
        mIncomingMessage t' = mIncomingMessage t /\
        mIncomingMessagePosition t' = mIncomingMessagePosition t /\
        registered t' = registered t /\
        (pool t' = pool t \/ pool t' = S (pool t)) /\
        (owned t = false -> pool t' = pool t)).
Proof.
  intros L E t. split; [|split].
  - unfold stop, unregisterIncoming.
    unfold bind at 1. unfold modify at 1. unfold bind at 1. unfold modify at 1.
    match goal with
    | |- context [enqueueRecv ?s] =>
        destruct (enqueueRecv_effect s) as [H|(_ & Ho & H)]; rewrite H
    end.
    + eexists. split; [reflexivity|]. cbn.
      repeat split; auto.
    + eexists. split; [reflexivity|]. cbn. cbn in Ho.
      repeat split; auto. intro K. congruence.
  - unfold incoming. unfold bind at 1. unfold modify at 1.
    match goal with
    | |- context [enqueueRecv ?s] =>
        destruct (enqueueRecv_effect s) as [H|(_ & Ho & H)]; rewrite H
    end;
    eexists; (split; [reflexivity|]); cbn; auto.
  - intros message r t' Hi. revert Hi.
    destruct message as [m|]; unfold incoming;
      unfold bind at 1; unfold modify at 1;
      match goal with
      | |- context [enqueueRecv ?s] =>
          destruct (enqueueRecv_effect s) as [H|(_ & Ho & H)]; rewrite H
      end;
      intro Hi; inversion Hi; subst r t'; cbn; try (cbn in Ho);
      repeat split; auto; intro K; congruence.
Qed.

Lemma stop_and_incoming_leave_the_work_to_the_task_witness :
  exists t',
    incoming (Some [x16; x03; x01]) started_gnutls = Some (Ok tt, t') /\
    state_eq started_gnutls t' /\ delivered t' = delivered started_gnutls /\
    mEngine t' = mEngine started_gnutls /\
    (pool t' = pool started_gnutls \/ pool t' = S (pool started_gnutls)).
Proof.
  destruct (stop_and_incoming_leave_the_work_to_the_task started_gnutls)
    as (_ & _ & I).
  eexists. split; [vm_compute; reflexivity|].
  destruct (I (Some [x16; x03; x01]) _ _ eq_refl)
    as (_ & A & B & _ & _ & C & _ & _ & _ & D & _).
  auto.
Defined.

(** X9.  [stop] twice is [stop] once: on an instance whose counter is
    not negative, the second of two calls in a row changes no field, so
    it neither schedules a second task nor undoes anything. *)
Theorem stop_twice_is_stop_once :
  forall (L E : Type) (t : TlsTransport L E),
    0 <= mPendingRecvCount t ->
    (stop;; stop) t = stop t.
Proof.
  intros L E t Hc.
  destruct t as [l st nt dl ps rg ow pl ct [q stp] msg pos ores e].
  cbn in Hc. unfold stop, unregisterIncoming, enqueueRecv. run_red. cbn.
  destruct (ct >? 0) eqn:Hg.
  - cbn. rewrite Hg. reflexivity.
  - rewrite Z.gtb_ltb, Z.ltb_ge in Hg. assert (ct = 0) by lia. subst ct.
    destruct ow; cbn; reflexivity.
Qed.

Lemma stop_twice_is_stop_once_witness :
  (stop;; stop) scripted_gnutls = stop scripted_gnutls.
Proof. apply stop_twice_is_stop_once. cbn. lia. Defined.

(** ** The moves of the state under [doRecv] *)

Lemma total_nothrow (S A : Type) (m : M S A) : total m -> nothrow m.
Proof.
  intros H s r s' Hm. destruct (H s) as (a & s1 & Ha).
  rewrite Ha in Hm. inversion Hm; subst. eauto.
Qed.

Lemma doRecv_resolve_nothrow (L E : Type) :
  nothrow (doRecv_resolve (L:=L) (E:=E)).
Proof. unfold doRecv_resolve. nothrow_tac. Qed.

Lemma doRecv_enter_nothrow (L E : Type) :
  nothrow (doRecv_enter (L:=L) (E:=E)).
Proof. unfold doRecv_enter. nothrow_tac. Qed.

Lemma Gnu_doRecv_nothrow (L : Type) (lower : LowerTransport L)
  (Session : Type) (gnutls : GnuTLS Session) (fuel : nat) :
  nothrow (Gnu.doRecv (L:=L) (Session:=Session) fuel).
Proof.
  pose proof (doRecv_resolve_nothrow (L:=L) (E:=Session)).
  pose proof (doRecv_enter_nothrow (L:=L) (E:=Session)).
  pose proof (total_nothrow (Gnu_call_total (L:=L) gnutls_bye)).
  unfold Gnu.doRecv, Gnu.doRecv_run, Gnu.doRecv_try. nothrow_tac.
Qed.

Lemma Mbed_doRecv_nothrow (L : Type) (lower : LowerTransport L)
  (Ssl : Type) (mbedtls : MbedTLS Ssl) (fuel : nat) :
  nothrow (Mbed.doRecv (L:=L) (Ssl:=Ssl) fuel).
Proof.
  pose proof (doRecv_resolve_nothrow (L:=L) (E:=Ssl)).
  pose proof (doRecv_enter_nothrow (L:=L) (E:=Ssl)).
  unfold Mbed.doRecv, Mbed.doRecv_run, Mbed.doRecv_try. nothrow_tac.
Qed.

Lemma Ossl_doRecv_nothrow (L : Type) (lower : LowerTransport L)
  (Ssl : Type) (openssl : OpenSSL Ssl) (fuel : nat) :
  nothrow (Ossl.doRecv (L:=L) (Ssl:=Ssl) fuel).
Proof.
  pose proof (doRecv_resolve_nothrow (L:=L) (E:=ssl_fields Ssl)).
  pose proof (doRecv_enter_nothrow (L:=L) (E:=ssl_fields Ssl)).
  pose proof (total_nothrow (Ossl_call_total (L:=L) (Ssl:=Ssl) SSL_shutdown)).
  unfold Ossl.doRecv, Ossl.doRecv_run, Ossl.doRecv_try. nothrow_tac.
Qed.

(** X10.  In each variant, no exception ever leaves [doRecv]: whatever
    the engine, the helpers of tls.cpp or the lower transport throw
    under it -- in the MbedTLS variant also through the write callback,
    which catches nothing -- is caught by the handler of lines 211-213,
    470-472 and 730-732, and the calls made after the handler
    ([gnutls_bye], [SSL_shutdown], the last statement) do not throw. *)
Theorem doRecv_lets_no_exception_out :
  (forall (L : Type) (lower : LowerTransport L) (Session : Type)
          (gnutls : GnuTLS Session) (fuel : nat) (t : TlsTransport L Session)
          r t',
      Gnu.doRecv fuel t = Some (r, t') -> r = Ok tt) /\
  (forall (L : Type) (lower : LowerTransport L) (Ssl : Type)
          (mbedtls : MbedTLS Ssl) (fuel : nat) (t : TlsTransport L Ssl) r t',
      Mbed.doRecv fuel t = Some (r, t') -> r = Ok tt) /\
  (forall (L : Type) (lower : LowerTransport L) (Ssl : Type)
          (openssl : OpenSSL Ssl) (fuel : nat)
          (t : TlsTransport L (ssl_fields Ssl)) r t',
      Ossl.doRecv fuel t = Some (r, t') -> r = Ok tt).
Proof.
  split; [|split]; intros * H.
  - apply Gnu_doRecv_nothrow in H. destruct H as [[] ->]. reflexivity.
  - apply Mbed_doRecv_nothrow in H. destruct H as [[] ->]. reflexivity.
  - apply Ossl_doRecv_nothrow in H. destruct H as [[] ->]. reflexivity.
Qed.

Lemma doRecv_lets_no_exception_out_witness :
  exists t',
    Mbed.doRecv 3 unplugged_mbedtls = Some (Ok tt, t') /\
    mState t' = Failed /\ pushed t' = [Some [x16; x03; x01]].
Proof.
  destruct doRecv_lets_no_exception_out as (_ & B & _).
  destruct (Mbed.doRecv 3 unplugged_mbedtls) as [[r t']|] eqn:H;
    [|vm_compute in H; discriminate].
  pose proof (B _ _ _ _ _ _ _ _ H) as Hr. subst r.
  exists t'. split; [reflexivity|].
  vm_compute in H. inversion H. split; reflexivity.
Defined.

Section Moves.
Context {L E : Type}.
Local Abbreviation T := (TlsTransport L E).

Lemma state_eq_handshake_only (t t' : T) : state_eq t t' -> handshake_only t t'.
Proof. intro H. split; auto. Qed.

#[export] Instance handshake_only_preorder : PreOrder (@handshake_only L E).
Proof.
  split.
  - intro t. apply state_eq_handshake_only. reflexivity.
  - intros a b c [H1 H2] [H3 H4]. split.
    + intro Ha. specialize (H1 Ha).
      assert (Hb : mState b = Connected) by (destruct H1; congruence).
      etransitivity; [exact H1|exact (H3 Hb)].
    + intro Ha. destruct (H2 Ha) as [S1|[S1 N1]].
      * assert (Hb : mState b = Connecting) by (destruct S1; congruence).
        destruct (H4 Hb) as [S2|[S2 N2]].
        -- left. etransitivity; eassumption.
        -- right. destruct S1 as [_ N1]. split; [exact S2|congruence].
      * right. destruct (H3 S1) as [S2 N2]. split; congruence.
Qed.

#[export] Instance handshake_only_frame : CallbackFrame (@handshake_only L E).
Proof.
  split; try typeclasses eauto; intros; apply state_eq_handshake_only;
    unfold state_eq; simpl; auto.
Qed.

Lemma changeState_handshake_only :
  keeps handshake_only (changeState (L:=L) (E:=E) Connected).
Proof.
  intros t r t' H. unfold changeState, modify in H. inversion H; subst.
  split; intro Hs; rewrite Hs.
  - rewrite State_eqb_refl. reflexivity.
  - change (State_eqb Connecting Connected) with false. cbv iota.
    right. split; reflexivity.
Qed.

Lemma doRecv_enter_handshake_only :
  keeps handshake_only (doRecv_enter (L:=L) (E:=E)).
Proof.
  unfold doRecv_enter.
  keeps_with ltac:(apply state_eq_handshake_only; unfold state_eq; simpl; auto).
Qed.

(** What follows [doRecv_run] in each variant's [doRecv]. *)
Lemma moves_after (run : M T flow) (t : T) r t' :
  keeps handshake_only run ->
  (f <- run;; match f with Returned => ret tt | Fell => doRecv_resolve end) t
    = Some (r, t') ->
  doRecv_moves t t'.
Proof.
  intros Hk H. apply bind_Some in H.
  assert (Hearly : forall t1, handshake_only t t1 -> doRecv_moves t t1).
  { intros t1 [H1 H2]. split; intro Hs; [left; auto|].
    destruct (H2 Hs) as [K|K]; [left; exact K|right; left; exact K]. }
  destruct H as [(f & t1 & Hr & H)|(e & Hr & _)];
    [|apply Hearly; eapply Hk; exact Hr].
  pose proof (Hk _ _ _ Hr) as Ho.
  destruct f; [inversion H; subst; now apply Hearly|].
  destruct Ho as [H1 H2]. split; intro Hs.
  - destruct (H1 Hs) as [S1 N1].
    destruct (doRecv_resolve_spec t1) as (t2 & Hd & Hc & _).
    rewrite Hd in H. inversion H; subst t2.
    destruct Hc as (A & B & _); [congruence|].
    right. split; [exact A|congruence].
  - destruct (H2 Hs) as [[S1 N1]|[S1 N1]].
    + assert (Hne : mState t1 <> Connected) by congruence.
      rewrite doRecv_resolve_Failed in H by exact Hne.
      rewrite S1, Hs in H. change (State_eqb Connecting Failed) with false in H.
      inversion H; subst. right. right. left. cbn. split; congruence.
    + destruct (doRecv_resolve_spec t1) as (t2 & Hd & Hc & _).
      rewrite Hd in H. inversion H; subst t2.
      destruct (Hc S1) as (A & B & _).
      right. right. right. split; [exact A|].
      rewrite B, N1, <- app_assoc. reflexivity.
Qed.

End Moves.

Lemma Gnu_doRecv_run_handshake_only (L : Type) (lower : LowerTransport L)
  (Session : Type) (gnutls : GnuTLS Session) (fuel : nat) :
  keeps handshake_only (Gnu.doRecv_run (L:=L) (Session:=Session) fuel).
Proof.
  pose proof (doRecv_enter_handshake_only (L:=L) (E:=Session)).
  pose proof (Gnu_doRecv_try_keeps (R:=handshake_only) fuel
                changeState_handshake_only).
  pose proof (Gnu_call_keeps (R:=handshake_only)).
  unfold Gnu.doRecv_run. keeps_with solve_frame.
Qed.

Lemma Mbed_doRecv_run_handshake_only (L : Type) (lower : LowerTransport L)
  (Ssl : Type) (mbedtls : MbedTLS Ssl) (fuel : nat) :
  keeps handshake_only (Mbed.doRecv_run (L:=L) (Ssl:=Ssl) fuel).
Proof.
  pose proof (doRecv_enter_handshake_only (L:=L) (E:=Ssl)).
  pose proof (Mbed_doRecv_try_keeps (R:=handshake_only) fuel
                changeState_handshake_only).
  unfold Mbed.doRecv_run. keeps_with solve_frame.
Qed.

Lemma Ossl_doRecv_run_handshake_only (L : Type) (lower : LowerTransport L)
  (Ssl : Type) (openssl : OpenSSL Ssl) (fuel : nat) :
  keeps handshake_only (Ossl.doRecv_run (L:=L) (Ssl:=Ssl) fuel).
Proof.
  pose proof (doRecv_enter_handshake_only (L:=L) (E:=ssl_fields Ssl)).
  pose proof (Ossl_doRecv_try_keeps (R:=handshake_only) fuel
                changeState_handshake_only).
  pose proof (Ossl_call_keeps (L:=L) (Ssl:=Ssl) (R:=handshake_only)).
  unfold Ossl.doRecv_run. keeps_with solve_frame.
Qed.

(** X11.  The moves of the state under one [doRecv], in each variant
    and however the engine, the helpers and the lower transport behave.
    Found [Connected], the state is left [Connected] with no
    notification, or [Disconnected] with that one notification: a
    connected session never ends in [Failed].  Found [Connecting], it is
    left [Connecting] with no notification, or [Connected], or [Failed],
    each with that one notification, or [Disconnected] after the two
    notifications [Connected] and [Disconnected]: [Disconnected] is not
    reached without passing [Connected]. *)
Theorem doRecv_moves_the_state_along_the_session :
  (forall (L : Type) (lower : LowerTransport L) (Session : Type)
          (gnutls : GnuTLS Session) (fuel : nat) (t : TlsTransport L Session)
          r t',
      Gnu.doRecv fuel t = Some (r, t') -> doRecv_moves t t') /\
  (forall (L : Type) (lower : LowerTransport L) (Ssl : Type)
          (mbedtls : MbedTLS Ssl) (fuel : nat) (t : TlsTransport L Ssl) r t',
      Mbed.doRecv fuel t = Some (r, t') -> doRecv_moves t t') /\
  (forall (L : Type) (lower : LowerTransport L) (Ssl : Type)
          (openssl : OpenSSL Ssl) (fuel : nat)
          (t : TlsTransport L (ssl_fields Ssl)) r t',
      Ossl.doRecv fuel t = Some (r, t') -> doRecv_moves t t').
Proof.
  split; [|split]; intros * H.
  - eapply moves_after; [apply Gnu_doRecv_run_handshake_only|exact H].
  - eapply moves_after; [apply Mbed_doRecv_run_handshake_only|exact H].
  - eapply moves_after; [apply Ossl_doRecv_run_handshake_only|exact H].
Qed.

Lemma doRecv_moves_the_state_along_the_session_witness :
  exists t',
    Gnu.doRecv 3 rejected_gnutls = Some (Ok tt, t') /\
    doRecv_moves rejected_gnutls t' /\
    mState t' = Failed /\ notified t' = [Failed].
Proof.
  destruct doRecv_moves_the_state_along_the_session as (G & _ & _).
  destruct (Gnu.doRecv 3 rejected_gnutls) as [[r t']|] eqn:H;
    [|vm_compute in H; discriminate].
  pose proof (G _ _ _ _ _ _ _ _ H) as Hm.
  exists t'. vm_compute in H. inversion H; subst.
  split; [reflexivity|]. split; [exact Hm|]. split; reflexivity.
Defined.

(** ** Starting *)

Lemma start_bookkeeping (L E : Type) (t : TlsTransport L E) :
  exists t',
    (registerIncoming;; changeState Connecting;; enqueueRecv) t
    = Some (Ok tt, t') /\
    mState t' = Connecting /\
    notified t' = (if State_eqb (mState t) Connecting then notified t
                   else notified t ++ [Connecting]) /\
    registered t' = true /\
    mEngine t' = mEngine t /\ pushed t' = pushed t /\
    mLower t' = mLower t /\ delivered t' = delivered t /\
    mIncomingQueue t' = mIncomingQueue t /\
    (mPendingRecvCount t = 0 -> owned t = true ->
     pool t' = S (pool t) /\ mPendingRecvCount t' = 1).
Proof.
  destruct t as [l st nt dl ps rg ow pl ct q msg pos ores e].
  unfold registerIncoming, changeState, enqueueRecv. run_red. cbn.
  destruct (State_eqb st Connecting) eqn:Hs;
    [apply State_eqb_eq in Hs; subst st|];
    cbn; destruct (ct >? 0) eqn:Hg; try destruct ow; cbn;
    eexists; (split; [reflexivity|]); cbn;
    repeat apply conj; try reflexivity; intros Hc Ho; subst;
    try discriminate; split; reflexivity.
Qed.

(** X12.  [start] of the GnuTLS and MbedTLS variants (lines 107-112,
    359-364) always returns and does no TLS work itself: the engine, the
    lower transport, the queue and the deliveries are as before.  It
    registers the incoming path, leaves the state [Connecting] (telling
    the observer unless the state was [Connecting] already) and, with no
    task pending on an owned instance, schedules the one task that will
    call the handshake. *)
Theorem Gnu_and_Mbed_start_leave_the_handshake_to_the_task :
  (forall (L Session : Type) (t : TlsTransport L Session),
      exists t',
        Gnu.start t = Some (Ok tt, t') /\
        mState t' = Connecting /\
        notified t' = (if State_eqb (mState t) Connecting then notified t
                       else notified t ++ [Connecting]) /\
        registered t' = true /\
        mEngine t' = mEngine t /\ pushed t' = pushed t /\
        mLower t' = mLower t /\ delivered t' = delivered t /\
        mIncomingQueue t' = mIncomingQueue t /\
        (mPendingRecvCount t = 0 -> owned t = true ->
         pool t' = S (pool t) /\ mPendingRecvCount t' = 1)) /\
  (forall (L Ssl : Type) (t : TlsTransport L Ssl),
      exists t',
        Mbed.start t = Some (Ok tt, t') /\
        mState t' = Connecting /\
        notified t' = (if State_eqb (mState t) Connecting then notified t
                       else notified t ++ [Connecting]) /\
        registered t' = true /\
        mEngine t' = mEngine t /\ pushed t' = pushed t /\
        mLower t' = mLower t /\ delivered t' = delivered t /\
        mIncomingQueue t' = mIncomingQueue t /\
        (mPendingRecvCount t = 0 -> owned t = true ->
         pool t' = S (pool t) /\ mPendingRecvCount t' = 1)).
Proof.
  split; intros; apply start_bookkeeping.
Qed.

Lemma Queue_stop_twice (L E : Type) (t : TlsTransport L E) :
  set_mIncomingQueue
    (Queue_stop (mIncomingQueue
                   (set_mIncomingQueue (Queue_stop (mIncomingQueue t)) t)))
    (set_mIncomingQueue (Queue_stop (mIncomingQueue t)) t)
  = set_mIncomingQueue (Queue_stop (mIncomingQueue t)) t.
Proof. destruct t. reflexivity. Qed.

Lemma Ossl_InfoCallbacks_effect (L : Type) (Ssl : Type)
  (openssl : OpenSSL Ssl) (l : list (Z * Z))
  (t : TlsTransport L (ssl_fields Ssl)) :
  Ossl.InfoCallbacks l t = Some (Ok tt, t) \/
  Ossl.InfoCallbacks l t
  = Some (Ok tt, set_mIncomingQueue (Queue_stop (mIncomingQueue t)) t).
Proof.
  revert t. induction l as [|c l IH]; intro t; cbn [Ossl.InfoCallbacks].
  - now left.
  - unfold Ossl.InfoCallback.
    destruct (negb (Z.land (fst c) SSL_CB_ALERT =? 0)).
    + right. unfold bind, modify.
      destruct (IH (set_mIncomingQueue (Queue_stop (mIncomingQueue t)) t))
        as [H|H]; rewrite H; [reflexivity|now rewrite Queue_stop_twice].
    + unfold bind, ret. apply IH.
Qed.

(** X13.  [start] of the OpenSSL variant (lines 629-639) always ends,
    and does the first handshake call itself: it schedules no task, it
    registers the incoming path and leaves the state [Connecting], and
    the engine has taken the one step of [SSL_do_handshake].  When it
    returns, every byte the engine wrote has been handed to the lower
    transport, in order, and the output BIO is empty.  When
    [openssl::check] throws, that exception leaves [start] with the
    state already [Connecting] and nothing handed to the lower
    transport: what the engine wrote stays in the output BIO. *)
Theorem Ossl_start_makes_the_first_handshake_call :
  forall (L : Type) (lower : LowerTransport L) (Ssl : Type)
         (openssl : OpenSSL Ssl) (t : TlsTransport L (ssl_fields Ssl)),
    let eff := SSL_do_handshake (mSsl (mEngine t)) (mInBio (mEngine t)) in
    exists r t' l,
      Ossl.start t = Some (r, t') /\
      mState t' = Connecting /\ registered t' = true /\
      sched_eq t t' /\ delivered t' = delivered t /\
      pushed t' = pushed t ++ map Some l /\
      List.concat l ++ mOutBio (mEngine t')
      = mOutBio (mEngine t) ++ ssl_out eff /\
      mSsl (mEngine t') = ssl_next eff /\
      (r = Ok tt -> mOutBio (mEngine t') = []) /\
      (forall w, openssl_check (ssl_next eff) (ssl_ret eff) = Throw w ->
                 r = Throw w /\ l = []).
Proof.
  intros L lower Ssl openssl t eff.
  unfold Ossl.start, registerIncoming, changeState.
  unfold bind at 1. unfold modify at 1. unfold bind at 1. unfold modify at 1.
  cbn [mState set_registered].
  match goal with
  | |- context [bind (Ossl.call SSL_do_handshake) _ ?s] => set (tb := s)
  end.
  assert (Htb : mState tb = Connecting /\ registered tb = true /\
                mEngine tb = mEngine t /\ sched_eq t tb /\
                delivered tb = delivered t /\ pushed tb = pushed t).
  { subst tb. destruct (State_eqb (mState t) Connecting) eqn:Hs;
      [apply State_eqb_eq in Hs|]; unfold sched_eq; cbn; auto 10. }
  clearbody tb. destruct Htb as (B1 & B2 & B3 & B4 & B5 & B6).
  unfold Ossl.call. unfold bind at 1. unfold bind at 1. unfold gets at 1.
  unfold bind at 1. unfold modify at 1. rewrite B3. fold eff.
  match goal with
  | |- context [bind (Ossl.InfoCallbacks _) _ ?s] => set (tc0 := s)
  end.
  assert (Hcall : exists tc,
             Ossl.InfoCallbacks (ssl_info eff) tc0 = Some (Ok tt, tc) /\
             mState tc = Connecting /\ registered tc = true /\
             sched_eq t tc /\ delivered tc = delivered t /\
             pushed tc = pushed t /\
             mEngine tc = mkSsl (ssl_next eff) (ssl_in eff)
                            (mOutBio (mEngine t) ++ ssl_out eff)).
  { destruct (Ossl_InfoCallbacks_effect openssl (ssl_info eff) tc0) as [H|H];
      eexists; (split; [exact H|]); subst tc0; cbn;
      repeat apply conj; auto; destruct B4 as (S1 & S2 & S3);
      unfold sched_eq; cbn; auto. }
  destruct Hcall as (tc & Hi & C1 & C2 & C3 & C4 & C5 & C6).
  clearbody tc0. unfold bind at 1. rewrite Hi. unfold ret at 1.
  cbv beta iota. cbn [fst].
  unfold Ossl.check. unfold bind at 1. unfold bind at 1. unfold gets at 1.
  rewrite C6. cbn [mSsl]. unfold check_result at 1.
  destruct (openssl_check (ssl_next eff) (ssl_ret eff)) as [b|w] eqn:Hchk.
  - destruct (Ossl_flushOutput_spec lower tc)
      as (r & t' & l & F1 & F2 & F3 & F4 & F5 & F6 & F7 & F8).
    pose proof (@Ossl_flushOutput_output_only _ lower _ _ _ _ F1)
      as ((O1 & _) & O2 & O3 & O4 & _).
    unfold bind at 1. rewrite F1.
    rewrite C6 in F3, F5. cbn [mOutBio mSsl] in F3, F5.
    assert (Hcommon :
      mState t' = Connecting /\ registered t' = true /\
      sched_eq t t' /\ delivered t' = delivered t /\
      pushed t' = pushed t ++ map Some l /\
      List.concat l ++ mOutBio (mEngine t')
      = mOutBio (mEngine t) ++ ssl_out eff /\
      mSsl (mEngine t') = ssl_next eff).
    { split; [congruence|]. split; [congruence|].
      split; [etransitivity; eassumption|]. split; [congruence|].
      split; [congruence|]. split; assumption. }
    destruct Hcommon as (K1 & K2 & K3 & K4 & K5 & K6 & K7).
    destruct r as [b'|e].
    + exists (Ok tt), t', l. split; [reflexivity|].
      repeat (split; [assumption|]). split.
      * intros _. apply (F7 b' eq_refl).
      * intros w Hw. congruence.
    + exists (Throw e), t', l. split; [reflexivity|].
      repeat (split; [assumption|]). split.
      * discriminate.
      * intros w Hw. congruence.
  - exists (Throw w), tc, []. split; [reflexivity|].
    rewrite C6. cbn [mOutBio mSsl List.concat map app].
    rewrite app_nil_r.
    repeat (split; [assumption || reflexivity|]). split.
    + discriminate.
    + intros w0 Hw. inversion Hw. auto.
Qed.

(** ** The OpenSSL task and the queue *)

Lemma Ossl_call_effect (L : Type) (Ssl : Type) (openssl : OpenSSL Ssl)
  (f : Ssl -> binary -> ssl_effect Ssl) (t : TlsTransport L (ssl_fields Ssl)) :
  let eff := f (mSsl (mEngine t)) (mInBio (mEngine t)) in
  let base :=
    set_mEngine (mkSsl (ssl_next eff) (ssl_in eff)
                   (mOutBio (mEngine t) ++ ssl_out eff)) t in
  Ossl.call f t = Some (Ok (ssl_ret eff, ssl_buffer eff), base) \/
  Ossl.call f t
  = Some (Ok (ssl_ret eff, ssl_buffer eff),
          set_mIncomingQueue (Queue_stop (mIncomingQueue t)) base).
Proof.
  intros eff base. unfold Ossl.call, bind, gets, modify, ret. fold eff base.
  destruct (Ossl_InfoCallbacks_effect openssl (ssl_info eff) base) as [H|H];
    rewrite H; [now left|now right].
Qed.

(** X14.  A [doRecv] of the OpenSSL variant that finds the session
    open and the queue empty but not stopped (lines 694-697) returns at
    once: it takes itself off the counter and changes nothing else; the
    engine is not called, no state is left and nothing is delivered. *)
Theorem Ossl_doRecv_with_nothing_queued_only_returns :
  forall (L : Type) (lower : LowerTransport L) (Ssl : Type)
         (openssl : OpenSSL Ssl) (fuel : nat)
         (t : TlsTransport L (ssl_fields Ssl)),
    mState t = Connecting \/ mState t = Connected ->
    mIncomingQueue t = mkQueue [] false ->
    Ossl.doRecv (S fuel) t = Some (Ok tt, entered t).
Proof.
  intros L lower Ssl openssl fuel t Hs Hq.
  destruct t as [l st nt dl ps rg ow pl ct q msg pos ores e].
  cbn in Hs, Hq. subst q.
  unfold Ossl.doRecv, Ossl.doRecv_run, Ossl.doRecv_try, doRecv_enter, state,
    entered.
  cbn [Ossl.doRecv_loop]. run_red. cbn.
  destruct Hs as [-> | ->]; reflexivity.
Qed.

Lemma Ossl_doRecv_with_nothing_queued_only_returns_witness :
  let o : TlsTransport (list (outcome bool)) (ssl_fields ssl_script) :=
    set_mPendingRecvCount 1
      (set_mState Connected (fresh [] (mkSsl (true, []) [] []))) in
  Ossl.doRecv 1 o = Some (Ok tt, entered o).
Proof.
  intro o. apply Ossl_doRecv_with_nothing_queued_only_returns;
    [right; reflexivity|reflexivity].
Defined.

Lemma Ossl_doRecv_drained (L : Type) (lower : LowerTransport L) (Ssl : Type)
  (openssl : OpenSSL Ssl) (fuel : nat) (t : TlsTransport L (ssl_fields Ssl)) :
  mIncomingQueue t = mkQueue [] true ->
  (mState t = Connected ->
   exists t',
     Ossl.doRecv (S fuel) t = Some (Ok tt, t') /\
     mState t' = Disconnected /\
     notified t' = notified t ++ [Disconnected] /\
     delivered t' = delivered t ++ [None] /\
     sched_dec t t') /\
  (mState t = Connecting ->
   exists t',
     Ossl.doRecv (S fuel) t = Some (Ok tt, t') /\
     mState t' = Failed /\
     notified t' = notified t ++ [Failed] /\
     delivered t' = delivered t /\
     sched_dec t t').
Proof.
  intro Hq.
  assert (Hrun : forall s, s = Connected \/ s = Connecting -> mState t = s ->
            exists t1,
              Ossl.doRecv_run (S fuel) t = Some (Ok Fell, t1) /\
              mState t1 = s /\ notified t1 = notified t /\
              delivered t1 = delivered t /\ sched_dec t t1).
  { intros s Hs Hst.
    unfold Ossl.doRecv_run, doRecv_enter. unfold bind at 1. unfold modify at 1.
    fold (entered t). unfold state at 1. unfold bind at 1. unfold gets at 1.
    change (mState (entered t)) with (mState t). rewrite Hst.
    assert (Hg : negb (State_eqb s Connecting) && negb (State_eqb s Connected)
                 = false) by (destruct Hs; subst s; reflexivity).
    rewrite Hg.
    assert (Ht : Ossl.doRecv_try (S fuel) (entered t)
                 = Some (Ok Fell, entered t)).
    { unfold Ossl.doRecv_try, try_catch. cbn [Ossl.doRecv_loop].
      unfold bind at 1. unfold gets at 1.
      change (mIncomingQueue (entered t)) with (mIncomingQueue t).
      rewrite Hq. reflexivity. }
    erewrite bind_Ok by exact Ht. cbv iota.
    destruct (Ossl_call_effect openssl SSL_shutdown (entered t)) as [H|H];
      cbv zeta in H; erewrite bind_Ok by exact H;
      eexists; (split; [reflexivity|]); unfold sched_dec; cbn;
      repeat split; exact Hst. }
  split; intro Hst.
  - destruct (Hrun Connected (or_introl eq_refl) Hst)
      as (t1 & Hr & S1 & N1 & D1 & K1).
    destruct (doRecv_resolve_spec t1) as (t' & Hd & Hc & _).
    destruct (Hc S1) as (A & B & C).
    exists t'. unfold Ossl.doRecv. erewrite bind_Ok by exact Hr.
    split; [exact Hd|]. split; [exact A|]. split; [congruence|].
    split; [congruence|].
    eapply sched_dec_eq; [exact K1|].
    eapply doRecv_resolve_sched_eq; exact Hd.
  - destruct (Hrun Connecting (or_intror eq_refl) Hst)
      as (t1 & Hr & S1 & N1 & D1 & K1).
    assert (Hne : mState t1 <> Connected) by congruence.
    eexists. unfold Ossl.doRecv. erewrite bind_Ok by exact Hr. cbv iota.
    rewrite doRecv_resolve_Failed by exact Hne. rewrite S1.
    change (State_eqb Connecting Failed) with false. cbv iota.
    split; [reflexivity|]. cbn. split; [reflexivity|].
    split; [congruence|]. split; [exact D1|].
    destruct K1 as (K1 & K2 & K3). unfold sched_dec. cbn. auto.
Qed.


(** X15.  [stop] closes an idle OpenSSL session.  On an owned instance
    with an empty queue and no task pending, [stop] followed by the task
    it schedules (lines 641-646 and 682-744) ends as follows: the loop is
    not entered, [SSL_shutdown] is called, and a [Connected] instance
    becomes [Disconnected], with that notification and one end-of-stream
    signal to the upper layer, while a [Connecting] one becomes [Failed]
    with that notification and no delivery.  No task is left pending. *)
Theorem Ossl_stop_closes_an_idle_session :
  forall (L : Type) (lower : LowerTransport L) (Ssl : Type)
         (openssl : OpenSSL Ssl) (fuel : nat)
         (t : TlsTransport L (ssl_fields Ssl)),
    items (mIncomingQueue t) = [] ->
    mPendingRecvCount t = 0 -> owned t = true ->
    (mState t = Connected ->
     exists t',
       life (Ossl_step (S fuel)) [Stop; RunTask] t = Some t' /\
       mState t' = Disconnected /\
       notified t' = notified t ++ [Disconnected] /\
       delivered t' = delivered t ++ [None] /\
       mPendingRecvCount t' = 0 /\ pool t' = pool t) /\
    (mState t = Connecting ->
     exists t',
       life (Ossl_step (S fuel)) [Stop; RunTask] t = Some t' /\
       mState t' = Failed /\
       notified t' = notified t ++ [Failed] /\
       delivered t' = delivered t /\
       mPendingRecvCount t' = 0 /\ pool t' = pool t).
Proof.
  intros L lower Ssl openssl fuel t Hi Hc Ho.
  rewrite (stop_then_task (doRecv:=Ossl.doRecv (S fuel))
             (Ossl_step (S fuel)) t) by auto.
  set (t0 := set_pool (pool t) (stopped_and_scheduled t)).
  assert (Hq : mIncomingQueue t0 = mkQueue [] true)
    by (subst t0; cbn; unfold Queue_stop; now rewrite Hi).
  destruct (Ossl_doRecv_drained lower openssl fuel t0 Hq) as [HC HI].
  split; intro Hs.
  - destruct HC as (t' & Hd & A & B & C & (D1 & D2 & _)); [exact Hs|].
    rewrite Hd. exists t'. repeat split; auto.
  - destruct HI as (t' & Hd & A & B & C & (D1 & D2 & _)); [exact Hs|].
    rewrite Hd. exists t'. repeat split; auto.
Qed.

Lemma Ossl_stop_closes_an_idle_session_witness :
  let o : TlsTransport (list (outcome bool)) (ssl_fields ssl_script) :=
    set_mState Connected (fresh [] (mkSsl (true, []) [] [])) in
  exists t',
    life (Ossl_step 1) [Stop; RunTask] o = Some t' /\
    mState t' = Disconnected /\
    notified t' = notified o ++ [Disconnected] /\
    delivered t' = delivered o ++ [None] /\
    mPendingRecvCount t' = 0 /\ pool t' = pool o.
Proof.
  intro o.
  apply (Ossl_stop_closes_an_idle_session lower openssl 0%nat o);
    reflexivity.
Defined.

(** ** The write callbacks when the lower transport answers *)

(** X16.  What the write callbacks tell the engine when the lower
    transport's [send] returns.  The GnuTLS callback (lines 227-242)
    called with no bytes hands nothing over and answers [0] with errno
    [0]; called with bytes it hands them over as one message and
    answers their number with errno [0].  The MbedTLS callback (lines
    484-490) hands its buffer over as one message, also when it is
    empty, and answers its length.  Both report the whole buffer as
    written whether the lower transport answered [true] or [false]: the
    boolean is only stored in [mOutgoingResult]. *)
Theorem WriteCallback_reports_the_whole_buffer :
  (forall (L : Type) (lower : LowerTransport L) (Session : Type)
          (gnutls : GnuTLS Session) (t : TlsTransport L Session),
      Gnu.WriteCallback [] t = Some (Ok (0, 0), t)) /\
  (forall (L : Type) (lower : LowerTransport L) (Session : Type)
          (gnutls : GnuTLS Session) (data : binary) (b : bool) (l' : L)
          (t : TlsTransport L Session),
      data <> [] ->
      lower_send (mLower t) (Some data) = (Ok b, l') ->
      exists t',
        Gnu.WriteCallback data t
        = Some (Ok (to_ssize_t (size data), 0), t') /\
        pushed t' = pushed t ++ [Some data] /\
        mOutgoingResult t' = b /\ mLower t' = l') /\
  (forall (L : Type) (lower : LowerTransport L) (Ssl : Type)
          (buf : binary) (b : bool) (l' : L) (t : TlsTransport L Ssl),
      lower_send (mLower t) (Some buf) = (Ok b, l') ->
      exists t',
        Mbed.WriteCallback buf t = Some (Ok (to_int (size buf)), t') /\
        pushed t' = pushed t ++ [Some buf] /\
        mOutgoingResult t' = b /\ mLower t' = l').
Proof.
  split; [|split].
  - intros. reflexivity.
  - intros L lower Session gnutls data b l' t Hd Hl.
    unfold Gnu.WriteCallback, Gnu.outgoing, Transport_outgoing. run_red.
    destruct (size data >? 0) eqn:Hs.
    + rewrite Hl. eexists. split; [reflexivity|]. cbn. auto.
    + apply size_gtb_false in Hs. congruence.
  - intros L lower Ssl buf b l' t Hl.
    unfold Mbed.WriteCallback, Mbed.outgoing, Transport_outgoing. run_red.
    rewrite Hl. eexists. split; [reflexivity|]. cbn. auto.
Qed.

Lemma WriteCallback_reports_the_whole_buffer_witness :
  (exists t',
      Gnu.WriteCallback [x17; x03] corked_gnutls = Some (Ok (2, 0), t') /\
      pushed t' = [Some [x17; x03]] /\ mOutgoingResult t' = false /\
      mLower t' = []) /\
  (exists t',
      Mbed.WriteCallback [] corked_mbedtls = Some (Ok 0, t') /\
      pushed t' = [Some []] /\ mOutgoingResult t' = false /\
      mLower t' = []).
Proof.
  destruct WriteCallback_reports_the_whole_buffer as (_ & G & B).
  split.
  - apply (G _ _ _ gnutls [x17; x03] false [] corked_gnutls);
      [discriminate|reflexivity].
  - apply (B _ _ (script mbedtls_answer) [] false [] corked_mbedtls).
    reflexivity.
Defined.

(** ** A handshake answer that is neither success nor fatal *)

(** X17.  MbedTLS [doRecv] (lines 423-441) drops the boolean of
    [mbedtls::check] on the handshake's return value.  When a task finds
    the state [Connecting] and [mbedtls_ssl_handshake] returns a code
    that is none of the four retry codes and on which the helper does
    not throw -- whether it answers [true] or [false] -- the handshake
    counts as finished: the observer is told [Connected], the record
    loop follows in the same task, and the task leaves the state
    [Connected], or [Disconnected] when the record loop ended the
    session; never [Connecting] or [Failed]. *)
Theorem Mbed_handshake_answer_not_done_connects :
  forall (L : Type) (lower : LowerTransport L) (Ssl : Type)
         (mbedtls : MbedTLS Ssl) (fuel : nat) (r : Z) (b : bool)
         (t t1 : TlsTransport L Ssl) res t',
    mState t = Connecting ->
    Mbed.call mbedtls_ssl_handshake (entered t) = Some (Ok r, t1) ->
    r <> MBEDTLS_ERR_SSL_WANT_READ -> r <> MBEDTLS_ERR_SSL_WANT_WRITE ->
    r <> MBEDTLS_ERR_SSL_ASYNC_IN_PROGRESS ->
    r <> MBEDTLS_ERR_SSL_CRYPTO_IN_PROGRESS ->
    mbedtls_check r = Ok b ->
    Mbed.doRecv (S fuel) t = Some (res, t') ->
    (mState t' = Connected /\ notified t' = notified t ++ [Connected]) \/
    (mState t' = Disconnected /\
     notified t' = notified t ++ [Connected; Disconnected]).
Proof.
  intros L lower Ssl mbedtls fuel r b t t1 res t' Hs Hc N1 N2 N3 N4 Hk Hd.
  assert (S1 : state_eq (entered t) t1)
    by (eapply Mbed_call_keeps; [typeclasses eauto|exact Hc]).
  destruct S1 as [A1 A2]. change (mState (entered t)) with (mState t) in A1.
  change (notified (entered t)) with (notified t) in A2.
  set (tc := set_notified (notified t1 ++ [Connected]) (set_mState Connected t1)).
  assert (Hh : Mbed.doRecv_handshake (S fuel) (entered t) = Some (Ok Fell, tc)).
  { cbn [Mbed.doRecv_handshake]. erewrite bind_Ok by exact Hc.
    apply Z.eqb_neq in N1, N2, N3, N4. rewrite N1, N2, N3, N4. cbn [orb].
    unfold check_result, changeState, postHandshake. run_red. rewrite Hk.
    rewrite A1, Hs. reflexivity. }
  assert (Ht : Mbed.doRecv_try (S fuel) (entered t)
               = match Mbed.doRecv_records (S fuel) tc with
                 | Some (Throw e, s') => Some (Ok Fell, s')
                 | x => x
                 end).
  { unfold Mbed.doRecv_try, try_catch, state.
    unfold bind at 1. unfold gets at 1.
    change (mState (entered t)) with (mState t). rewrite Hs.
    change (State_eqb Connecting Connecting) with true. cbv iota.
    unfold bind at 1. rewrite Hh. unfold bind at 1. unfold gets at 1.
    change (mState tc) with Connected.
    change (State_eqb Connected Connected) with true. cbv iota.
    destruct (Mbed.doRecv_records (S fuel) tc) as [[[f|e] s']|]; reflexivity. }
  assert (Hrun : Mbed.doRecv_run (S fuel) t = Mbed.doRecv_try (S fuel) (entered t)).
  { unfold Mbed.doRecv_run, doRecv_enter. unfold bind at 1. unfold modify at 1.
    fold (entered t). unfold state at 1. unfold bind at 1. unfold gets at 1.
    change (mState (entered t)) with (mState t). rewrite Hs. reflexivity. }
  unfold Mbed.doRecv in Hd. unfold bind at 1 in Hd. rewrite Hrun, Ht in Hd.
  assert (Hrec : forall x s', Mbed.doRecv_records (S fuel) tc = Some (x, s') ->
                   mState s' = Connected /\
                   notified s' = notified t ++ [Connected]).
  { intros x s' Hx.
    assert (S2 : state_eq tc s')
      by (eapply Mbed_doRecv_records_keeps; [typeclasses eauto|exact Hx]).
    destruct S2 as [B1 B2]. subst tc. cbn in B1, B2. split; congruence. }
  assert (Hres : forall s', mState s' = Connected ->
                   notified s' = notified t ++ [Connected] ->
                   doRecv_resolve s' = Some (res, t') ->
                   mState t' = Disconnected /\
                   notified t' = notified t ++ [Connected; Disconnected]).
  { intros s' C1 C2 Hr.
    destruct (doRecv_resolve_spec s') as (t2 & Hd2 & Hc2 & _).
    rewrite Hd2 in Hr. inversion Hr; subst t2.
    destruct (Hc2 C1) as (E1 & E2 & _). split; [exact E1|].
    rewrite E2, C2, <- app_assoc. reflexivity. }
  destruct (Mbed.doRecv_records (S fuel) tc) as [[[f|e] s']|] eqn:Hx;
    [|destruct (Hrec _ _ eq_refl) as [C1 C2]; right; eapply Hres; eassumption
     |discriminate].
  destruct (Hrec _ _ eq_refl) as [C1 C2]. destruct f.
  - inversion Hd; subst. left. auto.
  - right. eapply Hres; eassumption.
Qed.

Lemma Mbed_handshake_answer_not_done_connects_witness :
  exists t',
    Mbed.doRecv 1 close_notified_mbedtls = Some (Ok tt, t') /\
    ((mState t' = Connected /\ notified t' = [] ++ [Connected]) \/
     (mState t' = Disconnected /\
      notified t' = [] ++ [Connected; Disconnected])).
Proof.
  eexists. split; [vm_compute; reflexivity|].
  apply (@Mbed_handshake_answer_not_done_connects _ lower _ mbedtls 0%nat
           (-30848) false close_notified_mbedtls
           (set_mEngine [] (entered close_notified_mbedtls)) (Ok tt));
    [reflexivity|reflexivity|cbn; lia|cbn; lia|cbn; lia|cbn; lia
    |reflexivity|vm_compute; reflexivity].
Defined.

(** ** Sending a record through OpenSSL *)

(** X18.  OpenSSL [send] (lines 648-662) of a non-empty message in
    state [Connected], when [SSL_write] is accepted by
    [openssl::check]: it ends by returning or by the lower transport's
    exception; the bytes the output BIO held before followed by those
    [SSL_write] appended are handed to the lower transport from the
    front, in order, and what was not handed over is still in the BIO.
    When it returns the BIO is empty, and with nothing handed over the
    boolean is [true], whatever an earlier push was answered.  The
    state, the notifications, the deliveries and [mOutgoingResult] are
    as before. *)
Theorem Ossl_send_flushes_what_the_engine_wrote :
  forall (L : Type) (lower : LowerTransport L) (Ssl : Type)
         (openssl : OpenSSL Ssl) (m : binary)
         (t : TlsTransport L (ssl_fields Ssl)),
    let eff :=
      SSL_write m (to_int (size m)) (mSsl (mEngine t)) (mInBio (mEngine t)) in
    mState t = Connected -> m <> [] ->
    openssl_check (ssl_next eff) (ssl_ret eff) = Ok true ->
    exists r t' l,
      Ossl.send (Some m) t = Some (r, t') /\
      pushed t' = pushed t ++ map Some l /\
      List.concat l ++ mOutBio (mEngine t')
      = mOutBio (mEngine t) ++ ssl_out eff /\
      state_eq t t' /\ delivered t' = delivered t /\
      mOutgoingResult t' = mOutgoingResult t /\
      (forall b, r = Ok b ->
                 mOutBio (mEngine t') = [] /\ (l = [] -> b = true)).
Proof.
  intros L lower Ssl openssl m t eff Hs Hm Hk.
  unfold Ossl.send, state. unfold bind at 1. unfold gets at 1.
  rewrite Hs, State_eqb_refl. cbn [negb]. rewrite (size_eqb_false Hm).
  assert (Hcall : exists tc,
             Ossl.call (SSL_write m (to_int (size m))) t
             = Some (Ok (ssl_ret eff, ssl_buffer eff), tc) /\
             state_eq t tc /\ delivered tc = delivered t /\
             pushed tc = pushed t /\
             mOutgoingResult tc = mOutgoingResult t /\
             mEngine tc = mkSsl (ssl_next eff) (ssl_in eff)
                            (mOutBio (mEngine t) ++ ssl_out eff)).
  { destruct (Ossl_call_effect openssl (SSL_write m (to_int (size m))) t)
      as [H|H]; cbv zeta in H; fold eff in H;
      eexists; (split; [exact H|]); unfold state_eq; cbn; auto 10. }
  destruct Hcall as (tc & Hc & C1 & C2 & C3 & C4 & C5).
  erewrite bind_Ok by exact Hc. cbn [fst].
  unfold Ossl.check. unfold bind at 1. unfold bind at 1. unfold gets at 1.
  rewrite C5. cbn [mSsl]. unfold check_result at 1. rewrite Hk. cbn [negb].
  destruct (Ossl_flushOutput_spec lower tc)
    as (r & t' & l & F1 & F2 & F3 & F4 & F5 & F6 & F7 & F8).
  pose proof (@Ossl_flushOutput_output_only _ lower _ _ _ _ F1)
    as (O1 & _ & _ & O4 & _ & _ & _ & O8).
  rewrite C5 in F3. cbn [mOutBio] in F3.
  exists r, t', l. split; [exact F1|].
  split; [congruence|]. split; [exact F3|].
  split; [etransitivity; eassumption|].
  split; [congruence|]. split; [congruence|exact F7].
Qed.

Lemma Ossl_send_flushes_what_the_engine_wrote_witness :
  let o : TlsTransport (list (outcome bool)) (ssl_fields ssl_script) :=
    set_mState Connected
      (fresh [Ok false]
         (mkSsl (true, [mkReply 1 [x03; x01] [] [] true]) [] [x17; x03])) in
  exists r t' l,
    Ossl.send (Some [x01]) o = Some (r, t') /\
    pushed t' = pushed o ++ map Some l /\
    List.concat l ++ mOutBio (mEngine t') = [x17; x03] ++ [x03; x01] /\
    state_eq o t' /\ delivered t' = delivered o /\
    mOutgoingResult t' = mOutgoingResult o /\
    (forall b, r = Ok b ->
               mOutBio (mEngine t') = [] /\ (l = [] -> b = true)).
Proof.
  intro o.
  apply (@Ossl_send_flushes_what_the_engine_wrote _ lower _ openssl [x01] o);
    [reflexivity|discriminate|reflexivity].
Defined.

(** ** The default credentials *)

(** X19.  [default_certificate_credentials] (lines 39-50) builds the
    credentials object once.  With the static set, it returns the
    object and calls nothing.  With the static null, the object is
    stored before the system trust is loaded: when
    [gnutls::new_credentials] throws, the static stays null and the
    next call starts over; but when loading the trust fails and
    [gnutls::check] throws, the object is already stored, so that
    exception is raised once and every later call returns the object,
    whose trust was not loaded, without calling the library again. *)
Theorem default_certificate_credentials_are_built_once :
  forall (C W : Type) (credentials : GnuTLSCredentials C W),
    (forall (c : C) (w : W),
        default_certificate_credentials (mkStore (Some c) w)
        = Some (Ok c, mkStore (Some c) w)) /\
    (forall (w w1 : W) (e : string),
        gnutls_new_credentials w = (Throw e, w1) ->
        default_certificate_credentials (mkStore None w)
        = Some (Throw e, mkStore None w1)) /\
    (forall (w w1 w2 : W) (c : C) (r : Z) (e : string),
        gnutls_new_credentials w = (Ok c, w1) ->
        gnutls_certificate_set_x509_system_trust c w1 = (r, w2) ->
        gnutls_credentials_check r = Throw e ->
        default_certificate_credentials (mkStore None w)
        = Some (Throw e, mkStore (Some c) w2) /\
        default_certificate_credentials (mkStore (Some c) w2)
        = Some (Ok c, mkStore (Some c) w2)) /\
    (forall (w w1 w2 : W) (c : C) (r : Z) (b : bool),
        gnutls_new_credentials w = (Ok c, w1) ->
        gnutls_certificate_set_x509_system_trust c w1 = (r, w2) ->
        gnutls_credentials_check r = Ok b ->
        default_certificate_credentials (mkStore None w)
        = Some (Ok c, mkStore (Some c) w2)).
Proof.
  intros C W credentials. split; [|split; [|split]].
  - intros. reflexivity.
  - intros w w1 e Hn. unfold default_certificate_credentials. run_red. cbn.
    rewrite Hn. reflexivity.
  - intros w w1 w2 c r e Hn Ht Hk. split; [|reflexivity].
    unfold default_certificate_credentials. run_red. cbn.
    rewrite Hn. cbn. rewrite Ht, Hk. reflexivity.
  - intros w w1 w2 c r b Hn Ht Hk.
    unfold default_certificate_credentials. run_red. cbn.
    rewrite Hn. cbn. rewrite Ht, Hk. reflexivity.
Qed.

Lemma default_certificate_credentials_are_built_once_witness :
  default_certificate_credentials (mkStore None 0%nat)
  = Some (Throw "GnuTLS error"%string, mkStore (Some 0%nat) 2%nat) /\
  default_certificate_credentials (mkStore (Some 0%nat) 2%nat)
  = Some (Ok 0%nat, mkStore (Some 0%nat) 2%nat).
Proof.
  destruct (default_certificate_credentials_are_built_once untrusting)
    as (_ & _ & F & _).
  apply (F 0%nat 1%nat 2%nat 0%nat (-64) "GnuTLS error"%string);
    reflexivity.
Defined.

(** ** The ex-data index *)

Lemma Init_keeps_the_index (W : Type) (library_ops : OpenSSLLibrary W)
  (s : ssl_statics W) r s' :
  Init s = Some (r, s') -> 0 <= TransportExIndex s ->
  TransportExIndex s' = TransportExIndex s.
Proof.
  intros H Hi. revert H. unfold Init. run_red.
  destruct (openssl_init (ssl_library s)) as [[[]|e] w]; cbn.
  - destruct (TransportExIndex s <? 0) eqn:Hlt.
    + rewrite Z.ltb_lt in Hlt. lia.
    + intro H. inversion H. reflexivity.
  - intro H. inversion H. reflexivity.
Qed.

(** X20.  [Init] of the OpenSSL variant (lines 534-540) allocates the
    ex-data index at most once.  While the index is negative, an [Init]
    whose [openssl::init] returns stores what [SSL_get_ex_new_index]
    answers.  Once the index is not negative, no number of further
    [Init] calls changes it, whether they return or throw, so the
    instances that stored themselves under it are still found. *)
Theorem Init_allocates_the_index_once :
  forall (W : Type) (library_ops : OpenSSLLibrary W),
    (forall (s : ssl_statics W) (w1 w2 : W) (i : Z),
        TransportExIndex s < 0 ->
        openssl_init (ssl_library s) = (Ok tt, w1) ->
        SSL_get_ex_new_index w1 = (i, w2) ->
        Init s = Some (Ok tt, mkStatics i w2)) /\
    (forall (n : nat) (s s' : ssl_statics W),
        0 <= TransportExIndex s ->
        calls Init n s = Some s' ->
        TransportExIndex s' = TransportExIndex s).
Proof.
  intros W library_ops. split.
  - intros s w1 w2 i Hi Ho Hn. unfold Init. run_red. rewrite Ho.
    cbn [ssl_library TransportExIndex].
    apply Z.ltb_lt in Hi. rewrite Hi. cbn [ssl_library]. rewrite Hn.
    reflexivity.
  - induction n as [|n IH]; intros s s' Hi H; cbn [calls] in H.
    + inversion H. reflexivity.
    + destruct (Init s) as [[r s1]|] eqn:Hs; [|discriminate].
      pose proof (@Init_keeps_the_index _ _ _ _ _ Hs Hi) as K.
      rewrite <- K. apply IH; [lia|exact H].
Qed.

Lemma Init_allocates_the_index_once_witness :
  Init (initial_statics 0) = Some (Ok tt, mkStatics 0 1) /\
  exists s',
    calls Init 3 (mkStatics 0 1) = Some s' /\ TransportExIndex s' = 0.
Proof.
  destruct (Init_allocates_the_index_once counting_library) as (A & B).
  split.
  - apply (A (initial_statics 0) 0 1 0); [cbn; lia|reflexivity|reflexivity].
  - eexists. split; [reflexivity|].
    apply (B 3%nat (mkStatics 0 1) _); [cbn; lia|reflexivity].
Defined.

(** ** End-of-stream signals over an instance's life *)

Section Budget.
Context {L E : Type}.
Local Abbreviation T := (TlsTransport L E).

#[export] Instance eos_budget_preorder : PreOrder (@eos_budget L E).
Proof.
  split.
  - intro t. unfold eos_budget. lia.
  - intros a b c H1 H2. unfold eos_budget in *. lia.
Qed.

Lemma quiet_eos_budget (t t' : T) :
  state_eq t t' -> no_eos t t' -> eos_budget t t'.
Proof.
  intros [S1 _] H. apply no_eos_count in H. unfold eos_budget.
  rewrite S1, H. lia.
Qed.

Lemma keeps_quiet_eos_budget (A : Type) (m : M T A) :
  keeps state_eq m -> keeps no_eos m -> keeps eos_budget m.
Proof.
  intros H1 H2 t r t' H. apply quiet_eos_budget; [eapply H1|eapply H2]; exact H.
Qed.

Lemma stop_state_eq : keeps state_eq (stop (L:=L) (E:=E)).
Proof.
  pose proof (enqueueRecv_state_eq (L:=L) (E:=E)).
  unfold stop, unregisterIncoming.
  keeps_with ltac:(unfold state_eq; simpl; auto).
Qed.

Lemma stop_no_eos : keeps no_eos (stop (L:=L) (E:=E)).
Proof.
  pose proof (enqueueRecv_no_eos (L:=L) (E:=E)).
  unfold stop, unregisterIncoming.
  keeps_with ltac:(exists []; simpl; now rewrite app_nil_r).
Qed.

Lemma incoming_state_eq m : keeps state_eq (incoming (L:=L) (E:=E) m).
Proof.
  pose proof (enqueueRecv_state_eq (L:=L) (E:=E)).
  unfold incoming. keeps_with ltac:(unfold state_eq; simpl; auto).
Qed.

Lemma incoming_no_eos m : keeps no_eos (incoming (L:=L) (E:=E) m).
Proof.
  pose proof (enqueueRecv_no_eos (L:=L) (E:=E)).
  unfold incoming. keeps_with ltac:(exists []; simpl; now rewrite app_nil_r).
Qed.

(** What follows [doRecv_run] in each variant's [doRecv], given that
    [doRecv_run] leaves the state alone outside a session. *)
Lemma budget_after (run : M T flow) :
  keeps no_eos run -> keeps handshake_only run ->
  (forall t r t1, mState t <> Connecting -> mState t <> Connected ->
                  run t = Some (r, t1) -> mState t1 = mState t) ->
  keeps eos_budget
    (f <- run;; match f with Returned => ret tt | Fell => doRecv_resolve end).
Proof.
  intros Hn Hh Ho t r t' H. apply bind_Some in H.
  assert (Hearly : forall r1 t1, run t = Some (r1, t1) -> eos_budget t t1).
  { intros r1 t1 Hr. pose proof (no_eos_count (Hn _ _ _ Hr)) as He.
    destruct (Hh _ _ _ Hr) as [H1 H2]. unfold eos_budget. rewrite He.
    destruct (mState t) eqn:Hs.
    - rewrite (Ho t r1 t1) by (try exact Hr; rewrite Hs; discriminate).
      rewrite Hs. lia.
    - destruct (H2 eq_refl) as [[S1 _]|[S1 _]]; rewrite S1, ?Hs; simpl; lia.
    - destruct (H1 eq_refl) as [S1 _]. rewrite S1, Hs. lia.
    - rewrite (Ho t r1 t1) by (try exact Hr; rewrite Hs; discriminate).
      rewrite Hs. lia. }
  destruct H as [(f & t1 & Hr & H)|(e & Hr & _)]; [|eapply Hearly; exact Hr].
  destruct f; [inversion H; subst; eapply Hearly; exact Hr|].
  pose proof (no_eos_count (Hn _ _ _ Hr)) as He.
  destruct (doRecv_resolve_spec t1) as (t2 & Hd & Hc & Hf).
  rewrite Hd in H. inversion H; subst t2. unfold eos_budget.
  destruct (State_eq_dec (mState t1) Connected) as [S1|S1].
  - destruct (Hc S1) as (A & _ & C). rewrite A, C, eos_count_app, He.
    change (eos_count [None]) with 1%nat.
    assert (Hopen : open_sessions (mState t) = 1%nat).
    { destruct (mState t) eqn:Hs; try reflexivity;
        rewrite (Ho t _ t1) in S1 by (try exact Hr; rewrite Hs; discriminate);
        congruence. }
    rewrite Hopen. simpl. lia.
  - destruct (Hf S1) as (A & C). rewrite A, C, He. simpl. lia.
Qed.

Lemma run_task_eos_budget (doRecv : M T unit) :
  keeps eos_budget doRecv -> keeps eos_budget (run_task doRecv).
Proof.
  intros Hd t r t' H. unfold run_task in H.
  destruct (pool t) as [|n]; [inversion H; subst; reflexivity|].
  apply Hd in H. exact H.
Qed.

End Budget.

Lemma life_keeps_on (S : Type) (R : S -> S -> Prop) `{!PreOrder R}
  (P : op -> Prop) (step : op -> M S unit) :
  (forall o, P o -> keeps R (step o)) ->
  forall ops s s', Forall P ops -> life step ops s = Some s' -> R s s'.
Proof.
  intros Hstep ops. induction ops as [|o ops IH]; intros s s' Hp H; simpl in H.
  - inversion H; subst. reflexivity.
  - inversion Hp; subst.
    destruct (step o s) as [[r s1]|] eqn:Ho; [|discriminate].
    etransitivity; [eapply Hstep; eassumption|eapply IH; eassumption].
Qed.

Lemma Gnu_doRecv_eos_budget (L : Type) (lower : LowerTransport L)
  (Session : Type) (gnutls : GnuTLS Session) (fuel : nat) :
  keeps eos_budget (Gnu.doRecv (L:=L) (Session:=Session) fuel).
Proof.
  apply budget_after.
  - apply Gnu_doRecv_run_no_eos.
  - apply Gnu_doRecv_run_handshake_only.
  - intros t r t1 H1 H2 Hr.
    destruct (@Gnu_doRecv_outside_session _ lower _ gnutls fuel t H1 H2)
      as (t2 & _ & Hrun & [S1 _] & _).
    rewrite Hrun in Hr. inversion Hr; subst. exact S1.
Qed.

Lemma Mbed_doRecv_eos_budget (L : Type) (lower : LowerTransport L)
  (Ssl : Type) (mbedtls : MbedTLS Ssl) (fuel : nat) :
  keeps eos_budget (Mbed.doRecv (L:=L) (Ssl:=Ssl) fuel).
Proof.
  apply budget_after.
  - apply Mbed_doRecv_run_no_eos.
  - apply Mbed_doRecv_run_handshake_only.
  - intros t r t1 H1 H2 Hr.
    unfold Mbed.doRecv_run, doRecv_enter, state in Hr. revert Hr. run_red.
    cbn [mState set_mPendingRecvCount].
    rewrite (State_eqb_neq H1), (State_eqb_neq H2). cbn [negb andb].
    intro Hr. inversion Hr; subst. reflexivity.
Qed.

Lemma Ossl_doRecv_eos_budget (L : Type) (lower : LowerTransport L)
  (Ssl : Type) (openssl : OpenSSL Ssl) (fuel : nat) :
  keeps eos_budget (Ossl.doRecv (L:=L) (Ssl:=Ssl) fuel).
Proof.
  apply budget_after.
  - apply Ossl_doRecv_run_no_eos.
  - apply Ossl_doRecv_run_handshake_only.
  - intros t r t1 H1 H2 Hr.
    unfold Ossl.doRecv_run, doRecv_enter, state in Hr. revert Hr. run_red.
    cbn [mState set_mPendingRecvCount].
    rewrite (State_eqb_neq H1), (State_eqb_neq H2). cbn [negb andb].
    intro Hr. inversion Hr; subst. reflexivity.
Qed.

Lemma keeps_then_ret (S A : Type) (R : S -> S -> Prop) `{!PreOrder R}
  (m : M S A) :
  keeps R m -> keeps R (m;; ret tt).
Proof. intro H. apply keeps_bind; [assumption|exact H|intro; now apply keeps_ret]. Qed.

Lemma Gnu_step_eos_budget (L : Type) (lower : LowerTransport L) (Session : Type)
  (gnutls : GnuTLS Session) (fuel : nat) (o : op) :
  o <> Start -> keeps eos_budget (Gnu_step (L:=L) (Session:=Session) fuel o).
Proof.
  destruct o as [| |m|m|]; cbn [Gnu_step]; intro Ho; [congruence| | | |].
  - apply keeps_quiet_eos_budget; [apply stop_state_eq|apply stop_no_eos].
  - apply keeps_then_ret; [typeclasses eauto|].
    apply keeps_quiet_eos_budget; apply Gnu_send_keeps; typeclasses eauto.
  - apply keeps_quiet_eos_budget;
      [apply incoming_state_eq|apply incoming_no_eos].
  - apply run_task_eos_budget, Gnu_doRecv_eos_budget.
Qed.

Lemma Mbed_step_eos_budget (L : Type) (lower : LowerTransport L) (Ssl : Type)
  (mbedtls : MbedTLS Ssl) (fuel : nat) (o : op) :
  o <> Start -> keeps eos_budget (Mbed_step (L:=L) (Ssl:=Ssl) fuel o).
Proof.
  destruct o as [| |m|m|]; cbn [Mbed_step]; intro Ho; [congruence| | | |].
  - apply keeps_quiet_eos_budget; [apply stop_state_eq|apply stop_no_eos].
  - apply keeps_then_ret; [typeclasses eauto|].
    apply keeps_quiet_eos_budget; apply Mbed_send_keeps; typeclasses eauto.
  - apply keeps_quiet_eos_budget;
      [apply incoming_state_eq|apply incoming_no_eos].
  - apply run_task_eos_budget, Mbed_doRecv_eos_budget.
Qed.

Lemma Ossl_step_eos_budget (L : Type) (lower : LowerTransport L) (Ssl : Type)
  (openssl : OpenSSL Ssl) (fuel : nat) (o : op) :
  o <> Start -> keeps eos_budget (Ossl_step (L:=L) (Ssl:=Ssl) fuel o).
Proof.
  destruct o as [| |m|m|]; cbn [Ossl_step]; intro Ho; [congruence| | | |].
  - apply keeps_quiet_eos_budget; [apply stop_state_eq|apply stop_no_eos].
  - apply keeps_then_ret; [typeclasses eauto|].
    apply keeps_quiet_eos_budget; apply Ossl_send_keeps; typeclasses eauto.
  - apply keeps_quiet_eos_budget;
      [apply incoming_state_eq|apply incoming_no_eos].
  - apply run_task_eos_budget, Ossl_doRecv_eos_budget.
Qed.

(** X21.  In each variant, over any sequence of [stop], [send],
    [incoming] and task runs -- any calls but a further [start] -- and
    whatever the engine and the lower transport do, an instance that is
    [Connecting] or [Connected] delivers at most one end-of-stream
    signal to the upper layer, and one that is [Disconnected] or
    [Failed] delivers none.  (In the GnuTLS variant the state may still
    move from [Disconnected] to [Failed]; no second signal comes with
    it.) *)
Theorem at_most_one_end_of_stream_after_start :
  (forall (L : Type) (lower : LowerTransport L) (Session : Type)
          (gnutls : GnuTLS Session) (fuel : nat) (ops : list op)
          (t t' : TlsTransport L Session),
      Forall (fun o => o <> Start) ops ->
      life (Gnu_step fuel) ops t = Some t' ->
      (eos_count (delivered t')
       <= eos_count (delivered t) + open_sessions (mState t))%nat) /\
  (forall (L : Type) (lower : LowerTransport L) (Ssl : Type)
          (mbedtls : MbedTLS Ssl) (fuel : nat) (ops : list op)
          (t t' : TlsTransport L Ssl),
      Forall (fun o => o <> Start) ops ->
      life (Mbed_step fuel) ops t = Some t' ->
      (eos_count (delivered t')
       <= eos_count (delivered t) + open_sessions (mState t))%nat) /\
  (forall (L : Type) (lower : LowerTransport L) (Ssl : Type)
          (openssl : OpenSSL Ssl) (fuel : nat) (ops : list op)
          (t t' : TlsTransport L (ssl_fields Ssl)),
      Forall (fun o => o <> Start) ops ->
      life (Ossl_step fuel) ops t = Some t' ->
      (eos_count (delivered t')
       <= eos_count (delivered t) + open_sessions (mState t))%nat).
Proof.
  split; [|split]; intros * Hp H.
  - eapply (life_keeps_on (R:=eos_budget)) in H;
      [unfold eos_budget in H; lia| |exact Hp].
    intros o Ho. now apply Gnu_step_eos_budget.
  - eapply (life_keeps_on (R:=eos_budget)) in H;
      [unfold eos_budget in H; lia| |exact Hp].
    intros o Ho. now apply Mbed_step_eos_budget.
  - eapply (life_keeps_on (R:=eos_budget)) in H;
      [unfold eos_budget in H; lia| |exact Hp].
    intros o Ho. now apply Ossl_step_eos_budget.
Qed.

Lemma at_most_one_end_of_stream_after_start_witness :
  life (Gnu_step 5) [Start] scripted_gnutls = Some started_gnutls /\
  exists t',
    life (Gnu_step 5) (tl closed_session ++ [Stop; RunTask; Stop; RunTask])
      started_gnutls = Some t' /\
    (eos_count (delivered t')
     <= eos_count (delivered started_gnutls)
        + open_sessions (mState started_gnutls))%nat /\
    eos_count (delivered t') = 1%nat /\ mState t' = Failed.
Proof.
  destruct at_most_one_end_of_stream_after_start as (G & _ & _).
  split; [vm_compute; reflexivity|].
  eexists. split; [vm_compute; reflexivity|].
  split; [|split; reflexivity].
  apply (G _ _ _ gnutls 5%nat
           (tl closed_session ++ [Stop; RunTask; Stop; RunTask])
           started_gnutls _);
    [repeat constructor; discriminate|vm_compute; reflexivity].
Defined.

(** ** The terminal states over an instance's life *)

Section Terminal.
Context {L E : Type}.
Local Abbreviation T := (TlsTransport L E).

#[export] Instance terminal_stays_preorder : PreOrder (@terminal_stays L E).
Proof.
  split.
  - intros t _. reflexivity.
  - intros a b c H1 H2 Ha. specialize (H1 Ha).
    assert (Hb : mState b = Disconnected \/ mState b = Failed)
      by (destruct H1 as [S1 _]; rewrite S1; exact Ha).
    etransitivity; [exact H1|exact (H2 Hb)].
Qed.

Lemma keeps_state_eq_terminal_stays (A : Type) (m : M T A) :
  keeps state_eq m -> keeps terminal_stays m.
Proof. intros H t r t' Hm _. eapply H; exact Hm. Qed.

Lemma run_task_terminal_stays (doRecv : M T unit) :
  (forall t, mState t <> Connecting -> mState t <> Connected ->
             doRecv t = Some (Ok tt, entered t)) ->
  keeps terminal_stays (run_task doRecv).
Proof.
  intros Hd t r t' H Ht. unfold run_task in H.
  destruct (pool t) as [|n]; [inversion H; subst; reflexivity|].
  rewrite Hd in H by (cbn; destruct Ht as [-> | ->]; discriminate).
  inversion H; subst. split; reflexivity.
Qed.

End Terminal.

Lemma Mbed_step_terminal_stays (L : Type) (lower : LowerTransport L)
  (Ssl : Type) (mbedtls : MbedTLS Ssl) (fuel : nat) (o : op) :
  o <> Start -> keeps terminal_stays (Mbed_step (L:=L) (Ssl:=Ssl) fuel o).
Proof.
  destruct o as [| |m|m|]; cbn [Mbed_step]; intro Ho; [congruence| | | |].
  - apply keeps_state_eq_terminal_stays, stop_state_eq.
  - apply keeps_then_ret; [typeclasses eauto|].
    apply keeps_state_eq_terminal_stays, Mbed_send_keeps. typeclasses eauto.
  - apply keeps_state_eq_terminal_stays, incoming_state_eq.
  - apply run_task_terminal_stays. intros t H1 H2.
    now apply Mbed_doRecv_outside_session.
Qed.

Lemma Ossl_step_terminal_stays (L : Type) (lower : LowerTransport L)
  (Ssl : Type) (openssl : OpenSSL Ssl) (fuel : nat) (o : op) :
  o <> Start -> keeps terminal_stays (Ossl_step (L:=L) (Ssl:=Ssl) fuel o).
Proof.
  destruct o as [| |m|m|]; cbn [Ossl_step]; intro Ho; [congruence| | | |].
  - apply keeps_state_eq_terminal_stays, stop_state_eq.
  - apply keeps_then_ret; [typeclasses eauto|].
    apply keeps_state_eq_terminal_stays, Ossl_send_keeps. typeclasses eauto.
  - apply keeps_state_eq_terminal_stays, incoming_state_eq.
  - apply run_task_terminal_stays. intros t H1 H2.
    now apply Ossl_doRecv_outside_session.
Qed.

(** X22.  In the MbedTLS and OpenSSL variants the states
    [Disconnected] and [Failed] are final short of a new [start]: over
    any sequence of [stop], [send], [incoming] and task runs, however
    long, the state stays what it is and the observer is told
    nothing. *)
Theorem Mbed_and_Ossl_terminal_states_are_final :
  (forall (L : Type) (lower : LowerTransport L) (Ssl : Type)
          (mbedtls : MbedTLS Ssl) (fuel : nat) (ops : list op)
          (t t' : TlsTransport L Ssl),
      mState t = Disconnected \/ mState t = Failed ->
      Forall (fun o => o <> Start) ops ->
      life (Mbed_step fuel) ops t = Some t' ->
      mState t' = mState t /\ notified t' = notified t) /\
  (forall (L : Type) (lower : LowerTransport L) (Ssl : Type)
          (openssl : OpenSSL Ssl) (fuel : nat) (ops : list op)
          (t t' : TlsTransport L (ssl_fields Ssl)),
      mState t = Disconnected \/ mState t = Failed ->
      Forall (fun o => o <> Start) ops ->
      life (Ossl_step fuel) ops t = Some t' ->
      mState t' = mState t /\ notified t' = notified t).
Proof.
  split; intros * Hs Hp H.
  - eapply (life_keeps_on (R:=terminal_stays)) in H; [exact (H Hs)| |exact Hp].
    intros o Ho. now apply Mbed_step_terminal_stays.
  - eapply (life_keeps_on (R:=terminal_stays)) in H; [exact (H Hs)| |exact Hp].
    intros o Ho. now apply Ossl_step_terminal_stays.
Qed.

Lemma Mbed_and_Ossl_terminal_states_are_final_witness :
  let m : TlsTransport (list (outcome bool)) (script mbedtls_answer) :=
    set_mState Failed (fresh [] []) in
  exists t',
    life (Mbed_step 3)
      [Stop; RunTask; Incoming (Some [x17]); Send None; Stop; RunTask] m
    = Some t' /\
    mState t' = mState m /\ notified t' = notified m.
Proof.
  intro m.
  destruct Mbed_and_Ossl_terminal_states_are_final as (B & _).
  eexists. split; [vm_compute; reflexivity|].
  apply (B _ _ _ mbedtls 3%nat
           [Stop; RunTask; Incoming (Some [x17]); Send None; Stop; RunTask]
           m _);
    [right; reflexivity|repeat constructor; discriminate
    |vm_compute; reflexivity].
Defined.

(** ** What [send] leaves alone *)

(** X23.  In each variant, [send] -- whatever the message, whether it
    returns or throws, and whatever the engine does while it writes --
    never moves the state, tells the observer nothing, schedules no
    task and signals no end of stream to the upper layer. *)
Theorem send_touches_neither_state_nor_schedule :
  (forall (L : Type) (lower : LowerTransport L) (Session : Type)
          (gnutls : GnuTLS Session) (fuel : nat) (message : message_ptr)
          (t : TlsTransport L Session) r t',
      Gnu.send fuel message t = Some (r, t') ->
      state_eq t t' /\ sched_eq t t' /\ no_eos t t') /\
  (forall (L : Type) (lower : LowerTransport L) (Ssl : Type)
          (mbedtls : MbedTLS Ssl) (message : message_ptr)
          (t : TlsTransport L Ssl) r t',
      Mbed.send message t = Some (r, t') ->
      state_eq t t' /\ sched_eq t t' /\ no_eos t t') /\
  (forall (L : Type) (lower : LowerTransport L) (Ssl : Type)
          (openssl : OpenSSL Ssl) (message : message_ptr)
          (t : TlsTransport L (ssl_fields Ssl)) r t',
      Ossl.send message t = Some (r, t') ->
      state_eq t t' /\ sched_eq t t' /\ no_eos t t').
Proof.
  split; [|split]; intros * H; repeat split.
  all: first [ eapply (Gnu_send_keeps (R:=state_eq)), H
             | eapply (Gnu_send_keeps (R:=sched_eq)), H
             | eapply (Gnu_send_keeps (R:=no_eos)), H
             | eapply (Mbed_send_keeps (R:=state_eq)), H
             | eapply (Mbed_send_keeps (R:=sched_eq)), H
             | eapply (Mbed_send_keeps (R:=no_eos)), H
             | eapply (Ossl_send_keeps (R:=state_eq)), H
             | eapply (Ossl_send_keeps (R:=sched_eq)), H
             | eapply (Ossl_send_keeps (R:=no_eos)), H ].
Qed.

Lemma send_touches_neither_state_nor_schedule_witness :
  exists t',
    Gnu.send 2 (Some [x01]) corked_gnutls = Some (Ok false, t') /\
    state_eq corked_gnutls t' /\ sched_eq corked_gnutls t' /\
    no_eos corked_gnutls t'.
Proof.
  destruct send_touches_neither_state_nor_schedule as (G & _ & _).
  eexists. split; [vm_compute; reflexivity|].
  apply (G _ _ _ gnutls 2%nat (Some [x01]) corked_gnutls (Ok false) _).
  vm_compute. reflexivity.
Defined.

(** ** From [incoming] to the pull function *)

Lemma incoming_queue (L E : Type) (message : message_ptr)
  (t : TlsTransport L E) :
  exists t',
    incoming message t = Some (Ok tt, t') /\
    mIncomingMessage t' = mIncomingMessage t /\
    mIncomingMessagePosition t' = mIncomingMessagePosition t /\
    delivered t' = delivered t /\
    mIncomingQueue t' = match message with
                        | None => Queue_stop (mIncomingQueue t)
                        | Some m => Queue_push m (mIncomingQueue t)
                        end.
Proof.
  destruct message as [m|]; unfold incoming;
    unfold bind at 1; unfold modify at 1;
    match goal with
    | |- context [enqueueRecv ?s] =>
        destruct (enqueueRecv_effect s) as [H|(_ & _ & H)]; rewrite H
    end;
    eexists; (split; [reflexivity|]); cbn; auto.
Qed.

Lemma to_ssize_t_small (n : Z) : n < 2 ^ 63 -> to_ssize_t n = n.
Proof. intro H. unfold to_ssize_t. apply Z.ltb_lt in H. now rewrite H. Qed.

(** X24.  From [incoming] to the pull function, in the GnuTLS and
    MbedTLS variants, on an instance with no message at hand and an
    empty queue that is not stopped.  A pull answers would-block ([-1]
    with [EAGAIN]; [MBEDTLS_ERR_SSL_WANT_READ]).  After
    [incoming(nullptr)] a pull answers end of stream ([0];
    [MBEDTLS_ERR_SSL_CONN_EOF]).  After [incoming] of a non-empty
    message, a pull with room for it copies exactly that message and
    answers its size; nothing is delivered to the upper layer and
    nothing is left unread. *)
Theorem incoming_then_pull :
  (forall (L : Type) (Session : Type) (gnutls : GnuTLS Session) (maxlen : Z)
          (t : TlsTransport L Session),
      mIncomingMessage t = None -> mIncomingQueue t = mkQueue [] false ->
      (exists t',
          Gnu.ReadCallback maxlen t = Some (Ok (-1, EAGAIN, []), t')) /\
      (forall t1, incoming None t = Some (Ok tt, t1) ->
         exists t', Gnu.ReadCallback maxlen t1 = Some (Ok (0, 0, []), t')) /\
      (forall m t1,
         m <> [] -> size m <= maxlen -> size m < 2 ^ 63 ->
         incoming (Some m) t = Some (Ok tt, t1) ->
         exists t',
           Gnu.ReadCallback maxlen t1 = Some (Ok (size m, 0, m), t') /\
           delivered t' = delivered t /\ unread t' = [])) /\
  (forall (L : Type) (Ssl : Type) (mbedtls : MbedTLS Ssl) (len : Z)
          (t : TlsTransport L Ssl),
      mIncomingMessage t = None -> mIncomingQueue t = mkQueue [] false ->
      (exists t',
          Mbed.ReadCallback len t
          = Some (Ok (MBEDTLS_ERR_SSL_WANT_READ, []), t')) /\
      (forall t1, incoming None t = Some (Ok tt, t1) ->
         exists t',
           Mbed.ReadCallback len t1
           = Some (Ok (MBEDTLS_ERR_SSL_CONN_EOF, []), t')) /\
      (forall m t1,
         m <> [] -> size m <= len -> size m < 2 ^ 31 ->
         incoming (Some m) t = Some (Ok tt, t1) ->
         exists t',
           Mbed.ReadCallback len t1 = Some (Ok (size m, m), t') /\
           delivered t' = delivered t /\ unread t' = [])).
Proof.
  split.
  - intros L Session gnutls maxlen t Hm Hq. split; [|split].
    + rewrite Gnu_ReadCallback_eq. unfold Gnu_pull, refill, drop_exhausted.
      rewrite Hm. cbn [mIncomingMessage set_mIncomingMessagePosition].
      rewrite Hm. unfold after_next. cbn. rewrite Hq, Hm. cbn.
      eexists. reflexivity.
    + intros t1 H1.
      destruct (incoming_queue None t) as (t2 & H2 & A & B & C & D).
      rewrite H2 in H1. inversion H1; subst t2.
      rewrite Gnu_ReadCallback_eq. unfold Gnu_pull, refill, drop_exhausted.
      rewrite A, Hm. cbn [mIncomingMessage set_mIncomingMessagePosition].
      rewrite A, Hm. unfold after_next. cbn. rewrite D, A, Hq, Hm. cbn.
      eexists. reflexivity.
    + intros m t1 Hne Hle Hlt H1.
      destruct (incoming_queue (Some m) t) as (t2 & H2 & A & B & C & D).
      rewrite H2 in H1. inversion H1; subst t2.
      rewrite Gnu_ReadCallback_eq. unfold Gnu_pull, refill, drop_exhausted.
      rewrite A, Hm. cbn [mIncomingMessage set_mIncomingMessagePosition].
      rewrite A, Hm. unfold after_next. cbn. rewrite D, A, C, Hq, Hm. cbn.
      assert (Hs : (size m >? 0) = true).
      { destruct m; [congruence|]. unfold size. cbn [List.length].
        rewrite Z.gtb_ltb. apply Z.ltb_lt. lia. }
      rewrite Hs. cbn.
      replace (Z.min maxlen (size m - 0)) with (size m) by lia.
      rewrite (to_ssize_t_small Hlt).
      assert (Hf : firstn (Z.to_nat (size m)) m = m)
        by (unfold size; rewrite Nat2Z.id; apply firstn_all).
      rewrite Hf. eexists. split; [reflexivity|]. split; [reflexivity|].
      unfold unread. cbn. rewrite app_nil_r.
      unfold size. rewrite Nat2Z.id. apply skipn_all.
  - intros L Ssl mbedtls len t Hm Hq. split; [|split].
    + rewrite Mbed_ReadCallback_eq. unfold Mbed_pull, refill, drop_exhausted.
      rewrite Hm. cbn [mIncomingMessage set_mIncomingMessagePosition].
      rewrite Hm. unfold after_next. cbn. rewrite Hq, Hm. cbn.
      eexists. reflexivity.
    + intros t1 H1.
      destruct (incoming_queue None t) as (t2 & H2 & A & B & C & D).
      rewrite H2 in H1. inversion H1; subst t2.
      rewrite Mbed_ReadCallback_eq. unfold Mbed_pull, refill, drop_exhausted.
      rewrite A, Hm. cbn [mIncomingMessage set_mIncomingMessagePosition].
      rewrite A, Hm. unfold after_next. cbn. rewrite D, A, Hq, Hm. cbn.
      eexists. reflexivity.
    + intros m t1 Hne Hle Hlt H1.
      destruct (incoming_queue (Some m) t) as (t2 & H2 & A & B & C & D).
      rewrite H2 in H1. inversion H1; subst t2.
      rewrite Mbed_ReadCallback_eq. unfold Mbed_pull, refill, drop_exhausted.
      rewrite A, Hm. cbn [mIncomingMessage set_mIncomingMessagePosition].
      rewrite A, Hm. unfold after_next. cbn. rewrite D, A, C, Hq, Hm. cbn.
      assert (Hs : (size m >? 0) = true).
      { destruct m; [congruence|]. unfold size. cbn [List.length].
        rewrite Z.gtb_ltb. apply Z.ltb_lt. lia. }
      rewrite Hs. cbn.
      replace (Z.min len (size m - 0)) with (size m) by lia.
      rewrite to_int_small by (pose proof (size_nonneg m); lia).
      assert (Hf : firstn (Z.to_nat (size m)) m = m)
        by (unfold size; rewrite Nat2Z.id; apply firstn_all).
      rewrite Hf. eexists. split; [reflexivity|]. split; [reflexivity|].
      unfold unread. cbn. rewrite app_nil_r.
      unfold size. rewrite Nat2Z.id. apply skipn_all.
Qed.

Lemma incoming_then_pull_witness :
  let t : TlsTransport (list (outcome bool)) (script gnutls_answer) :=
    fresh [] [] in
  (exists t', Gnu.ReadCallback 4096 t = Some (Ok (-1, 11, []), t')) /\
  (exists t1 t',
      incoming None t = Some (Ok tt, t1) /\
      Gnu.ReadCallback 4096 t1 = Some (Ok (0, 0, []), t')) /\
  (exists t1 t',
      incoming (Some [x16; x03]) t = Some (Ok tt, t1) /\
      Gnu.ReadCallback 4096 t1 = Some (Ok (2, 0, [x16; x03]), t')).
Proof.
  intro t. destruct incoming_then_pull as (G & _).
  destruct (G _ _ gnutls 4096 t eq_refl eq_refl) as (A & B & C).
  split; [exact A|]. split.
  - destruct (B _ eq_refl) as (t' & Ht').
    do 2 eexists. split; [reflexivity|exact Ht'].
  - destruct (C [x16; x03] _ ltac:(discriminate) ltac:(cbn; lia)
                ltac:(cbn; lia) eq_refl) as (t' & Ht' & _).
    do 2 eexists. split; [reflexivity|exact Ht'].
Defined.
